(** * The remote-call resilience layer of foodie-finder

    A shallow embedding of
    - [CacheManager] and [PerformanceMonitor] of [utils/util.js], and
    - the class [APIPerformanceOptimizer] of the performance module
      (the file that starts with [require('./util')]),
    followed by the properties of the cache, the circuit breaker, the retry
    loop and the monitor.

    Conventions of the embedding.
    - Time is the value of [Date.now()], an integer number of milliseconds.
      Synchronous code takes no time; the clock only moves at an [await]
      and between calls.
    - Counters and durations are integers; the running average, which the
      code divides, is an IEEE 754 double.
    - What the language leaves to the engine is a parameter: the class
      [Engine].
    - A function that can throw returns an [option]; [None] is the throw.
    - The mutable singletons are records that are passed in and returned. *)

From Stdlib Require Import ZArith Lia List String Bool.
From Stdlib Require Import Sorting.Sorted Sorting.Permutation.
From Stdlib Require Import Floats.SpecFloat.
From stdpp Require Import gmap strings list.

Local Open Scope string_scope.
Local Open Scope Z_scope.

(** ** JavaScript values *)

(** The values that flow through the cache and the API wrapper.  Numbers are
    the integers and NaN; [JObj] is a non-null object, named by a tag, whose
    fields the wrapper never inspects. *)
Inductive JsVal : Type :=
| JUndefined
| JNull
| JBool (b : bool)
| JNum (n : Z)
| JNaN
| JStr (s : string)
| JObj (tag : string).

(** ToBoolean: what [if (v)] and [a && v] test. *)
Definition truthy (v : JsVal) : bool :=
  match v with
  | JUndefined | JNull | JNaN => false
  | JBool b => b
  | JNum n => negb (n =? 0)
  | JStr s => negb (String.eqb s "")
  | JObj _ => true
  end.

(** What the model takes from the JavaScript engine.  [JSON.stringify] and
    [JSON.parse]: [None] is a throw.  And the order in which
    [Array.prototype.sort] leaves an array whose comparator is not
    consistent: ECMAScript leaves that order to the implementation, which
    only rearranges the elements.  A comparator returns a number, or NaN,
    which is [None]. *)
Class Engine : Type := {
  JSON_stringify : JsVal -> option JsVal;
  JSON_parse : JsVal -> option JsVal;
  sort_inconsistent : forall A : Type, (A -> A -> option Z) -> list A -> list A;
  sort_inconsistent_perm :
    forall (A : Type) (cmp : A -> A -> option Z) (l : list A),
      Permutation l (sort_inconsistent A cmp l)
}.

(** ** JavaScript numbers that are not integers

    A Number that the code divides is an IEEE 754 double: a [spec_float] of
    precision 53 and maximal exponent 1024, every operation rounded to the
    nearest double, ties to even. *)

Module Double.

Definition prec : Z := 53.
Definition emax : Z := 1024.

Definition t : Type := spec_float.

(** The double nearest to an integer; exact up to [2^53]. *)
Definition of_Z (z : Z) : t := binary_normalize prec emax z 0 false.

Definition add (x y : t) : t := SFadd prec emax x y.
Definition mul (x y : t) : t := SFmul prec emax x y.
Definition div (x y : t) : t := SFdiv prec emax x y.

(** [x > y]; false when either is NaN. *)
Definition gtb (x y : t) : bool := SFltb y x.

(** ToBoolean of a number is false for the zeros and NaN; [x || 0]. *)
Definition or_zero (x : t) : t :=
  match x with
  | S754_zero _ | S754_nan => of_Z 0
  | _ => x
  end.

(** What [${Math.round(x)}] prints: an integer, [NaN] or an infinity. *)
Inductive Rounded : Type :=
| RInt (z : Z)
| RNaN
| RInfinity (negative : bool).

(** [Math.round(x)]: the integer nearest to the value of [x], a half going
    up; computed on the value [m * 2^e] itself. *)
Definition Math_round (x : t) : Rounded :=
  match x with
  | S754_zero _ => RInt 0
  | S754_nan => RNaN
  | S754_infinity s => RInfinity s
  | S754_finite s m e =>
      let v := if s then Z.neg m else Z.pos m in
      if 0 <=? e then RInt (v * 2 ^ e)
      else RInt ((2 * v + 2 ^ (- e)) / 2 ^ (1 - e))
  end.

End Double.

(** ** The platform storage ([wx.*StorageSync]) *)

(** What the cache writes under a key. *)
Record CacheData : Type := {
  data : JsVal;
  timestamp : Z;
  expireTime : Z;
  compressed : bool;
  priority : string;
  accessCount : Z;
  lastAccess : Z
}.

(** A stored value is an entry written by the cache, or a value of another
    module, which has none of the entry's fields.  When that value is an
    object, a hit of [get] writes it back with an [accessCount] and a
    [lastAccess]: [STouched]. *)
Inductive Stored : Type :=
| SEntry (c : CacheData)
| SOther (v : JsVal)
| STouched (v : JsVal) (count last : Z).

(** The storage keeps its keys in the order of [getStorageInfoSync().keys].
    [currentSize] and [limitSize] are what the platform reports; the model
    does not derive them from the contents.  When [faulty] is set every
    storage call throws and has no effect; a storage that is not faulty
    never throws, so a loop of storage calls throws at its first call or not
    at all. *)
Record WxStorage : Type := {
  items : list (string * Stored);
  currentSize : Z;
  limitSize : Z;
  faulty : bool
}.

Fixpoint alist_get (k : string) (l : list (string * Stored)) : option Stored :=
  match l with
  | [] => None
  | (k', v) :: l' => if String.eqb k k' then Some v else alist_get k l'
  end.

Fixpoint alist_set (k : string) (v : Stored) (l : list (string * Stored))
  : list (string * Stored) :=
  match l with
  | [] => [(k, v)]
  | (k', v') :: l' =>
      if String.eqb k k' then (k, v) :: l' else (k', v') :: alist_set k v l'
  end.

Definition alist_remove (k : string) (l : list (string * Stored))
  : list (string * Stored) :=
  List.filter (fun kv => negb (String.eqb k (fst kv))) l.

Definition with_items (l : list (string * Stored)) (s : WxStorage) : WxStorage :=
  {| items := l; currentSize := currentSize s; limitSize := limitSize s;
     faulty := faulty s |}.

(** [wx.getStorageSync(key)]: the empty string when the key is absent. *)
Definition getStorageSync (key : string) (s : WxStorage) : option Stored :=
  if faulty s then None
  else Some (match alist_get key (items s) with
             | Some v => v
             | None => SOther (JStr "")
             end).

Definition setStorageSync (key : string) (v : Stored) (s : WxStorage)
  : option WxStorage :=
  if faulty s then None else Some (with_items (alist_set key v (items s)) s).

Definition removeStorageSync (key : string) (s : WxStorage) : option WxStorage :=
  if faulty s then None else Some (with_items (alist_remove key (items s)) s).

Record StorageInfo : Type := {
  info_keys : list string;
  info_currentSize : Z;
  info_limitSize : Z
}.

Definition getStorageInfoSync (s : WxStorage) : option StorageInfo :=
  if faulty s then None
  else Some {| info_keys := List.map fst (items s);
               info_currentSize := currentSize s;
               info_limitSize := limitSize s |}.

(** ToBoolean of a stored value: an entry is an object. *)
Definition stored_truthy (v : Stored) : bool :=
  match v with
  | SEntry _ => true
  | SOther v => truthy v
  | STouched _ _ _ => true
  end.

(** ** [Array.prototype.sort] with a comparator

    For a comparator that is consistent on the elements of the array the
    result is fixed: the elements in ascending order, those that compare
    equal in the order they had, which is what a stable insertion sort
    gives.  For any other comparator the order is the engine's. *)

Section InsertionSort.
Context {A : Type} (cmp : A -> A -> Z).

Fixpoint sort_insert (x : A) (l : list A) : list A :=
  match l with
  | [] => [x]
  | y :: l' => if cmp x y <=? 0 then x :: y :: l' else y :: sort_insert x l'
  end.

Definition insertion_sort (l : list A) : list A :=
  List.fold_right sort_insert [] l.
End InsertionSort.

Section ArraySort.
Context `{Engine} {A : Type} (cmp : A -> A -> option Z).

(** The conditions of ECMAScript on three elements: the comparator returns
    no NaN, [a = a], [a = b] gives [b = a], and [=], [<] and [>] are
    transitive. *)
Definition consistent_on (a b c : A) : bool :=
  match cmp a a, cmp a b, cmp b a, cmp b c, cmp a c with
  | Some aa, Some ab, Some ba, Some bc, Some ac =>
      (aa =? 0)
      && implb (ab =? 0) (ba =? 0)
      && implb ((ab =? 0) && (bc =? 0)) (ac =? 0)
      && implb ((ab <? 0) && (bc <? 0)) (ac <? 0)
      && implb ((ab >? 0) && (bc >? 0)) (ac >? 0)
  | _, _, _, _, _ => false
  end.

(** The comparator is a consistent comparator for the elements of [l]. *)
Definition consistent (l : list A) : bool :=
  forallb (fun a => forallb (fun b => forallb (consistent_on a b) l) l) l.

Definition array_sort (l : list A) : list A :=
  if consistent l then insertion_sort (fun x y => default 0 (cmp x y)) l
  else sort_inconsistent A cmp l.
End ArraySort.

(** [arr.slice(-n)]: the last [n] elements. *)
Definition slice_last {A : Type} (n : nat) (l : list A) : list A :=
  List.skipn (List.length l - n) l.

(** ** CacheManager ([utils/util.js]) *)

Module CacheManager.

Definition PREFIX : string := "foodiefinder_cache_".

Definition DEFAULT_EXPIRE_TIME : Z := 24 * 60 * 60 * 1000.

Record Stats : Type := {
  hits : Z;
  misses : Z;
  sets : Z;
  removes : Z
}.

(** The object [CacheManager] with the storage it writes to, and the
    write-backs that [get] has scheduled with [setTimeout(..., 0)] and that
    have not run yet. *)
Record t : Type := {
  storage : WxStorage;
  stats : Stats;
  deferred : list (string * Stored)
}.

Definition with_storage (s : WxStorage) (c : t) : t :=
  {| storage := s; stats := stats c; deferred := deferred c |}.

Definition with_stats (st : Stats) (c : t) : t :=
  {| storage := storage c; stats := st; deferred := deferred c |}.

Definition add_hits (n : Z) (c : t) : t :=
  with_stats {| hits := hits (stats c) + n; misses := misses (stats c);
                sets := sets (stats c); removes := removes (stats c) |} c.

Definition add_misses (n : Z) (c : t) : t :=
  with_stats {| hits := hits (stats c); misses := misses (stats c) + n;
                sets := sets (stats c); removes := removes (stats c) |} c.

Definition add_sets (n : Z) (c : t) : t :=
  with_stats {| hits := hits (stats c); misses := misses (stats c);
                sets := sets (stats c) + n; removes := removes (stats c) |} c.

Definition add_removes (n : Z) (c : t) : t :=
  with_stats {| hits := hits (stats c); misses := misses (stats c);
                sets := sets (stats c); removes := removes (stats c) + n |} c.

Definition is_cache_key (key : string) : bool := String.prefix PREFIX key.

Section WithEngine.
Context `{Engine}.

Definition compressData (d : JsVal) : JsVal :=
  match JSON_stringify d with
  | Some s => s
  | None => d
  end.

Definition decompressData (d : JsVal) : JsVal :=
  match JSON_parse d with
  | Some v => v
  | None => d
  end.
End WithEngine.

(** [remove(key)] *)
Definition remove (key : string) (c : t) : bool * t :=
  match removeStorageSync (PREFIX +:+ key) (storage c) with
  | Some s => (true, add_removes 1 (with_storage s c))
  | None => (false, c)
  end.

(** [clear()] *)
Definition clear (c : t) : bool * t :=
  match getStorageInfoSync (storage c) with
  | None => (false, c)
  | Some info =>
      let keys := List.filter is_cache_key (info_keys info) in
      let step (acc : option WxStorage) (key : string) :=
        match acc with
        | Some s => removeStorageSync key s
        | None => None
        end in
      match List.fold_left step keys (Some (storage c)) with
      | Some s => (true, add_removes (Z.of_nat (List.length keys)) (with_storage s c))
      | None => (false, c)
      end
  end.

(** [checkStorageSpace()]: on the sizes that the platform reports, integers
    that are not negative, [(currentSize / limitSize) < 0.8] is
    [5 * currentSize < 4 * limitSize]. *)
Definition checkStorageSpace (c : t) : bool :=
  match getStorageInfoSync (storage c) with
  | None => true
  | Some info =>
      let limitSize := if info_limitSize info =? 0 then 10240 else info_limitSize info in
      let currentSize := info_currentSize info in
      5 * currentSize <? 4 * limitSize
  end.

(** The items that [cleanupByPriority] collects and sorts. *)
Record Item : Type := {
  item_key : string;
  item_priority : string;
  item_lastAccess : Z;
  item_accessCount : Z;
  item_timestamp : Z
}.

(** [x || 'normal'] on a priority. *)
Definition priority_or_normal (p : string) : string :=
  if String.eqb p "" then "normal" else p.

Definition item_of (key : string) (v : Stored) : Item :=
  match v with
  | SEntry cd =>
      {| item_key := key; item_priority := priority_or_normal (priority cd);
         item_lastAccess := lastAccess cd; item_accessCount := accessCount cd;
         item_timestamp := timestamp cd |}
  | SOther _ =>
      {| item_key := key; item_priority := "normal"; item_lastAccess := 0;
         item_accessCount := 0; item_timestamp := 0 |}
  | STouched _ count last =>
      {| item_key := key; item_priority := "normal"; item_lastAccess := last;
         item_accessCount := count; item_timestamp := 0 |}
  end.

(** The names that an object literal inherits from [Object.prototype]:
    [priorityWeight[p]] is a function or an object for them. *)
Definition inherited : list string :=
  ["constructor"; "hasOwnProperty"; "isPrototypeOf"; "propertyIsEnumerable";
   "toLocaleString"; "toString"; "valueOf"; "__proto__"; "__defineGetter__";
   "__defineSetter__"; "__lookupGetter__"; "__lookupSetter__"].

(** What [priorityWeight[p] || 2] evaluates to: a number, or the inherited
    value of that name, which is truthy. *)
Inductive Weight : Type :=
| WNum (n : Z)
| WInherited (name : string).

(** [priorityWeight[p] || 2] with [priorityWeight = {low: 1, normal: 2, high: 3}]. *)
Definition priorityWeight (p : string) : Weight :=
  if String.eqb p "low" then WNum 1
  else if String.eqb p "normal" then WNum 2
  else if String.eqb p "high" then WNum 3
  else if existsb (String.eqb p) inherited then WInherited p
  else WNum 2.

(** The comparator handed to [cacheItems.sort].  Two inherited values are
    the same object only under the same name, and the difference of two
    weights of which one is not a number is NaN. *)
Definition compare_items (a b : Item) : option Z :=
  let aPriority := priorityWeight (item_priority a) in
  let bPriority := priorityWeight (item_priority b) in
  match aPriority, bPriority with
  | WNum x, WNum y =>
      if negb (x =? y) then Some (x - y)
      else Some (item_accessCount a - item_accessCount b)
  | WInherited n, WInherited m =>
      if negb (String.eqb n m) then None
      else Some (item_accessCount a - item_accessCount b)
  | _, _ => None
  end.

(** The first loop of [cleanupByPriority]: one item per cache key that holds
    a truthy value; a key whose read throws is removed. *)
Fixpoint collect_items (keys : list string) (s : WxStorage) (acc : list Item)
  : option (WxStorage * list Item) :=
  match keys with
  | [] => Some (s, acc)
  | key :: keys' =>
      match getStorageSync key s with
      | Some cacheData =>
          collect_items keys' s
            (if stored_truthy cacheData then acc ++ [item_of key cacheData] else acc)
      | None =>
          match removeStorageSync key s with
          | Some s' => collect_items keys' s' acc
          | None => None
          end
      end
  end.

(** [Math.floor(n * 0.3)]: on the length of an array the floor of the double
    product is the integer quotient of [3 * n] by 10. *)
Definition deleteCount (n : nat) : nat := Z.to_nat (3 * Z.of_nat n / 10).

(** The second loop: remove the first [deleteCount] items, counting each. *)
Fixpoint remove_items (l : list Item) (c : t) : option t :=
  match l with
  | [] => Some c
  | it :: l' =>
      match removeStorageSync (item_key it) (storage c) with
      | Some s => remove_items l' (add_removes 1 (with_storage s c))
      | None => None
      end
  end.

Section Eviction.
Context `{Engine}.

(** The local [cacheItems] of [cleanupByPriority] after the sort. *)
Definition sorted_items (s : WxStorage) : list Item :=
  match getStorageInfoSync s with
  | None => []
  | Some info =>
      match collect_items (List.filter is_cache_key (info_keys info)) s [] with
      | Some (_, cacheItems) => array_sort compare_items cacheItems
      | None => []
      end
  end.

(** [cleanupByPriority()]; a throw ends it without a report. *)
Definition cleanupByPriority (c : t) : t :=
  match getStorageInfoSync (storage c) with
  | None => c
  | Some info =>
      let cacheKeys := List.filter is_cache_key (info_keys info) in
      match collect_items cacheKeys (storage c) [] with
      | None => c
      | Some (s, cacheItems) =>
          let sorted := array_sort compare_items cacheItems in
          let n := deleteCount (List.length sorted) in
          match remove_items (List.firstn n sorted) (with_storage s c) with
          | Some c' => c'
          | None => with_storage s c
          end
      end
  end.
End Eviction.

Section WithEngine.
Context `{Engine}.

(** [set(key, data, expireTime, {compress, priority})] at time [now]. *)
Definition set (now : Z) (key : string) (d : JsVal) (expire : Z)
    (compress : bool) (prio : string) (c : t) : bool * t :=
  let cacheData :=
    {| data := if compress then compressData d else d;
       timestamp := now;
       expireTime := expire;
       compressed := compress;
       priority := prio;
       accessCount := 0;
       lastAccess := now |} in
  let c1 := if checkStorageSpace c then c else cleanupByPriority c in
  match setStorageSync (PREFIX +:+ key) (SEntry cacheData) (storage c1) with
  | Some s => (true, add_sets 1 (with_storage s c1))
  | None => (false, c1)
  end.

(** [get(key)] at time [now].  The write-back of the access fields is
    scheduled, not done.  A truthy value of another module under the key
    has none of the entry's fields: the comparison with [undefined] is
    false and its [data] is [undefined]; the two assignments add
    [accessCount] and [lastAccess] to an object and do nothing to a
    primitive value (the file is not in strict mode). *)
Definition get (now : Z) (key : string) (c : t) : JsVal * t :=
  match getStorageSync (PREFIX +:+ key) (storage c) with
  | None => (JNull, add_misses 1 c)
  | Some cacheData =>
      if negb (stored_truthy cacheData) then (JNull, add_misses 1 c)
      else
        match cacheData with
        | SEntry cd =>
            if now - timestamp cd >? expireTime cd then
              let c1 := snd (remove key c) in
              (JNull, add_misses 1 c1)
            else
              let cd' :=
                {| data := data cd; timestamp := timestamp cd;
                   expireTime := expireTime cd; compressed := compressed cd;
                   priority := priority cd;
                   accessCount := accessCount cd + 1;
                   lastAccess := now |} in
              let c1 :=
                {| storage := storage c; stats := stats c;
                   deferred := deferred c ++ [(PREFIX ++ key, SEntry cd')] |} in
              (if compressed cd then decompressData (data cd) else data cd,
               add_hits 1 c1)
        | SOther v =>
            let back :=
              match v with
              | JObj _ => STouched v 1 now
              | _ => SOther v
              end in
            let c1 :=
              {| storage := storage c; stats := stats c;
                 deferred := deferred c ++ [(PREFIX ++ key, back)] |} in
            (JUndefined, add_hits 1 c1)
        | STouched v count _ =>
            let c1 :=
              {| storage := storage c; stats := stats c;
                 deferred := deferred c
                             ++ [(PREFIX ++ key, STouched v (count + 1) now)] |} in
            (JUndefined, add_hits 1 c1)
        end
  end.
End WithEngine.

(** The event loop runs the scheduled write-backs, each inside its own
    [try]. *)
Definition run_deferred (c : t) : t :=
  let step (s : WxStorage) (kv : string * Stored) :=
    match setStorageSync (fst kv) (snd kv) s with
    | Some s' => s'
    | None => s
    end in
  {| storage := List.fold_left step (deferred c) (storage c);
     stats := stats c;
     deferred := [] |}.

End CacheManager.

(** ** PerformanceMonitor ([utils/util.js]) *)

Module PerformanceMonitor.

(** One entry of [records]. *)
Record Rec : Type := {
  startTime : Z;
  endTime : option Z;
  duration : option Z;
  metadata : JsVal;
  memoryUsage : JsVal;
  endMemoryUsage : option JsVal
}.

(** One entry of [slowOperations] or [fastOperations]. *)
Record Op : Type := {
  op_name : string;
  op_duration : Z;
  op_timestamp : Z;
  op_metadata : option JsVal
}.

(** [totalOperations] counts up from zero and the durations are differences
    of [Date.now()] values: integers.  [averageTime] is the double that the
    division leaves. *)
Record Stats : Type := {
  totalOperations : Z;
  averageTime : Double.t;
  slowOperations : list Op;
  fastOperations : list Op
}.

Record t : Type := {
  records : gmap string Rec;
  stats : Stats
}.

Definition empty_stats : Stats :=
  {| totalOperations := 0; averageTime := Double.of_Z 0;
     slowOperations := []; fastOperations := [] |}.

(** [start(name, metadata)]; [mem] is what [getMemoryUsage()] returns. *)
Definition start (now : Z) (mem : JsVal) (name : string) (meta : JsVal) (m : t) : t :=
  {| records :=
       <[name := {| startTime := now; endTime := None; duration := None;
                    metadata := meta; memoryUsage := mem;
                    endMemoryUsage := None |}]> (records m);
     stats := stats m |}.

(** [updateStats(name, record)] with [record.duration = d]. *)
Definition updateStats (name : string) (r : Rec) (d : Z) (st : Stats) : Stats :=
  let n := totalOperations st + 1 in
  let totalTime :=
    Double.add (Double.mul (averageTime st) (Double.of_Z (n - 1))) (Double.of_Z d) in
  let fast :=
    if d <? 1000 then
      let l := (fastOperations st ++
                [{| op_name := name; op_duration := d;
                    op_timestamp := startTime r; op_metadata := None |}])%list in
      if (50 <? List.length l)%nat then slice_last 50 l else l
    else fastOperations st in
  {| totalOperations := n;
     averageTime := Double.div totalTime (Double.of_Z n);
     slowOperations := slowOperations st;
     fastOperations := fast |}.

(** [end(name)]: the duration it returns and the monitor after it. *)
Definition end_ (now : Z) (mem : JsVal) (name : string) (m : t) : Z * t :=
  match records m !! name with
  | None => (0, m)
  | Some record =>
      let d := now - startTime record in
      let record' :=
        {| startTime := startTime record; endTime := Some now;
           duration := Some d; metadata := metadata record;
           memoryUsage := memoryUsage record;
           endMemoryUsage := Some mem |} in
      let st := updateStats name record' d (stats m) in
      let slow :=
        if d >? 5000 then
          let l := (slowOperations st ++
                    [{| op_name := name; op_duration := d;
                        op_timestamp := startTime record;
                        op_metadata := Some (metadata record) |}])%list in
          if (20 <? List.length l)%nat then slice_last 20 l else l
        else slowOperations st in
      (d,
       {| records := <[name := record']> (records m);
          stats := {| totalOperations := totalOperations st;
                      averageTime := averageTime st;
                      slowOperations := slow;
                      fastOperations := fastOperations st |} |})
  end.

(** [clear()] *)
Definition clear (m : t) : t := {| records := ∅; stats := empty_stats |}.

(** What [getStats()] returns: the statistics, the number of records and
    the number in [averageTimeFormatted]. *)
Record StatsReport : Type := {
  report_stats : Stats;
  recordCount : nat;
  averageTimeFormatted : Double.Rounded
}.

(** [getStats()] *)
Definition getStats (m : t) : StatsReport :=
  {| report_stats := stats m;
     recordCount := size (records m);
     averageTimeFormatted := Double.Math_round (averageTime (stats m)) |}.

End PerformanceMonitor.

(** ** Asynchronous operations *)

(** What [optimizeAPICall] and the operation can throw.  A rejection reason
    is an error object with a message, which the catch blocks read as
    [error.message]; a reason that is [null] or [undefined] is outside the
    model. *)
Inductive Thrown : Type :=
| CircuitOpenError (apiName : string)
| TimeoutError
| OperationError (message : string).

(** How one call of the operation settles: after how many milliseconds it
    resolves or rejects, or not at all.  Zero is a promise that is already
    settled when the call returns (or a synchronous throw). *)
Inductive Settle : Type :=
| Resolves (v : JsVal) (after : Z)
| Rejects (message : string) (after : Z)
| Never.

(** The operation supplied to one invocation: how its k-th call settles. *)
Definition ApiFunction : Type := nat -> Settle.

(** The operation settles before the timer of [timeout] milliseconds fires.
    The timer is set first, so it wins a tie; a promise that is already
    settled wins against any timer. *)
Definition settles_first (after timeout : Z) : bool :=
  (after <=? 0) || (after <? timeout).

(** [Promise.race([apiFunction(), timeoutPromise])]: who wins and how long
    the [await] takes. *)
Definition race (s : Settle) (timeout : Z) : (JsVal + Thrown) * Z :=
  match s with
  | Resolves v d =>
      if settles_first d timeout then (inl v, Z.max 0 d)
      else (inr TimeoutError, Z.max 0 timeout)
  | Rejects msg d =>
      if settles_first d timeout then (inr (OperationError msg), Z.max 0 d)
      else (inr TimeoutError, Z.max 0 timeout)
  | Never => (inr TimeoutError, Z.max 0 timeout)
  end.

(** ** APIPerformanceOptimizer *)

Inductive BreakerState : Type := closed | open | half_open.

Record Breaker : Type := {
  failureCount : Z;
  lastFailTime : Z;
  state : BreakerState;
  threshold : Z;
  cooldownTime : Z
}.

Record Metric : Type := {
  responseTime : Z;
  success : bool;
  error : option Thrown;
  metric_timestamp : Z
}.

(** The options of [optimizeAPICall]; [retryCount] is a count, so the loop
    of [executeWithRetry] runs at least once. *)
Record Options : Type := {
  timeout : Z;
  retryCount : nat;
  cacheEnabled : bool;
  circuitBreakerEnabled : bool
}.

Definition default_options : Options :=
  {| timeout := 5000; retryCount := 3; cacheEnabled := true;
     circuitBreakerEnabled := true |}.

(** The instance [apiOptimizer], the two singletons it uses, the clock and
    what [getMemoryUsage()] reports. *)
Record World : Type := {
  now : Z;
  memInfo : JsVal;
  cache : CacheManager.t;
  monitor : PerformanceMonitor.t;
  apiMetrics : gmap string (list Metric);
  circuitBreaker : gmap string Breaker
}.

Definition with_now (n : Z) (w : World) : World :=
  {| now := n; memInfo := memInfo w; cache := cache w; monitor := monitor w;
     apiMetrics := apiMetrics w; circuitBreaker := circuitBreaker w |}.

Definition with_cache (c : CacheManager.t) (w : World) : World :=
  {| now := now w; memInfo := memInfo w; cache := c; monitor := monitor w;
     apiMetrics := apiMetrics w; circuitBreaker := circuitBreaker w |}.

Definition with_monitor (m : PerformanceMonitor.t) (w : World) : World :=
  {| now := now w; memInfo := memInfo w; cache := cache w; monitor := m;
     apiMetrics := apiMetrics w; circuitBreaker := circuitBreaker w |}.

Definition with_apiMetrics (a : gmap string (list Metric)) (w : World) : World :=
  {| now := now w; memInfo := memInfo w; cache := cache w; monitor := monitor w;
     apiMetrics := a; circuitBreaker := circuitBreaker w |}.

Definition with_circuitBreaker (b : gmap string Breaker) (w : World) : World :=
  {| now := now w; memInfo := memInfo w; cache := cache w; monitor := monitor w;
     apiMetrics := apiMetrics w; circuitBreaker := b |}.

(** An [await] that takes [ms] milliseconds.  When it waits for a timer or
    for the network the event loop first runs the write-backs that are
    due. *)
Definition sleep (ms : Z) (w : World) : World :=
  if ms <=? 0 then w
  else with_now (now w + ms) (with_cache (CacheManager.run_deferred (cache w)) w).

(** [isCircuitBreakerOpen(apiName)]; the breaker moves to half-open when it
    is read after the cool-down. *)
Definition isCircuitBreakerOpen (apiName : string) (w : World) : bool * World :=
  match circuitBreaker w !! apiName with
  | None => (false, w)
  | Some breaker =>
      match state breaker with
      | open =>
          if now w - lastFailTime breaker >? cooldownTime breaker then
            (false,
             with_circuitBreaker
               (<[apiName := {| failureCount := failureCount breaker;
                                lastFailTime := lastFailTime breaker;
                                state := half_open;
                                threshold := threshold breaker;
                                cooldownTime := cooldownTime breaker |}]>
                  (circuitBreaker w)) w)
          else (true, w)
      | _ => (false, w)
      end
  end.

Definition new_breaker : Breaker :=
  {| failureCount := 0; lastFailTime := 0; state := closed;
     threshold := 5; cooldownTime := 60000 |}.

(** [updateCircuitBreaker(apiName)] *)
Definition updateCircuitBreaker (apiName : string) (w : World) : World :=
  let breaker :=
    match circuitBreaker w !! apiName with
    | Some b => b
    | None => new_breaker
    end in
  let count := failureCount breaker + 1 in
  with_circuitBreaker
    (<[apiName := {| failureCount := count;
                     lastFailTime := now w;
                     state := if count >=? threshold breaker then open
                              else state breaker;
                     threshold := threshold breaker;
                     cooldownTime := cooldownTime breaker |}]>
       (circuitBreaker w)) w.

(** [resetCircuitBreaker(apiName)] *)
Definition resetCircuitBreaker (apiName : string) (w : World) : World :=
  match circuitBreaker w !! apiName with
  | None => w
  | Some breaker =>
      with_circuitBreaker
        (<[apiName := {| failureCount := 0;
                         lastFailTime := lastFailTime breaker;
                         state := closed;
                         threshold := threshold breaker;
                         cooldownTime := cooldownTime breaker |}]>
           (circuitBreaker w)) w
  end.

(** [recordAPIMetrics(apiName, metrics)] *)
Definition recordAPIMetrics (apiName : string) (rt : Z) (ok : bool)
    (err : option Thrown) (w : World) : World :=
  let old := default [] (apiMetrics w !! apiName) in
  let l := (old ++ [{| responseTime := rt; success := ok; error := err;
                       metric_timestamp := now w |}])%list in
  let l' := if (100 <? List.length l)%nat then slice_last 100 l else l in
  with_apiMetrics (<[apiName := l']> (apiMetrics w)) w.

(** What a run of the retry loop did: how it ended, how often the operation
    was called, and the waits between the attempts, in order. *)
Record Attempted : Type := {
  outcome : JsVal + Thrown;
  calls : nat;
  delays : list Z;
  after : World
}.

(** The wait before attempt [i + 1]. *)
Definition backoff (i : nat) : Z := Z.min (1000 * 2 ^ Z.of_nat i) 5000.

(** The loop of [executeWithRetry] from attempt [i], with [remaining] the
    number of retries still allowed, [retryCount - i]; [i < retryCount] is
    [remaining] being positive. *)
Fixpoint attempt_from (apiFunction : ApiFunction) (timeout : Z)
    (remaining i : nat) (w : World) : Attempted :=
  let '(r, ms) := race (apiFunction i) timeout in
  let w1 := sleep ms w in
  match r with
  | inl v => {| outcome := inl v; calls := 1; delays := []; after := w1 |}
  | inr lastError =>
      match remaining with
      | O => {| outcome := inr lastError; calls := 1; delays := []; after := w1 |}
      | S remaining' =>
          let delay := backoff i in
          let rest := attempt_from apiFunction timeout remaining' (S i)
                        (sleep delay w1) in
          {| outcome := outcome rest; calls := S (calls rest);
             delays := delay :: delays rest; after := after rest |}
      end
  end.

(** [executeWithRetry(apiFunction, retryCount, timeout)] *)
Definition executeWithRetry (apiFunction : ApiFunction) (retryCount : nat)
    (timeout : Z) (w : World) : Attempted :=
  attempt_from apiFunction timeout retryCount 0 w.

(** The cache key and the monitor name of an API: [`api_${apiName}`]. *)
Definition api_key (apiName : string) : string := "api_" +:+ apiName.

Section WithEngine.
Context `{Engine}.

(** The [catch] block of [optimizeAPICall]: the error is thrown again
    after the monitor, the metrics and the breaker have been updated.
    [n] and [ds] are the calls and waits made before the error. *)
Definition catch_block (apiName : string) (options : Options) (startTime : Z)
    (err : Thrown) (n : nat) (ds : list Z) (w : World) : Attempted :=
  let responseTime := now w - startTime in
  let w1 := with_monitor
              (snd (PerformanceMonitor.end_ (now w) (memInfo w)
                      (api_key apiName) (monitor w))) w in
  let w2 := recordAPIMetrics apiName responseTime false (Some err) w1 in
  let w3 := if circuitBreakerEnabled options
            then updateCircuitBreaker apiName w2 else w2 in
  {| outcome := inr err; calls := n; delays := ds; after := w3 |}.

(** The [try] body of [optimizeAPICall] from the call of
    [executeWithRetry] on. *)
Definition call_api (apiName : string) (apiFunction : ApiFunction)
    (options : Options) (startTime : Z) (w : World) : Attempted :=
  let r := executeWithRetry apiFunction (retryCount options) (timeout options) w in
  match outcome r with
  | inr err => catch_block apiName options startTime err (calls r) (delays r) (after r)
  | inl result =>
      let w1 := after r in
      let responseTime := now w1 - startTime in
      let w2 := with_monitor
                  (snd (PerformanceMonitor.end_ (now w1) (memInfo w1)
                          (api_key apiName) (monitor w1))) w1 in
      let w3 := recordAPIMetrics apiName responseTime true None w2 in
      let w4 := if cacheEnabled options && truthy result
                then with_cache
                       (snd (CacheManager.set (now w3) (api_key apiName) result
                               (5 * 60 * 1000) false "normal" (cache w3))) w3
                else w3 in
      let w5 := resetCircuitBreaker apiName w4 in
      {| outcome := inl result; calls := calls r; delays := delays r;
         after := w5 |}
  end.

(** The breaker check that opens the [try] body. *)
Definition check_breaker (apiName : string) (options : Options) (w : World)
  : bool * World :=
  if circuitBreakerEnabled options then isCircuitBreakerOpen apiName w
  else (false, w).

(** [optimizeAPICall(apiName, apiFunction, options)]: the value returned or
    the error thrown, with the calls and waits of the retry loop. *)
Definition optimizeAPICall (apiName : string) (apiFunction : ApiFunction)
    (options : Options) (w : World) : Attempted :=
  let startTime := now w in
  let w0 := with_monitor
              (PerformanceMonitor.start (now w) (memInfo w) (api_key apiName)
                 (JObj "{}") (monitor w)) w in
  let '(isOpen, wb) := check_breaker apiName options w0 in
  if isOpen then
    catch_block apiName options startTime (CircuitOpenError apiName) O [] wb
  else if cacheEnabled options then
    let '(cachedResult, c) := CacheManager.get (now wb) (api_key apiName) (cache wb) in
    let wc := with_cache c wb in
    if truthy cachedResult then
      {| outcome := inl cachedResult; calls := O; delays := []; after := wc |}
    else call_api apiName apiFunction options startTime wc
  else call_api apiName apiFunction options startTime wb.

(** One invocation made [gap] milliseconds after the previous one has
    returned. *)
Record Invocation : Type := {
  gap : Z;
  inv_name : string;
  inv_function : ApiFunction;
  inv_options : Options
}.

Definition invoke (c : Invocation) (w : World) : Attempted :=
  optimizeAPICall (inv_name c) (inv_function c) (inv_options c) (sleep (gap c) w).

(** A sequence of invocations, each awaited before the next: the results
    in order and the world at the end. *)
Fixpoint invoke_all (l : list Invocation) (w : World) : list Attempted * World :=
  match l with
  | [] => ([], w)
  | c :: l' =>
      let r := invoke c w in
      let '(rs, w') := invoke_all l' (after r) in
      (r :: rs, w')
  end.
End WithEngine.

(** ** PagePerformanceOptimizer: the purge of expired entries *)

Module PagePerformanceOptimizer.

(** The test of [cleanupExpiredCache] on what it has read:
    [cacheData && cacheData.timestamp] and
    [now - cacheData.timestamp > cacheData.expireTime].  A value of another
    module has no [timestamp]. *)
Definition is_expired (now : Z) (cacheData : Stored) : bool :=
  match cacheData with
  | SEntry cd => negb (timestamp cd =? 0) && (now - timestamp cd >? expireTime cd)
  | SOther _ | STouched _ _ _ => false
  end.

(** The loop of [cleanupExpiredCache] over the keys of the cache, with the
    count it logs; a key whose read or removal throws is removed in the
    [catch]. *)
Fixpoint cleanup_loop (now : Z) (keys : list string) (s : WxStorage)
    (cleanedCount : Z) : option (WxStorage * Z) :=
  match keys with
  | [] => Some (s, cleanedCount)
  | key :: keys' =>
      let in_catch :=
        match removeStorageSync key s with
        | Some s' => cleanup_loop now keys' s' (cleanedCount + 1)
        | None => None
        end in
      match getStorageSync key s with
      | Some cacheData =>
          if is_expired now cacheData then
            match removeStorageSync key s with
            | Some s' => cleanup_loop now keys' s' (cleanedCount + 1)
            | None => in_catch
            end
          else cleanup_loop now keys' s cleanedCount
      | None => in_catch
      end
  end.

(** [cleanupExpiredCache()] at time [now]: the storage it leaves and the
    count it logs. *)
Definition cleanupExpiredCache (now : Z) (s : WxStorage) : WxStorage * Z :=
  match getStorageInfoSync s with
  | None => (s, 0)
  | Some info =>
      let cacheKeys := List.filter CacheManager.is_cache_key (info_keys info) in
      match cleanup_loop now cacheKeys s 0 with
      | Some r => r
      | None => (s, 0)
      end
  end.

End PagePerformanceOptimizer.

(** ** [throttle] and [debounce] ([utils/util.js]) *)

(** One call, at time [now], of the function that [throttle(func, delay)]
    returns; [lastTime] is the variable of the closure.  The call runs
    [func] or drops it. *)
Definition throttle (delay now lastTime : Z) : bool * Z :=
  if now - lastTime >=? delay then (true, now) else (false, lastTime).

(** The times, out of the given times of call, at which a throttled
    function runs [func]; the closure starts with [lastTime = 0]. *)
Fixpoint throttle_runs (delay : Z) (times : list Z) (lastTime : Z) : list Z :=
  match times with
  | [] => []
  | now :: times' =>
      let '(ran, lastTime') := throttle delay now lastTime in
      if ran then now :: throttle_runs delay times' lastTime'
      else throttle_runs delay times' lastTime'
  end.

Section Debounce.
Context {Args : Type}.

(** The timer that the closure of [debounce(func, delay)] holds in
    [timeoutId]: when it is due and the arguments it will pass. *)
Definition Timer : Type := option (Z * Args).

(** The event loop reaches time [now]: a timer that is due runs [func]. *)
Definition timer_fires (now : Z) (pending : Timer) : list (Z * Args) * Timer :=
  match pending with
  | Some (due, args) => if due <=? now then ([(due, args)], None) else ([], pending)
  | None => ([], None)
  end.

(** One call of the debounced function at time [now]: [clearTimeout] and a
    new [setTimeout] of [delay] milliseconds. *)
Definition debounce (delay now : Z) (args : Args) (pending : Timer) : Timer :=
  Some (now + Z.max 0 delay, args).

(** The runs of [func], with their times, for calls made at the given
    times and an event loop that is watched until [horizon]. *)
Fixpoint debounce_runs (delay : Z) (calls : list (Z * Args)) (horizon : Z)
    (pending : Timer) : list (Z * Args) :=
  match calls with
  | [] => fst (timer_fires horizon pending)
  | (now, args) :: calls' =>
      let '(ran, pending') := timer_fires now pending in
      (ran ++ debounce_runs delay calls' horizon (debounce delay now args pending'))%list
  end.
End Debounce.

(** ** SystemPerformanceDiagnostic: the page diagnosis *)

Module SystemPerformanceDiagnostic.

Inductive Status : Type := good | warning | critical.

(** The recommendations of the page diagnosis: to optimise a long response
    time, and to optimise at once after a severe timeout. *)
Inductive Recommendation : Type := OptimizeResponseTime | OptimizeImmediately.

(** The result of [diagnosePagePerformance()]; its category is fixed. *)
Record Diagnosis : Type := {
  status : Status;
  details_averageTime : Double.Rounded;
  details_totalOperations : Z;
  details_slowOperations : nat;
  score : Z;
  recommendations : list Recommendation
}.

(** [diagnosePagePerformance()]; [getStats()] does not throw. *)
Definition diagnosePagePerformance (m : PerformanceMonitor.t) : Diagnosis :=
  let performanceStats := PerformanceMonitor.getStats m in
  let avgTime :=
    Double.or_zero
      (PerformanceMonitor.averageTime
         (PerformanceMonitor.report_stats performanceStats)) in
  let '(st, sc, recs) :=
    if Double.gtb avgTime (Double.of_Z 3000) then (warning, 60, [OptimizeResponseTime])
    else if Double.gtb avgTime (Double.of_Z 5000)
    then (critical, 30, [OptimizeImmediately])
    else (good, 90, []) in
  {| status := st;
     details_averageTime := Double.Math_round avgTime;
     details_totalOperations :=
       PerformanceMonitor.totalOperations
         (PerformanceMonitor.report_stats performanceStats);
     details_slowOperations :=
       List.length (PerformanceMonitor.slowOperations
                      (PerformanceMonitor.report_stats performanceStats));
     score := sc;
     recommendations := recs |}.

End SystemPerformanceDiagnostic.

(** ** Runs of the monitor *)

(** A call of the monitor. *)
Inductive MonitorCall : Type :=
| CallStart (name : string) (meta : JsVal)
| CallEnd (name : string)
| CallClear.

(** One call of the monitor at time [now]. *)
Definition monitor_call (now : Z) (mem : JsVal) (c : MonitorCall)
    (m : PerformanceMonitor.t) : PerformanceMonitor.t :=
  match c with
  | CallStart name meta => PerformanceMonitor.start now mem name meta m
  | CallEnd name => snd (PerformanceMonitor.end_ now mem name m)
  | CallClear => PerformanceMonitor.clear m
  end.

(** Calls of the monitor, each with the time at which it is made. *)
Definition monitor_calls (mem : JsVal) (cs : list (Z * MonitorCall))
    (m : PerformanceMonitor.t) : PerformanceMonitor.t :=
  List.fold_left (fun m tc => monitor_call (fst tc) mem (snd tc) m) cs m.

(** * Vocabulary of the properties *)

(** Removing a list of keys one after the other. *)
Definition remove_keys (keys : list string) (l : list (string * Stored))
  : list (string * Stored) :=
  List.fold_left (fun acc k => alist_remove k acc) keys l.

(** No key of the cache is left in a list of stored items. *)
Definition no_cache_entries (l : list (string * Stored)) : Prop :=
  forall kv, In kv l -> CacheManager.is_cache_key (fst kv) = false.

(** What a hit on an entry returns. *)
Definition payload `{Engine} (cd : CacheData) : JsVal :=
  if compressed cd then CacheManager.decompressData (data cd) else data cd.

(** The entry stored under a key of the cache, if any. *)
Definition entry_at (key : string) (c : CacheManager.t) : option Stored :=
  alist_get (CacheManager.PREFIX +:+ key) (items (CacheManager.storage c)).

(** The breaker of a name, as [updateCircuitBreaker] sees it: a name without
    a breaker gets a new one. *)
Definition breaker_of (w : World) (name : string) : Breaker :=
  default new_breaker (circuitBreaker w !! name).

(** The cool-down of a breaker is over at time [t]. *)
Definition cooled_down (t : Z) (b : Breaker) : bool :=
  t - lastFailTime b >? cooldownTime b.

(** A breaker after one more failure at time [t]. *)
Definition bump (t : Z) (b : Breaker) : Breaker :=
  {| failureCount := failureCount b + 1;
     lastFailTime := t;
     state := if failureCount b + 1 >=? threshold b then open else state b;
     threshold := threshold b;
     cooldownTime := cooldownTime b |}.

(** A breaker after a success. *)
Definition reset (b : Breaker) : Breaker :=
  {| failureCount := 0; lastFailTime := lastFailTime b; state := closed;
     threshold := threshold b; cooldownTime := cooldownTime b |}.

(** An open breaker after it has been read past its cool-down. *)
Definition half_opened (b : Breaker) : Breaker :=
  {| failureCount := failureCount b; lastFailTime := lastFailTime b;
     state := half_open; threshold := threshold b;
     cooldownTime := cooldownTime b |}.

(** The breaker rejects a call made at time [t]. *)
Definition rejects (t : Z) (b : Breaker) : bool :=
  match state b with
  | open => negb (cooled_down t b)
  | _ => false
  end.

(** The breaker as the check leaves it. *)
Definition checked (t : Z) (b : Breaker) : Breaker :=
  match state b with
  | open => if cooled_down t b then half_opened b else b
  | _ => b
  end.

Ltac wsimpl :=
  unfold updateCircuitBreaker, recordAPIMetrics, with_monitor, with_cache,
    with_now, with_apiMetrics, with_circuitBreaker in *;
  cbn [now memInfo cache monitor apiMetrics circuitBreaker
       outcome calls delays after fst snd] in *.

(** The call ended in an error. *)
Definition failed (r : Attempted) : Prop := exists e, outcome r = inr e.

(** An invocation for [name] that uses the breaker. *)
Definition guarded (name : string) (c : Invocation) : Prop :=
  inv_name c = name /\ circuitBreakerEnabled (inv_options c) = true.

(** A stored value that [get] can hand out as a truthy result. *)
Definition servable `{Engine} (v : Stored) : bool :=
  match v with
  | SEntry cd => truthy (payload cd)
  | SOther _ | STouched _ _ _ => false
  end.

(** Neither the storage nor a pending write-back holds a servable value
    under the key. *)
Definition nothing_to_serve `{Engine} (key : string) (c : CacheManager.t) : Prop :=
  (forall v, entry_at key c = Some v -> servable v = false) /\
  (forall v, In (CacheManager.PREFIX +:+ key, v) (CacheManager.deferred c) ->
             servable v = false).

(** The operation settles before a timer of [timeout] milliseconds that was
    set before it was called: it is settled at once, or it takes less than
    [timeout]. *)
Definition beats_timer (s : Settle) (timeout : Z) : bool :=
  match s with
  | Resolves _ ms | Rejects _ ms => (ms <=? 0) || (ms <? timeout)
  | Never => false
  end.

(** What an attempt comes to: the result or the rejection of the operation
    when it settles first, the time-out otherwise. *)
Definition won (s : Settle) (timeout : Z) : JsVal + Thrown :=
  match s with
  | Resolves v _ => if beats_timer s timeout then inl v else inr TimeoutError
  | Rejects msg _ =>
      if beats_timer s timeout then inr (OperationError msg) else inr TimeoutError
  | Never => inr TimeoutError
  end.

(** The time an attempt takes: that of the operation when it settles first,
    [timeout] otherwise. *)
Definition spent (s : Settle) (timeout : Z) : Z :=
  match s with
  | Resolves _ ms | Rejects _ ms =>
      if beats_timer s timeout then Z.max 0 ms else Z.max 0 timeout
  | Never => Z.max 0 timeout
  end.

Definition sum_Z (l : list Z) : Z := List.fold_right Z.add 0 l.

(** The first attempt of the invocation's operation wins its race with a
    falsy value. *)
Definition falsy_result (c : Invocation) : Prop :=
  exists v, fst (race (inv_function c 0%nat) (timeout (inv_options c))) = inl v /\
            truthy v = false.

(** The number of [set] calls that the cache has counted. *)
Definition cache_sets (w : World) : Z :=
  CacheManager.sets (CacheManager.stats (cache w)).

(** The call returned a truthy value. *)
Definition truthy_outcome (r : Attempted) : bool :=
  match outcome r with
  | inl v => truthy v
  | inr _ => false
  end.

(** A measurement of [d] milliseconds that starts at [t0]: [start] followed
    by the matching [end]. *)
Definition timed (name : string) (t0 d : Z) (m : PerformanceMonitor.t)
  : Z * PerformanceMonitor.t :=
  PerformanceMonitor.end_ (t0 + d) JUndefined name
    (PerformanceMonitor.start t0 JUndefined name (JObj "{}") m).

(** [(avg * (n - 1) + d) / n] as the code evaluates it: every operation
    gives the nearest double. *)
Definition running_average (avg : Double.t) (n d : Z) : Double.t :=
  Double.div (Double.add (Double.mul avg (Double.of_Z (n - 1))) (Double.of_Z d))
    (Double.of_Z n).

(** The weight of a priority: 1 for low, 3 for high, 2 for normal and for
    any other. *)
Definition weight (p : string) : Z :=
  if String.eqb p "low" then 1 else if String.eqb p "high" then 3 else 2.

(** The rank of a stored value in the eviction: the weight of its priority
    and its access count.  A value without these fields counts as normal
    and never read. *)
Definition rank (v : Stored) : Z * Z :=
  match v with
  | SEntry cd => (weight (priority cd), accessCount cd)
  | SOther _ => (2, 0)
  | STouched _ count _ => (2, count)
  end.

(** The order of the eviction: lower weight first, then fewer accesses. *)
Definition rank_le (a b : Z * Z) : Prop :=
  fst a < fst b \/ (fst a = fst b /\ snd a <= snd b).

(** The difference that the comparator returns for two ranks. *)
Definition lex (a b : Z * Z) : Z :=
  if negb (fst a =? fst b) then fst a - fst b else snd a - snd b.

Definition item_rank (it : CacheManager.Item) : Z * Z :=
  (weight (CacheManager.item_priority it), CacheManager.item_accessCount it).

(** The priority of the item is no name of [Object.prototype]. *)
Definition plain (it : CacheManager.Item) : Prop :=
  ~ In (CacheManager.item_priority it) CacheManager.inherited.

(** No entry under a key of the cache has a priority that is a name of
    [Object.prototype]. *)
Definition plain_priorities (s : WxStorage) : Prop :=
  forall key cd,
    CacheManager.is_cache_key key = true ->
    alist_get key (items s) = Some (SEntry cd) ->
    ~ In (priority cd) CacheManager.inherited.

(** What [getStorageSync] reads for a key of a working storage. *)
Definition read (s : WxStorage) (key : string) : Stored :=
  default (SOther (JStr "")) (alist_get key (items s)).

(** The items that [cleanupByPriority] collects from a list of keys. *)
Definition collected (s : WxStorage) (keys : list string) : list CacheManager.Item :=
  List.flat_map
    (fun key => if stored_truthy (read s key)
                then [CacheManager.item_of key (read s key)] else [])
    keys.

(** The keys of the cache, in the order of the storage. *)
Definition cache_keys (s : WxStorage) : list string :=
  List.filter CacheManager.is_cache_key (List.map fst (items s)).

(** The keys of the cache that hold a truthy value: the entries that
    [cleanupByPriority] counts. *)
Definition live_keys (s : WxStorage) : list string :=
  List.filter (fun key => stored_truthy (read s key)) (cache_keys s).

(** ** States and operations of the examples *)

(** An engine whose JSON functions throw, so that [compressData] and
    [decompressData] return their argument, and whose sort leaves an array
    with an inconsistent comparator as it is. *)
Definition json_stub : Engine :=
  {| JSON_stringify := fun _ => None; JSON_parse := fun _ => None;
     sort_inconsistent := fun _ _ l => l;
     sort_inconsistent_perm := fun _ _ l => Permutation_refl l |}.

(** An uncompressed entry. *)
Definition entry (v : JsVal) (created ttl : Z) (prio : string) (count : Z)
  : CacheData :=
  {| data := v; timestamp := created; expireTime := ttl; compressed := false;
     priority := prio; accessCount := count; lastAccess := created |}.

(** A working cache over the given items, with all counters at zero. *)
Definition cache_of (l : list (string * Stored)) : CacheManager.t :=
  {| CacheManager.storage :=
       {| items := l; currentSize := 0; limitSize := 10240; faulty := false |};
     CacheManager.stats :=
       {| CacheManager.hits := 0; CacheManager.misses := 0;
          CacheManager.sets := 0; CacheManager.removes := 0 |};
     CacheManager.deferred := [] |}.

(** The world at time [t] with the given items and breakers. *)
Definition world_of (t : Z) (l : list (string * Stored))
    (breakers : gmap string Breaker) : World :=
  {| now := t; memInfo := JUndefined; cache := cache_of l;
     monitor := {| PerformanceMonitor.records := ∅;
                   PerformanceMonitor.stats := PerformanceMonitor.empty_stats |};
     apiMetrics := ∅; circuitBreaker := breakers |}.

(** A breaker that the fifth failure has opened at time [last]. *)
Definition tripped (last : Z) : Breaker :=
  {| failureCount := 5; lastFailTime := last; state := open;
     threshold := 5; cooldownTime := 60000 |}.

(** An operation that settles the same way at every call. *)
Definition always (s : Settle) : ApiFunction := fun _ => s.

(** An operation that is rejected twice and then yields a result. *)
Definition fails_twice : ApiFunction :=
  fun k => if (k <? 2)%nat then Rejects "busy" 10 else Resolves (JObj "recipe") 10.

(** An invocation with the default options. *)
Definition call (g : Z) (name : string) (f : ApiFunction) : Invocation :=
  {| gap := g; inv_name := name; inv_function := f; inv_options := default_options |}.

(** A valid entry under the key of API [Y] while the breaker of [Y] is open
    within its cool-down. *)
Definition world_Y : World :=
  world_of 1000
    [(CacheManager.PREFIX +:+ api_key "Y",
      SEntry (entry (JStr "cached") 0 300000 "normal" 0))]
    {["Y" := tripped 500]}.

(** An entry that is read exactly [ttl] milliseconds after it was written. *)
Definition boundary_cache : CacheManager.t :=
  cache_of [(CacheManager.PREFIX +:+ "k", SEntry (entry (JStr "v") 0 1000 "normal" 0))].

(** Ten entries of mixed priority and one value of another module. *)
Definition mixed_cache : CacheManager.t :=
  cache_of
    [(CacheManager.PREFIX +:+ "a", SEntry (entry (JNum 1) 0 1000 "high" 0));
     (CacheManager.PREFIX +:+ "b", SEntry (entry (JNum 2) 0 1000 "low" 7));
     ("user_settings", SOther (JObj "settings"));
     (CacheManager.PREFIX +:+ "c", SEntry (entry (JNum 3) 0 1000 "normal" 2));
     (CacheManager.PREFIX +:+ "d", SEntry (entry (JNum 4) 0 1000 "low" 1));
     (CacheManager.PREFIX +:+ "e", SEntry (entry (JNum 5) 0 1000 "normal" 0));
     (CacheManager.PREFIX +:+ "f", SEntry (entry (JNum 6) 0 1000 "high" 9));
     (CacheManager.PREFIX +:+ "g", SEntry (entry (JNum 7) 0 1000 "low" 3));
     (CacheManager.PREFIX +:+ "h", SEntry (entry (JNum 8) 0 1000 "normal" 5));
     (CacheManager.PREFIX +:+ "i", SEntry (entry (JNum 9) 0 1000 "high" 1));
     (CacheManager.PREFIX +:+ "j", SEntry (entry (JNum 10) 0 1000 "normal" 1))].

(** A world with nothing stored and no breaker. *)
Definition fresh_world : World := world_of 0 [] ∅.

(** Five invocations for [X] whose operation is rejected at every attempt. *)
Definition five_failures : list Invocation :=
  replicate 5 (call 0 "X" (always (Rejects "down" 10))).

(** The breaker of [Z] is open and its cool-down is over. *)
Definition world_Z : World := world_of 70000 [] {["Z" := tripped 500]}.

(** The default options without the breaker. *)
Definition without_breaker : Options :=
  {| timeout := 5000; retryCount := 3; cacheEnabled := true;
     circuitBreakerEnabled := false |}.

(** Invocations for [N] whose operation yields [null], [0], [false] and the
    empty string. *)
Definition falsy_calls : list Invocation :=
  [call 0 "N" (always (Resolves JNull 10));
   call 5 "N" (always (Resolves (JNum 0) 10));
   call 5 "N" (always (Resolves (JBool false) 0));
   call 5 "N" (always (Resolves (JStr "") 10))].

(** The record that [start("a")] opens at time 0, and the monitor that
    holds it. *)
Definition record_a : PerformanceMonitor.Rec :=
  {| PerformanceMonitor.startTime := 0; PerformanceMonitor.endTime := None;
     PerformanceMonitor.duration := None;
     PerformanceMonitor.metadata := JObj "{}";
     PerformanceMonitor.memoryUsage := JUndefined;
     PerformanceMonitor.endMemoryUsage := None |}.

Definition started_a : PerformanceMonitor.t :=
  PerformanceMonitor.start 0 JUndefined "a" (JObj "{}")
    {| PerformanceMonitor.records := ∅;
       PerformanceMonitor.stats := PerformanceMonitor.empty_stats |}.

(** ** Vocabulary of the further properties *)

(** What [set] writes under its key. *)
Definition written `{Engine} (now : Z) (d : JsVal) (expire : Z) (compress : bool)
    (prio : string) : CacheData :=
  {| data := if compress then CacheManager.compressData d else d;
     timestamp := now; expireTime := expire; compressed := compress;
     priority := prio; accessCount := 0; lastAccess := now |}.

(** An entry after a hit at time [now]: the write-back that [get]
    schedules. *)
Definition touched (now : Z) (cd : CacheData) : CacheData :=
  {| data := data cd; timestamp := timestamp cd; expireTime := expireTime cd;
     compressed := compressed cd; priority := priority cd;
     accessCount := accessCount cd + 1; lastAccess := now |}.

(** The key is a key of the cache whose value [cleanupExpiredCache] finds
    expired at time [now]. *)
Definition stale (now : Z) (s : WxStorage) (key : string) : bool :=
  CacheManager.is_cache_key key &&
  PagePerformanceOptimizer.is_expired now (read s key).

(** The bounds and thresholds that the lists of the monitor keep. *)
Definition monitor_lists_ok (st : PerformanceMonitor.Stats) : Prop :=
  (List.length (PerformanceMonitor.slowOperations st) <= 20)%nat /\
  (List.length (PerformanceMonitor.fastOperations st) <= 50)%nat /\
  Forall (fun o => PerformanceMonitor.op_duration o > 5000)
    (PerformanceMonitor.slowOperations st) /\
  Forall (fun o => PerformanceMonitor.op_duration o < 1000)
    (PerformanceMonitor.fastOperations st) /\
  0 <= PerformanceMonitor.totalOperations st.

(** The monitor with no records and no statistics. *)
Definition empty_monitor : PerformanceMonitor.t :=
  {| PerformanceMonitor.records := ∅;
     PerformanceMonitor.stats := PerformanceMonitor.empty_stats |}.

(** The world after [optimizeAPICall] has started its monitor record. *)
Definition started (name : string) (w : World) : World :=
  with_monitor (PerformanceMonitor.start (now w) (memInfo w) (api_key name)
                  (JObj "{}") (monitor w)) w.

(** The list of metrics of a name after one more metric, kept to the last
    hundred. *)
Definition pushed_metric (old : list Metric) (m : Metric) : list Metric :=
  let l := (old ++ [m])%list in
  if (100 <? List.length l)%nat then slice_last 100 l else l.

(** The metric that a call records when it ends. *)
Definition metric_of (w : World) (r : Attempted) : Metric :=
  {| responseTime := now (after r) - now w;
     success := match outcome r with inl _ => true | inr _ => false end;
     error := match outcome r with inl _ => None | inr e => Some e end;
     metric_timestamp := now (after r) |}.

(** The call was answered from the cache. *)
Definition cache_hit (r : Attempted) : bool :=
  match outcome r, calls r with
  | inl _, O => true
  | _, _ => false
  end.

(** What every breaker of the registry satisfies at time [t]: the constants
    of the code, a count that is not negative, a last failure that is not in
    the future, and a state that fits the count. *)
Definition breaker_ok (t : Z) (b : Breaker) : Prop :=
  threshold b = 5 /\ cooldownTime b = 60000 /\
  lastFailTime b <= t /\
  match state b with
  | closed => 0 <= failureCount b < 5
  | open | half_open => 5 <= failureCount b
  end.

Definition registry_ok (w : World) : Prop :=
  forall name b, circuitBreaker w !! name = Some b -> breaker_ok (now w) b.


(** The times of the list are at least [delay] apart, the first one from
    [last]. *)
Fixpoint spaced (delay last : Z) (l : list Z) : Prop :=
  match l with
  | [] => True
  | t :: l' => t - last >= delay /\ spaced delay t l'
  end.

(** Each call of the list comes before the timer of the call before it is
    due; [t] is the time of the call before the first one. *)
Fixpoint burst {Args : Type} (delay t : Z) (calls : list (Z * Args)) : Prop :=
  match calls with
  | [] => True
  | (t', _) :: calls' => t' < t + Z.max 0 delay /\ burst delay t' calls'
  end.

(** ** Further states of the examples *)

(** A cache whose storage calls throw. *)
Definition broken_cache : CacheManager.t :=
  {| CacheManager.storage :=
       {| items := [(CacheManager.PREFIX +:+ "k",
                     SEntry (entry (JStr "v") 0 1000 "normal" 0))];
          currentSize := 0; limitSize := 10240; faulty := true |};
     CacheManager.stats :=
       {| CacheManager.hits := 0; CacheManager.misses := 0;
          CacheManager.sets := 0; CacheManager.removes := 0 |};
     CacheManager.deferred := [] |}.

(** A storage with an entry written at time 1, an entry written at time
    5000, and a value of another module. *)
Definition aged_storage : WxStorage :=
  {| items := [(CacheManager.PREFIX +:+ "old",
                SEntry (entry (JNum 1) 1 1000 "normal" 0));
               ("user_settings", SOther (JObj "settings"));
               (CacheManager.PREFIX +:+ "new",
                SEntry (entry (JNum 2) 5000 1000 "normal" 0))];
     currentSize := 0; limitSize := 10240; faulty := false |}.

(** Three calls of a debounced function, less than 300 ms apart. *)
Definition keystrokes : list (Z * string) := [(100, "fo"); (350, "foo")].

(** * Properties *)

(** ** The storage as an association list *)

Lemma alist_get_remove_eq (k : string) (l : list (string * Stored)) :
  alist_get k (alist_remove k l) = None.
Proof.
  induction l as [|[k' v] l IH]; simpl; [reflexivity|].
  destruct (String.eqb k k') eqn:E; simpl; [exact IH|].
  rewrite E. exact IH.
Qed.

Lemma alist_get_remove_ne (k k0 : string) (l : list (string * Stored)) :
  k0 <> k -> alist_get k0 (alist_remove k l) = alist_get k0 l.
Proof.
  intros Hne. induction l as [|[k' v] l IH]; simpl; [reflexivity|].
  destruct (String.eqb k k') eqn:E; simpl.
  - apply String.eqb_eq in E. subst k'.
    destruct (String.eqb k0 k) eqn:E0; [apply String.eqb_eq in E0; congruence|].
    exact IH.
  - rewrite IH. reflexivity.
Qed.

Lemma in_alist_remove (k : string) (l : list (string * Stored)) (kv : string * Stored) :
  In kv (alist_remove k l) <-> In kv l /\ fst kv <> k.
Proof.
  unfold alist_remove. rewrite filter_In. split.
  - intros [Hin Hb]. split; [exact Hin|].
    intros E. rewrite E, String.eqb_refl in Hb. discriminate.
  - intros [Hin Hne]. split; [exact Hin|].
    destruct (String.eqb k (fst kv)) eqn:E; [|reflexivity].
    apply String.eqb_eq in E. congruence.
Qed.

Lemma in_remove_keys (keys : list string) (l : list (string * Stored))
    (kv : string * Stored) :
  In kv (remove_keys keys l) <-> In kv l /\ ~ In (fst kv) keys.
Proof.
  revert l. induction keys as [|k keys IH]; intros l; simpl.
  - tauto.
  - unfold remove_keys in *. simpl. rewrite IH, in_alist_remove.
    split.
    + intros [[Hin Hne] Hn]. split; [exact Hin|]. intros [E|Hk]; [congruence|tauto].
    + intros [Hin Hn]. repeat split; [exact Hin| |]; intros Hk; apply Hn; auto.
Qed.

Lemma fold_removeStorageSync (keys : list string) (s : WxStorage) :
  faulty s = false ->
  List.fold_left
    (fun (acc : option WxStorage) (key : string) =>
       match acc with
       | Some s0 => removeStorageSync key s0
       | None => None
       end) keys (Some s)
  = Some (with_items (remove_keys keys (items s)) s).
Proof.
  revert s. induction keys as [|k keys IH]; intros s Hf; simpl.
  - destruct s; reflexivity.
  - unfold removeStorageSync at 2. rewrite Hf.
    rewrite IH by exact Hf. reflexivity.
Qed.

Lemma clear_ok (c : CacheManager.t) :
  faulty (CacheManager.storage c) = false ->
  exists c',
    CacheManager.clear c = (true, c') /\
    faulty (CacheManager.storage c') = false /\
    (forall kv, In kv (items (CacheManager.storage c')) <->
                In kv (items (CacheManager.storage c)) /\
                CacheManager.is_cache_key (fst kv) = false).
Proof.
  intros Hf. unfold CacheManager.clear, getStorageInfoSync. rewrite Hf.
  cbn [info_keys]. rewrite fold_removeStorageSync by exact Hf.
  eexists. split; [reflexivity|]. split; [exact Hf|].
  intros kv. cbn. rewrite in_remove_keys, filter_In. split.
  - intros [Hin Hn]. split; [exact Hin|].
    destruct (CacheManager.is_cache_key (fst kv)) eqn:E; [|reflexivity].
    exfalso. apply Hn. split; [|reflexivity]. apply in_map. exact Hin.
  - intros [Hin Hk]. split; [exact Hin|]. intros [_ Hc]. congruence.
Qed.

(** C10.  On a working storage two consecutive [clear()] calls both return
    [true]; after each of them the storage holds no key of the cache, and
    the second call leaves the storage with the items the first one left. *)
Theorem clear_idempotent (c : CacheManager.t) :
  faulty (CacheManager.storage c) = false ->
  let r1 := CacheManager.clear c in
  let r2 := CacheManager.clear (snd r1) in
  fst r1 = true /\ fst r2 = true /\
  no_cache_entries (items (CacheManager.storage (snd r1))) /\
  no_cache_entries (items (CacheManager.storage (snd r2))) /\
  (forall kv, In kv (items (CacheManager.storage (snd r2))) <->
              In kv (items (CacheManager.storage (snd r1)))).
Proof.
  intros Hf r1 r2.
  destruct (clear_ok c Hf) as (c1 & E1 & Hf1 & H1).
  destruct (clear_ok c1 Hf1) as (c2 & E2 & Hf2 & H2).
  subst r2 r1. rewrite E1. cbn [fst snd]. rewrite E2. cbn [fst snd].
  repeat split; try reflexivity.
  - intros kv Hin. apply H1 in Hin. tauto.
  - intros kv Hin. apply H2 in Hin. tauto.
  - intros Hin. apply H2 in Hin. tauto.
  - intros Hin. apply H2. split; [exact Hin|]. apply H1 in Hin. tauto.
Qed.

(** ** Expiry of cache entries *)

Lemma get_expired `{Engine} (now : Z) (key : string) (cd : CacheData) (c : CacheManager.t) :
  faulty (CacheManager.storage c) = false ->
  entry_at key c = Some (SEntry cd) ->
  now - timestamp cd > expireTime cd ->
  let r := CacheManager.get now key c in
  fst r = JNull /\
  CacheManager.misses (CacheManager.stats (snd r))
    = CacheManager.misses (CacheManager.stats c) + 1 /\
  CacheManager.hits (CacheManager.stats (snd r))
    = CacheManager.hits (CacheManager.stats c) /\
  CacheManager.removes (CacheManager.stats (snd r))
    = CacheManager.removes (CacheManager.stats c) + 1 /\
  entry_at key (snd r) = None /\
  (forall k, k <> (CacheManager.PREFIX +:+ key) ->
     alist_get k (items (CacheManager.storage (snd r)))
     = alist_get k (items (CacheManager.storage c))).
Proof.
  intros Hf He Hexp r. subst r. unfold entry_at in *.
  unfold CacheManager.get, getStorageSync. rewrite Hf, He. cbn [stored_truthy negb].
  assert (Hgt : (now - timestamp cd >? expireTime cd) = true) by lia.
  rewrite Hgt. unfold CacheManager.remove, removeStorageSync. rewrite Hf.
  cbn. repeat split; try reflexivity.
  - apply alist_get_remove_eq.
  - intros k Hk. apply alist_get_remove_ne. exact Hk.
Qed.

Lemma get_fresh `{Engine} (now : Z) (key : string) (cd : CacheData) (c : CacheManager.t) :
  faulty (CacheManager.storage c) = false ->
  entry_at key c = Some (SEntry cd) ->
  now - timestamp cd <= expireTime cd ->
  let r := CacheManager.get now key c in
  fst r = payload cd /\
  CacheManager.hits (CacheManager.stats (snd r))
    = CacheManager.hits (CacheManager.stats c) + 1 /\
  CacheManager.misses (CacheManager.stats (snd r))
    = CacheManager.misses (CacheManager.stats c) /\
  CacheManager.storage (snd r) = CacheManager.storage c.
Proof.
  intros Hf He Hexp r. subst r. unfold entry_at in *.
  unfold CacheManager.get, getStorageSync. rewrite Hf, He. cbn [stored_truthy negb].
  assert (Hgt : (now - timestamp cd >? expireTime cd) = false) by lia.
  rewrite Hgt. cbn. repeat split; reflexivity.
Qed.

(** C6, as the code has it.  An entry is visible while
    [now - createdAt <= ttlMs]: such a [get] returns its payload and counts a
    hit.  A [get] made when [now] exceeds [createdAt + ttlMs] returns [null],
    counts a miss and removes the entry, and only that entry, from the
    storage. *)
Theorem cache_entry_expiry `{Engine} (now : Z) (key : string) (cd : CacheData)
    (c : CacheManager.t) :
  faulty (CacheManager.storage c) = false ->
  entry_at key c = Some (SEntry cd) ->
  let r := CacheManager.get now key c in
  (now - timestamp cd <= expireTime cd ->
     fst r = payload cd /\
     CacheManager.hits (CacheManager.stats (snd r))
       = CacheManager.hits (CacheManager.stats c) + 1 /\
     CacheManager.misses (CacheManager.stats (snd r))
       = CacheManager.misses (CacheManager.stats c) /\
     entry_at key (snd r) = Some (SEntry cd)) /\
  (now > timestamp cd + expireTime cd ->
     fst r = JNull /\
     CacheManager.misses (CacheManager.stats (snd r))
       = CacheManager.misses (CacheManager.stats c) + 1 /\
     CacheManager.hits (CacheManager.stats (snd r))
       = CacheManager.hits (CacheManager.stats c) /\
     entry_at key (snd r) = None /\
     (forall k, k <> (CacheManager.PREFIX +:+ key) ->
        alist_get k (items (CacheManager.storage (snd r)))
        = alist_get k (items (CacheManager.storage c)))).
Proof.
  intros Hf He r. split; intros Ht.
  - destruct (get_fresh now key cd c Hf He Ht) as (H1 & H2 & H3 & H4).
    fold r in H1, H2, H3, H4. repeat split; try assumption.
    unfold entry_at in *. rewrite H4. exact He.
  - assert (Ht' : now - timestamp cd > expireTime cd) by lia.
    destruct (get_expired now key cd c Hf He Ht') as (H1 & H2 & H3 & H4 & H5 & H6).
    fold r in H1, H2, H3, H4, H5, H6. repeat split; assumption.
Qed.

(** ** What the retry loop leaves alone *)

Lemma sleep_circuitBreaker (ms : Z) (w : World) :
  circuitBreaker (sleep ms w) = circuitBreaker w.
Proof. unfold sleep. destruct (ms <=? 0); reflexivity. Qed.

Lemma sleep_now (ms : Z) (w : World) : now (sleep ms w) = now w + Z.max 0 ms.
Proof. unfold sleep. destruct (ms <=? 0) eqn:E; cbn; lia. Qed.

Lemma sleep_faulty (ms : Z) (w : World) :
  faulty (CacheManager.storage (cache (sleep ms w)))
  = faulty (CacheManager.storage (cache w)).
Proof.
  unfold sleep. destruct (ms <=? 0); [reflexivity|]. cbn.
  generalize (CacheManager.storage (cache w)) as s.
  induction (CacheManager.deferred (cache w)) as [|kv l IH]; intros s; cbn.
  - reflexivity.
  - rewrite IH. unfold setStorageSync. destruct (faulty s) eqn:E; cbn; congruence.
Qed.

Lemma race_elapsed (s : Settle) (t : Z) : 0 <= snd (race s t).
Proof.
  destruct s; cbn; try destruct (settles_first _ _); cbn; lia.
Qed.

Lemma backoff_pos (i : nat) : 0 < backoff i.
Proof.
  unfold backoff. assert (0 < 2 ^ Z.of_nat i) by (apply Z.pow_pos_nonneg; lia). lia.
Qed.

Lemma attempt_from_circuitBreaker (f : ApiFunction) (t : Z) (remaining i : nat) (w : World) :
  circuitBreaker (after (attempt_from f t remaining i w)) = circuitBreaker w.
Proof.
  revert i w. induction remaining as [|n IH]; intros i w; cbn [attempt_from];
    destruct (race (f i) t) as [[v|e] ms]; cbn [after];
    rewrite ?IH, ?sleep_circuitBreaker; reflexivity.
Qed.

Lemma attempt_from_now (f : ApiFunction) (t : Z) (remaining i : nat) (w : World) :
  now w <= now (after (attempt_from f t remaining i w)).
Proof.
  revert i w. induction remaining as [|n IH]; intros i w; cbn [attempt_from];
    pose proof (race_elapsed (f i) t) as Hr;
    destruct (race (f i) t) as [[v|e] ms]; cbn [after snd] in *;
    try (rewrite sleep_now; lia).
  specialize (IH (S i) (sleep (backoff i) (sleep ms w))).
  rewrite !sleep_now in IH. pose proof (backoff_pos i). lia.
Qed.

Lemma attempt_from_faulty (f : ApiFunction) (t : Z) (remaining i : nat) (w : World) :
  faulty (CacheManager.storage (cache (after (attempt_from f t remaining i w))))
  = faulty (CacheManager.storage (cache w)).
Proof.
  revert i w. induction remaining as [|n IH]; intros i w; cbn [attempt_from];
    destruct (race (f i) t) as [[v|e] ms]; cbn [after];
    rewrite ?IH, ?sleep_faulty; reflexivity.
Qed.

(** ** The retry loop *)

(** The attempts made, the waits between them and the way the loop ends:
    every attempt but the last lost its race or was rejected, the last
    attempt's race is the outcome, and a failure is only reported after
    attempt [retryCount]. *)
Lemma attempt_from_spec (f : ApiFunction) (t : Z) (remaining i : nat) (w : World) :
  let r := attempt_from f t remaining i w in
  (1 <= calls r <= S remaining)%nat /\
  delays r = List.map backoff (List.seq i (calls r - 1)) /\
  outcome r = fst (race (f (i + calls r - 1)%nat) t) /\
  (forall j, (j < calls r - 1)%nat -> exists e, fst (race (f (i + j)%nat) t) = inr e) /\
  (forall e, outcome r = inr e -> calls r = S remaining).
Proof.
  revert i w. induction remaining as [|n IH]; intros i w; cbn [attempt_from].
  - destruct (race (f i) t) as [[v|e] ms] eqn:E; cbn;
      replace (i + 1 - 1)%nat with i by lia; rewrite E; cbn;
      repeat split; try lia; try reflexivity; intros; lia.
  - destruct (race (f i) t) as [[v|e] ms] eqn:E.
    + cbn. replace (i + 1 - 1)%nat with i by lia. rewrite E. cbn.
      repeat split; try lia; try reflexivity; try (intros; lia).
      intros e He. discriminate.
    + specialize (IH (S i) (sleep (backoff i) (sleep ms w))).
      cbn zeta in IH. destruct IH as (Hc & Hd & Ho & Hj & He).
      set (rest := attempt_from f t n (S i) (sleep (backoff i) (sleep ms w))) in *.
      cbn [calls delays outcome].
      repeat split.
      * lia.
      * lia.
      * rewrite Hd. replace (S (calls rest) - 1)%nat with (S (calls rest - 1)) by lia.
        reflexivity.
      * rewrite Ho. f_equal. f_equal. f_equal. lia.
      * intros j Hlt. destruct j as [|j].
        -- exists e. replace (i + 0)%nat with i by lia. rewrite E. reflexivity.
        -- destruct (Hj j) as [e' He']; [lia|]. exists e'.
           replace (i + S j)%nat with (S i + j)%nat by lia. exact He'.
      * intros e' He'. rewrite (He e' He'). reflexivity.
Qed.

(** ** The circuit breaker *)

Lemma isCircuitBreakerOpen_fst (name : string) (w : World) :
  fst (isCircuitBreakerOpen name w)
  = match circuitBreaker w !! name with
    | Some b => rejects (now w) b
    | None => false
    end.
Proof.
  unfold isCircuitBreakerOpen, rejects, cooled_down.
  destruct (circuitBreaker w !! name) as [b|]; [|reflexivity].
  destruct (state b); try reflexivity.
  destruct (now w - lastFailTime b >? cooldownTime b); reflexivity.
Qed.

Lemma isCircuitBreakerOpen_snd (name : string) (w : World) :
  snd (isCircuitBreakerOpen name w)
  = match circuitBreaker w !! name with
    | Some b => with_circuitBreaker (<[name := checked (now w) b]> (circuitBreaker w)) w
    | None => w
    end.
Proof.
  unfold isCircuitBreakerOpen, checked, cooled_down.
  destruct (circuitBreaker w !! name) as [b|] eqn:E; [|reflexivity].
  assert (Hid : with_circuitBreaker (<[name := b]> (circuitBreaker w)) w = w).
  { rewrite insert_id by exact E. destruct w; reflexivity. }
  destruct (state b); try (cbn; rewrite Hid; reflexivity).
  destruct (now w - lastFailTime b >? cooldownTime b); cbn; [reflexivity|].
  rewrite Hid. reflexivity.
Qed.

Lemma check_breaker_now `{Engine} (name : string) (o : Options) (w : World) :
  now (snd (check_breaker name o w)) = now w /\
  cache (snd (check_breaker name o w)) = cache w.
Proof.
  unfold check_breaker. destruct (circuitBreakerEnabled o); [|split; reflexivity].
  rewrite isCircuitBreakerOpen_snd.
  destruct (circuitBreaker w !! name); split; reflexivity.
Qed.

Lemma check_breaker_lookup `{Engine} (name : string) (o : Options) (w : World) :
  circuitBreaker (snd (check_breaker name o w)) !! name
  = (if circuitBreakerEnabled o then checked (now w) else id)
      <$> (circuitBreaker w !! name).
Proof.
  unfold check_breaker. destruct (circuitBreakerEnabled o).
  - rewrite isCircuitBreakerOpen_snd.
    destruct (circuitBreaker w !! name) as [b|] eqn:E; cbn.
    + rewrite lookup_insert_eq. reflexivity.
    + exact E.
  - cbn. destruct (circuitBreaker w !! name); reflexivity.
Qed.

Lemma catch_block_spec `{Engine} (name : string) (o : Options) (st : Z) (e : Thrown)
    (n : nat) (ds : list Z) (w : World) :
  let r := catch_block name o st e n ds w in
  outcome r = inr e /\ calls r = n /\ delays r = ds /\
  now (after r) = now w /\ cache (after r) = cache w /\
  circuitBreaker (after r)
  = if circuitBreakerEnabled o
    then <[name := bump (now w) (breaker_of w name)]> (circuitBreaker w)
    else circuitBreaker w.
Proof.
  unfold catch_block, breaker_of, bump.
  destruct (circuitBreakerEnabled o); wsimpl; repeat split; reflexivity.
Qed.

Lemma resetCircuitBreaker_lookup (name : string) (w : World) :
  circuitBreaker (resetCircuitBreaker name w) !! name
  = reset <$> (circuitBreaker w !! name).
Proof.
  unfold resetCircuitBreaker.
  destruct (circuitBreaker w !! name) as [b|] eqn:E; cbn.
  - rewrite lookup_insert_eq. reflexivity.
  - exact E.
Qed.

(** What [call_api] does to the breaker of its name: one more failure, or a
    reset. *)
Lemma call_api_breaker `{Engine} (name : string) (f : ApiFunction) (o : Options)
    (st : Z) (w : World) :
  let r := call_api name f o st w in
  (1 <= calls r)%nat /\
  match outcome r with
  | inr _ =>
      circuitBreaker (after r) !! name
      = if circuitBreakerEnabled o
        then Some (bump (now (after r)) (breaker_of w name))
        else circuitBreaker w !! name
  | inl _ =>
      circuitBreaker (after r) !! name = reset <$> (circuitBreaker w !! name)
  end.
Proof.
  unfold call_api, executeWithRetry.
  pose proof (attempt_from_circuitBreaker f (timeout o) (retryCount o) 0 w) as Hcb.
  pose proof (attempt_from_spec f (timeout o) (retryCount o) 0 w) as Hsp.
  cbn zeta in Hsp. destruct Hsp as ([Hc _] & _).
  destruct (attempt_from f (timeout o) (retryCount o) 0 w) as [[v|e] n ds w'] eqn:E;
    cbn [outcome calls delays after] in *.
  - split; [exact Hc|]. rewrite resetCircuitBreaker_lookup.
    destruct (cacheEnabled o && truthy v); wsimpl; rewrite Hcb; reflexivity.
  - pose proof (catch_block_spec name o st e n ds w') as Hcatch.
    cbn zeta in Hcatch. destruct Hcatch as (Ho & Hn & _ & Hnow & _ & Hb).
    rewrite Ho, Hn, Hb, Hnow. split; [exact Hc|].
    unfold breaker_of. rewrite Hcb.
    destruct (circuitBreakerEnabled o); [apply lookup_insert_eq|reflexivity].
Qed.

Lemma breaker_of_checked `{Engine} (name : string) (o : Options) (w : World) :
  breaker_of (snd (check_breaker name o w)) name
  = (if circuitBreakerEnabled o then checked (now w) else id) (breaker_of w name).
Proof.
  unfold breaker_of. rewrite check_breaker_lookup.
  destruct (circuitBreaker w !! name) as [b|]; cbn; [reflexivity|].
  destruct (circuitBreakerEnabled o); reflexivity.
Qed.

Lemma reset_checked (t : Z) (b : Breaker) : reset (checked t b) = reset b.
Proof.
  unfold checked. destruct (state b); try reflexivity.
  destruct (cooled_down t b); reflexivity.
Qed.

(** The breaker of the name after a call, by the way the call ended: a
    failure adds one to the count of the breaker that the check has left, a
    result of the operation resets it, and an answer from the cache leaves it
    as the check has left it. *)
Lemma optimizeAPICall_breaker `{Engine} (name : string) (f : ApiFunction) (o : Options)
    (w : World) :
  let r := optimizeAPICall name f o w in
  let chk := if circuitBreakerEnabled o then checked (now w) else id in
  circuitBreaker (after r) !! name
  = match outcome r with
    | inr _ =>
        if circuitBreakerEnabled o
        then Some (bump (now (after r)) (chk (breaker_of w name)))
        else circuitBreaker w !! name
    | inl _ =>
        if (calls r =? 0)%nat then chk <$> (circuitBreaker w !! name)
        else reset <$> (circuitBreaker w !! name)
    end.
Proof.
  intros r chk. subst r. unfold optimizeAPICall.
  set (w0 := with_monitor _ w).
  pose proof (check_breaker_lookup name o w0) as Hl.
  pose proof (breaker_of_checked name o w0) as Hbo.
  pose proof (check_breaker_now name o w0) as [Hnow Hcache].
  change (circuitBreaker w0) with (circuitBreaker w) in Hl.
  change (breaker_of w0 name) with (breaker_of w name) in Hbo.
  change (now w0) with (now w) in Hl, Hbo, Hnow.
  fold chk in Hl, Hbo.
  destruct (check_breaker name o w0) as [isOpen wb] eqn:Ecb. cbn [fst snd] in *.
  assert (Hen : circuitBreakerEnabled o = false -> isOpen = false).
  { intros Hen. unfold check_breaker in Ecb. rewrite Hen in Ecb. congruence. }
  assert (Hcall : forall wc, circuitBreaker wc = circuitBreaker wb ->
    let r := call_api name f o (now w) wc in
    circuitBreaker (after r) !! name
    = match outcome r with
      | inr _ =>
          if circuitBreakerEnabled o
          then Some (bump (now (after r)) (chk (breaker_of w name)))
          else circuitBreaker w !! name
      | inl _ =>
          if (calls r =? 0)%nat then chk <$> (circuitBreaker w !! name)
          else reset <$> (circuitBreaker w !! name)
      end).
  { intros wc Hwc r.
    pose proof (call_api_breaker name f o (now w) wc) as [Hc Hr]. fold r in Hc, Hr.
    assert (Eb : breaker_of wc name = chk (breaker_of w name)).
    { unfold breaker_of at 1. rewrite Hwc. exact Hbo. }
    rewrite Hwc, Hl, Eb in Hr.
    destruct (outcome r).
    - destruct (calls r) as [|n]; [lia|]. cbn [Nat.eqb]. rewrite Hr.
      destruct (circuitBreaker w !! name) as [b|]; cbn; [|reflexivity].
      subst chk. destruct (circuitBreakerEnabled o); cbn; [|reflexivity].
      rewrite reset_checked. reflexivity.
    - rewrite Hr. destruct (circuitBreakerEnabled o) eqn:Eo; [reflexivity|].
      subst chk. cbn. destruct (circuitBreaker w !! name); reflexivity. }
  destruct isOpen.
  - pose proof (catch_block_spec name o (now w) (CircuitOpenError name) O [] wb) as Hc.
    cbn zeta in Hc. destruct Hc as (Ho & _ & _ & Hn & _ & Hb).
    rewrite Ho, Hb, Hn, Hnow, Hbo.
    destruct (circuitBreakerEnabled o) eqn:Eo; [apply lookup_insert_eq|].
    specialize (Hen eq_refl). discriminate.
  - destruct (cacheEnabled o); [|apply Hcall; reflexivity].
    destruct (CacheManager.get (now wb) (api_key name) (cache wb)) as [v c].
    destruct (truthy v); [|apply Hcall; reflexivity].
    cbn. exact Hl.
Qed.

(** A call that the breaker rejects: the error is thrown before the cache is
    read or the operation called, and the rejection is counted as one more
    failure at the time of the call. *)
Lemma optimizeAPICall_rejected `{Engine} (name : string) (f : ApiFunction) (o : Options)
    (w : World) (b : Breaker) :
  circuitBreakerEnabled o = true ->
  circuitBreaker w !! name = Some b ->
  rejects (now w) b = true ->
  let r := optimizeAPICall name f o w in
  outcome r = inr (CircuitOpenError name) /\ calls r = O /\ delays r = [] /\
  now (after r) = now w /\ cache (after r) = cache w /\
  circuitBreaker (after r) = <[name := bump (now w) b]> (circuitBreaker w).
Proof.
  intros Hen Hb Hrej r. subst r. unfold optimizeAPICall.
  set (w0 := with_monitor _ w). unfold check_breaker. rewrite Hen.
  pose proof (isCircuitBreakerOpen_fst name w0) as Hf.
  pose proof (isCircuitBreakerOpen_snd name w0) as Hs.
  change (circuitBreaker w0) with (circuitBreaker w) in Hf, Hs.
  change (now w0) with (now w) in Hf, Hs.
  rewrite Hb in Hf, Hs. rewrite Hrej in Hf.
  destruct (isCircuitBreakerOpen name w0) as [isOpen wb]. cbn [fst snd] in *.
  subst isOpen wb.
  assert (Ec : checked (now w) b = b).
  { unfold checked, rejects in *. destruct (state b); try reflexivity.
    destruct (cooled_down (now w) b); [discriminate|reflexivity]. }
  rewrite Ec, insert_id by exact Hb.
  pose proof (catch_block_spec name o (now w) (CircuitOpenError name) O []
                (with_circuitBreaker (circuitBreaker w) w0)) as Hc.
  cbn zeta in Hc. destruct Hc as (Ho & Hn & Hd & Hnow & Hca & Hcb).
  rewrite Hen in Hcb.
  repeat split; try assumption.
  rewrite Hcb. unfold breaker_of. cbn [circuitBreaker with_circuitBreaker].
  rewrite Hb. reflexivity.
Qed.

Lemma race_not_circuit_open (s : Settle) (t : Z) (name : string) :
  fst (race s t) <> inr (CircuitOpenError name).
Proof.
  destruct s; cbn; try destruct (settles_first _ _); cbn; discriminate.
Qed.

Lemma attempt_from_not_circuit_open (f : ApiFunction) (t : Z) (remaining i : nat)
    (w : World) (name : string) :
  outcome (attempt_from f t remaining i w) <> inr (CircuitOpenError name).
Proof.
  pose proof (attempt_from_spec f t remaining i w) as Hs. cbn zeta in Hs.
  destruct Hs as (_ & _ & Ho & _). rewrite Ho. apply race_not_circuit_open.
Qed.

Lemma call_api_outcome `{Engine} (name : string) (f : ApiFunction) (o : Options)
    (st : Z) (w : World) :
  let r := call_api name f o st w in
  let a := executeWithRetry f (retryCount o) (timeout o) w in
  outcome r = outcome a /\ calls r = calls a /\ delays r = delays a.
Proof.
  unfold call_api.
  destruct (executeWithRetry f (retryCount o) (timeout o) w) as [[v|e] n ds w'];
    cbn [outcome calls delays after]; [repeat split; reflexivity|].
  pose proof (catch_block_spec name o st e n ds w') as Hc. cbn zeta in Hc.
  destruct Hc as (Ho & Hn & Hd & _). repeat split; assumption.
Qed.

(** A call that the breaker lets through is answered from the cache, with a
    truthy value and without a call of the operation, or runs the retry
    loop. *)
Lemma optimizeAPICall_let_through `{Engine} (name : string) (f : ApiFunction)
    (o : Options) (w : World) :
  fst (check_breaker name o w) = false ->
  let r := optimizeAPICall name f o w in
  (exists v, cacheEnabled o = true /\ outcome r = inl v /\ truthy v = true /\
             calls r = O /\ delays r = []) \/
  (exists wc, now wc = now w /\
     let a := executeWithRetry f (retryCount o) (timeout o) wc in
     outcome r = outcome a /\ calls r = calls a /\ delays r = delays a).
Proof.
  intros Hchk r. subst r. unfold optimizeAPICall.
  set (w0 := with_monitor _ w).
  assert (Hchk0 : fst (check_breaker name o w0) = false).
  { revert Hchk. unfold check_breaker. destruct (circuitBreakerEnabled o); [|auto].
    rewrite !isCircuitBreakerOpen_fst. auto. }
  pose proof (check_breaker_now name o w0) as [Hnow _].
  destruct (check_breaker name o w0) as [isOpen wb]. cbn [fst snd] in *.
  subst isOpen.
  destruct (cacheEnabled o) eqn:Ec.
  - destruct (CacheManager.get (now wb) (api_key name) (cache wb)) as [v c].
    destruct (truthy v) eqn:Et.
    + left. exists v. cbn. auto.
    + right. exists (with_cache c wb). split; [exact Hnow|].
      apply call_api_outcome.
  - right. exists wb. split; [exact Hnow|]. apply call_api_outcome.
Qed.

Lemma breaker_of_sleep (ms : Z) (w : World) (name : string) :
  breaker_of (sleep ms w) name = breaker_of w name.
Proof. unfold breaker_of. rewrite sleep_circuitBreaker. reflexivity. Qed.

Lemma checked_fields (t : Z) (b : Breaker) :
  failureCount (checked t b) = failureCount b /\
  threshold (checked t b) = threshold b /\
  cooldownTime (checked t b) = cooldownTime b /\
  lastFailTime (checked t b) = lastFailTime b.
Proof.
  unfold checked. destruct (state b); try (repeat split; reflexivity).
  destruct (cooled_down t b); repeat split; reflexivity.
Qed.

Lemma bump_open (t : Z) (b : Breaker) :
  threshold b <= failureCount b + 1 -> state (bump t b) = open.
Proof.
  intros Hle. unfold bump. cbn.
  destruct (failureCount b + 1 >=? threshold b) eqn:E; [reflexivity|lia].
Qed.

(** Every failed call that uses the breaker counts one more failure and
    stamps the breaker with the time of the failure. *)
Lemma failure_updates_breaker `{Engine} (name : string) (f : ApiFunction) (o : Options)
    (w : World) :
  circuitBreakerEnabled o = true ->
  let r := optimizeAPICall name f o w in
  failed r ->
  exists b',
    circuitBreaker (after r) !! name = Some b' /\
    failureCount b' = failureCount (breaker_of w name) + 1 /\
    lastFailTime b' = now (after r) /\
    threshold b' = threshold (breaker_of w name) /\
    cooldownTime b' = cooldownTime (breaker_of w name) /\
    (threshold b' <= failureCount b' -> state b' = open).
Proof.
  intros Hen r [e He].
  pose proof (optimizeAPICall_breaker name f o w) as Hb. cbn zeta in Hb.
  fold r in Hb. rewrite He, Hen in Hb.
  destruct (checked_fields (now w) (breaker_of w name)) as (Hfc & Hth & Hcd & _).
  eexists. split; [exact Hb|]. cbn [failureCount lastFailTime threshold cooldownTime bump].
  rewrite Hfc, Hth, Hcd. repeat split; try reflexivity.
  intros Hle. apply bump_open. rewrite Hfc, Hth. exact Hle.
Qed.

(** After a run of failed calls for a name the breaker has counted each of
    them. *)
Lemma failures_are_counted `{Engine} (name : string) (l : list Invocation) (w : World) :
  l <> [] ->
  Forall (guarded name) l ->
  Forall failed (fst (invoke_all l w)) ->
  exists b',
    circuitBreaker (snd (invoke_all l w)) !! name = Some b' /\
    failureCount b' = failureCount (breaker_of w name) + Z.of_nat (List.length l) /\
    lastFailTime b' = now (snd (invoke_all l w)) /\
    threshold b' = threshold (breaker_of w name) /\
    cooldownTime b' = cooldownTime (breaker_of w name) /\
    (threshold b' <= failureCount b' -> state b' = open).
Proof.
  revert w. induction l as [|c l IH]; intros w Hne Hg Hf; [congruence|].
  cbn [invoke_all] in *.
  destruct (invoke_all l (after (invoke c w))) as [rs w'] eqn:E.
  cbn [fst snd] in *.
  apply Forall_cons_iff in Hg as [[Hname Hen] Hg].
  apply Forall_cons_iff in Hf as [Hf1 Hf].
  unfold invoke in *. rewrite Hname in *.
  destruct (failure_updates_breaker name (inv_function c) (inv_options c)
              (sleep (gap c) w) Hen Hf1) as (b1 & Hb1 & Hfc & Hlt & Hth & Hcd & Hst).
  rewrite breaker_of_sleep in Hfc, Hth, Hcd.
  destruct l as [|c2 l2].
  - cbn in E. injection E as <- <-. exists b1.
    cbn [List.length]. repeat split; try assumption; lia.
  - specialize (IH (after (optimizeAPICall name (inv_function c) (inv_options c)
                             (sleep (gap c) w)))).
    rewrite E in IH. cbn [fst snd] in IH.
    destruct IH as (b' & Hb' & Hfc' & Hlt' & Hth' & Hcd' & Hst');
      [discriminate|exact Hg|exact Hf|].
    unfold breaker_of in Hfc', Hth', Hcd'. rewrite Hb1 in Hfc', Hth', Hcd'.
    simpl in Hfc', Hth', Hcd'.
    exists b'. split; [exact Hb'|]. split.
    { rewrite Hfc', Hfc. cbn [List.length]. lia. }
    split; [exact Hlt'|]. split; [congruence|]. split; [congruence|exact Hst'].
Qed.

(** C2.  With the threshold of 5 and the cool-down of 60000 ms of the code,
    after five consecutive failed invocations for a name the next invocation
    for that name, made no later than the cool-down after the fifth failure,
    throws the breaker's error without a call of the operation, whatever the
    operation would have done. *)
Theorem breaker_trips_after_five_failures `{Engine} (name : string)
    (l : list Invocation) (c6 : Invocation) (w : World) :
  threshold (breaker_of w name) = 5 ->
  cooldownTime (breaker_of w name) = 60000 ->
  0 <= failureCount (breaker_of w name) ->
  List.length l = 5%nat ->
  Forall (guarded name) l ->
  Forall failed (fst (invoke_all l w)) ->
  guarded name c6 ->
  gap c6 <= 60000 ->
  let r := invoke c6 (snd (invoke_all l w)) in
  outcome r = inr (CircuitOpenError name) /\ calls r = O.
Proof.
  intros Hth Hcd Hfc Hlen Hg Hf [Hname Hen] Hgap r. subst r.
  destruct (failures_are_counted name l w) as (b & Hb & Hfc' & Hlt & Hth' & Hcd' & Hst);
    [intros ->; discriminate|exact Hg|exact Hf|].
  set (w5 := snd (invoke_all l w)) in *.
  assert (Hopen : state b = open) by (apply Hst; lia).
  unfold invoke. rewrite Hname.
  destruct (optimizeAPICall_rejected name (inv_function c6) (inv_options c6)
              (sleep (gap c6) w5) b) as (Ho & Hc & _); try assumption.
  - rewrite sleep_circuitBreaker. exact Hb.
  - unfold rejects, cooled_down. rewrite Hopen, sleep_now, Hlt.
    apply negb_true_iff. lia.
  - split; assumption.
Qed.

Lemma check_breaker_fst `{Engine} (name : string) (o : Options) (w : World) :
  fst (check_breaker name o w)
  = circuitBreakerEnabled o &&
    match circuitBreaker w !! name with
    | Some b => rejects (now w) b
    | None => false
    end.
Proof.
  unfold check_breaker. destruct (circuitBreakerEnabled o); [|reflexivity].
  apply isCircuitBreakerOpen_fst.
Qed.

Lemma let_through_not_circuit_open `{Engine} (name : string) (f : ApiFunction)
    (o : Options) (w : World) :
  fst (check_breaker name o w) = false ->
  outcome (optimizeAPICall name f o w) <> inr (CircuitOpenError name).
Proof.
  intros Hchk.
  destruct (optimizeAPICall_let_through name f o w Hchk)
    as [(v & _ & Ho & _)|(wc & _ & Ho & _)]; rewrite Ho; [discriminate|].
  apply attempt_from_not_circuit_open.
Qed.

(** C3.  A call that finds the breaker open more than [cooldownTime]
    milliseconds after the last failure is let through with the breaker
    half-open.  When the operation is run and yields a result the breaker is
    closed with a failure count of zero; when the call fails the breaker is
    open again and its cool-down runs from the time of that failure. *)
Theorem half_open_recovery `{Engine} (name : string) (f : ApiFunction) (o : Options)
    (w : World) (b : Breaker) :
  circuitBreakerEnabled o = true ->
  circuitBreaker w !! name = Some b ->
  state b = open ->
  threshold b <= failureCount b ->
  now w - lastFailTime b > cooldownTime b ->
  let r := optimizeAPICall name f o w in
  fst (isCircuitBreakerOpen name w) = false /\
  circuitBreaker (snd (isCircuitBreakerOpen name w)) !! name = Some (half_opened b) /\
  outcome r <> inr (CircuitOpenError name) /\
  (forall v, outcome r = inl v -> calls r <> O ->
     exists b', circuitBreaker (after r) !! name = Some b' /\
                state b' = closed /\ failureCount b' = 0) /\
  (forall e, outcome r = inr e ->
     exists b', circuitBreaker (after r) !! name = Some b' /\
                state b' = open /\
                failureCount b' = failureCount b + 1 /\
                lastFailTime b' = now (after r) /\
                cooldownTime b' = cooldownTime b /\
                forall t, t - now (after r) <= cooldownTime b -> rejects t b' = true).
Proof.
  intros Hen Hb Hs Hth Ht r.
  assert (Hcool : cooled_down (now w) b = true) by (unfold cooled_down; lia).
  assert (Hchecked : checked (now w) b = half_opened b).
  { unfold checked. rewrite Hs, Hcool. reflexivity. }
  assert (Hfst : fst (isCircuitBreakerOpen name w) = false).
  { rewrite isCircuitBreakerOpen_fst, Hb. unfold rejects. rewrite Hs, Hcool.
    reflexivity. }
  pose proof (optimizeAPICall_breaker name f o w) as Hbr. cbn zeta in Hbr.
  fold r in Hbr. rewrite Hen in Hbr. unfold breaker_of in Hbr. rewrite Hb in Hbr.
  simpl in Hbr. rewrite Hchecked in Hbr.
  split; [exact Hfst|]. split.
  { rewrite isCircuitBreakerOpen_snd, Hb. cbn. rewrite lookup_insert_eq.
    rewrite Hchecked. reflexivity. }
  split.
  { apply let_through_not_circuit_open. rewrite check_breaker_fst, Hb.
    unfold rejects. rewrite Hs, Hcool. apply andb_false_r. }
  split.
  - intros v Hv Hc. rewrite Hv in Hbr.
    destruct (calls r) as [|n]; [congruence|]. cbn in Hbr.
    eexists. split; [exact Hbr|]. split; reflexivity.
  - intros e He. rewrite He in Hbr.
    eexists. split; [exact Hbr|].
    assert (Hopen : state (bump (now (after r)) (half_opened b)) = open).
    { apply bump_open. cbn. lia. }
    split; [exact Hopen|]. repeat split.
    intros t Hle. unfold rejects. rewrite Hopen. unfold cooled_down. cbn.
    apply negb_true_iff. lia.
Qed.

(** C4.  Every failed call that uses the breaker goes through
    [updateCircuitBreaker]: the failure count grows by one and the last
    failure time becomes the time of the failure.  That includes the call
    that an open breaker rejects during its cool-down, which leaves the
    breaker open with the cool-down running from the time of the rejection;
    so an open breaker only lets a call through when more than a cool-down
    has passed since the last failed call. *)
Theorem rejection_restarts_cooldown `{Engine} (name : string) (f : ApiFunction)
    (o : Options) (w : World) :
  circuitBreakerEnabled o = true ->
  let r := optimizeAPICall name f o w in
  (failed r ->
     exists b', circuitBreaker (after r) !! name = Some b' /\
                failureCount b' = failureCount (breaker_of w name) + 1 /\
                lastFailTime b' = now (after r)) /\
  (forall b, circuitBreaker w !! name = Some b -> state b = open ->
     now w - lastFailTime b <= cooldownTime b ->
     outcome r = inr (CircuitOpenError name) /\ calls r = O /\
     now (after r) = now w /\
     circuitBreaker (after r) !! name
     = Some {| failureCount := failureCount b + 1; lastFailTime := now w;
               state := open; threshold := threshold b;
               cooldownTime := cooldownTime b |}) /\
  (forall b, circuitBreaker w !! name = Some b -> state b = open ->
     outcome r <> inr (CircuitOpenError name) ->
     now w - lastFailTime b > cooldownTime b).
Proof.
  intros Hen r.
  assert (Hrej : forall b, circuitBreaker w !! name = Some b -> state b = open ->
     now w - lastFailTime b <= cooldownTime b ->
     outcome r = inr (CircuitOpenError name) /\ calls r = O /\
     now (after r) = now w /\
     circuitBreaker (after r) !! name
     = Some {| failureCount := failureCount b + 1; lastFailTime := now w;
               state := open; threshold := threshold b;
               cooldownTime := cooldownTime b |}).
  { intros b Hb Hs Ht.
    destruct (optimizeAPICall_rejected name f o w b Hen Hb) as (Ho & Hc & _ & Hn & _ & Hcb).
    - unfold rejects, cooled_down. rewrite Hs. apply negb_true_iff. lia.
    - fold r in Ho, Hc, Hn, Hcb. repeat split; try assumption.
      rewrite Hcb, lookup_insert_eq. unfold bump. rewrite Hs.
      destruct (failureCount b + 1 >=? threshold b); reflexivity. }
  split; [|split].
  - intros Hf.
    destruct (failure_updates_breaker name f o w Hen Hf) as (b' & Hb' & Hfc & Hlt & _).
    exists b'. repeat split; assumption.
  - exact Hrej.
  - intros b Hb Hs Hno.
    destruct (Z_le_gt_dec (now w - lastFailTime b) (cooldownTime b)) as [Hle|Hgt];
      [|exact Hgt].
    destruct (Hrej b Hb Hs Hle) as (Ho & _). contradiction.
Qed.

(** X21.  Calls that keep arriving within a cool-down of each other are all
    rejected: the breaker stays open however long that goes on, and none of
    the calls reaches its operation. *)
Lemma rejections_keep_breaker_open `{Engine} (name : string) (l : list Invocation)
    (w : World) (b : Breaker) :
  circuitBreaker w !! name = Some b ->
  state b = open ->
  lastFailTime b = now w ->
  0 <= cooldownTime b ->
  Forall (fun c => guarded name c /\ gap c <= cooldownTime b) l ->
  Forall (fun r => outcome r = inr (CircuitOpenError name) /\ calls r = O)
    (fst (invoke_all l w)) /\
  exists b',
    circuitBreaker (snd (invoke_all l w)) !! name = Some b' /\
    state b' = open /\
    failureCount b' = failureCount b + Z.of_nat (List.length l) /\
    lastFailTime b' = now (snd (invoke_all l w)) /\
    cooldownTime b' = cooldownTime b.
Proof.
  revert w b. induction l as [|c l IH]; intros w b Hb Hs Hlt Hcd Hall.
  - cbn. split; [constructor|]. exists b. repeat split; try assumption. lia.
  - apply Forall_cons_iff in Hall as [[[Hname Hen] Hgap] Hall].
    cbn [invoke_all]. unfold invoke. rewrite Hname.
    destruct (optimizeAPICall_rejected name (inv_function c) (inv_options c)
                (sleep (gap c) w) b Hen) as (Ho & Hc & _ & Hn & _ & Hcb).
    { rewrite sleep_circuitBreaker. exact Hb. }
    { unfold rejects, cooled_down. rewrite Hs, sleep_now.
      apply negb_true_iff. lia. }
    set (r := optimizeAPICall name (inv_function c) (inv_options c) (sleep (gap c) w)) in *.
    assert (Hb1 : circuitBreaker (after r) !! name
                  = Some (bump (now (sleep (gap c) w)) b)).
    { rewrite Hcb. apply lookup_insert_eq. }
    assert (Hs1 : state (bump (now (sleep (gap c) w)) b) = open).
    { unfold bump. cbn. rewrite Hs.
      destruct (failureCount b + 1 >=? threshold b); reflexivity. }
    specialize (IH (after r) _ Hb1 Hs1 (eq_sym Hn) Hcd Hall).
    destruct (invoke_all l (after r)) as [rs w'] eqn:E. cbn [fst snd] in *.
    destruct IH as (Hrs & b' & Hb' & Hs' & Hfc' & Hlt' & Hcd').
    split; [constructor; [split; assumption|exact Hrs]|].
    exists b'. split; [exact Hb'|]. split; [exact Hs'|]. split.
    { rewrite Hfc'. unfold bump. cbn [failureCount]. rewrite length_cons. lia. }
    split; [exact Hlt'|exact Hcd'].
Qed.

(** ** The cache in front of the operation *)

Lemma check_breaker_started `{Engine} (name : string) (o : Options) (w : World)
    (m : PerformanceMonitor.t) :
  fst (check_breaker name o (with_monitor m w)) = fst (check_breaker name o w) /\
  now (snd (check_breaker name o (with_monitor m w))) = now w /\
  cache (snd (check_breaker name o (with_monitor m w))) = cache w /\
  (circuitBreakerEnabled o = false ->
   circuitBreaker (snd (check_breaker name o (with_monitor m w))) = circuitBreaker w).
Proof.
  pose proof (check_breaker_now name o (with_monitor m w)) as [Hn Hc].
  rewrite !check_breaker_fst. repeat split; try assumption.
  intros Hen. unfold check_breaker. rewrite Hen. reflexivity.
Qed.

(** A call that is let through and finds a truthy value in the cache returns
    it without a call of the operation. *)
Lemma optimizeAPICall_cached `{Engine} (name : string) (f : ApiFunction) (o : Options)
    (w : World) :
  fst (check_breaker name o w) = false ->
  cacheEnabled o = true ->
  truthy (fst (CacheManager.get (now w) (api_key name) (cache w))) = true ->
  let r := optimizeAPICall name f o w in
  outcome r = inl (fst (CacheManager.get (now w) (api_key name) (cache w))) /\
  calls r = O /\ delays r = [] /\ now (after r) = now w /\
  cache (after r) = snd (CacheManager.get (now w) (api_key name) (cache w)) /\
  (circuitBreakerEnabled o = false -> circuitBreaker (after r) = circuitBreaker w).
Proof.
  intros Hchk Hce Ht r. subst r. unfold optimizeAPICall.
  set (m := PerformanceMonitor.start _ _ _ _ _).
  destruct (check_breaker_started name o w m) as (Hf & Hn & Hc & Hb).
  destruct (check_breaker name o (with_monitor m w)) as [isOpen wb].
  cbn [fst snd] in *. rewrite Hf, Hchk, Hce, Hn, Hc.
  destruct (CacheManager.get (now w) (api_key name) (cache w)) as [v c].
  cbn [fst snd] in *. rewrite Ht. cbn. repeat split; try assumption.
Qed.

(** A call that is let through and finds nothing truthy in the cache, or
    does not use the cache, runs the retry loop. *)
Lemma optimizeAPICall_runs `{Engine} (name : string) (f : ApiFunction) (o : Options)
    (w : World) :
  fst (check_breaker name o w) = false ->
  cacheEnabled o = false \/
  truthy (fst (CacheManager.get (now w) (api_key name) (cache w))) = false ->
  let r := optimizeAPICall name f o w in
  exists wc,
    let a := executeWithRetry f (retryCount o) (timeout o) wc in
    outcome r = outcome a /\ calls r = calls a /\ delays r = delays a.
Proof.
  intros Hchk Hmiss r. subst r. unfold optimizeAPICall.
  set (m := PerformanceMonitor.start _ _ _ _ _).
  destruct (check_breaker_started name o w m) as (Hf & Hn & Hc & _).
  destruct (check_breaker name o (with_monitor m w)) as [isOpen wb].
  cbn [fst snd] in *. rewrite Hf, Hchk, Hn, Hc.
  destruct (cacheEnabled o).
  - destruct Hmiss as [Hmiss|Hmiss]; [discriminate|].
    destruct (CacheManager.get (now w) (api_key name) (cache w)) as [v c].
    cbn [fst] in Hmiss. rewrite Hmiss.
    eexists. apply call_api_outcome.
  - eexists. apply call_api_outcome.
Qed.

(** C1, as the code has it.  The breaker is checked before the cache is
    read.  With a valid, truthy entry in the cache and the breaker open
    within its cool-down, a call that uses the breaker throws the breaker's
    error without reading the cache or calling the operation; a call made
    with [circuitBreakerEnabled] false returns the cached value without
    touching the breaker or calling the operation. *)
Theorem open_breaker_comes_before_cache `{Engine} (name : string) (f : ApiFunction)
    (o : Options) (w : World) (cd : CacheData) (b : Breaker) :
  faulty (CacheManager.storage (cache w)) = false ->
  entry_at (api_key name) (cache w) = Some (SEntry cd) ->
  now w - timestamp cd <= expireTime cd ->
  truthy (payload cd) = true ->
  cacheEnabled o = true ->
  circuitBreaker w !! name = Some b ->
  state b = open ->
  now w - lastFailTime b <= cooldownTime b ->
  let r := optimizeAPICall name f o w in
  (circuitBreakerEnabled o = true ->
     outcome r = inr (CircuitOpenError name) /\ calls r = O /\
     cache (after r) = cache w) /\
  (circuitBreakerEnabled o = false ->
     outcome r = inl (payload cd) /\ calls r = O /\
     circuitBreaker (after r) = circuitBreaker w).
Proof.
  intros Hf He Hfresh Htruthy Hce Hb Hs Ht r. split; intros Hen.
  - destruct (optimizeAPICall_rejected name f o w b Hen Hb) as (Ho & Hc & _ & _ & Hca & _).
    + unfold rejects, cooled_down. rewrite Hs. apply negb_true_iff. lia.
    + repeat split; assumption.
  - destruct (get_fresh (now w) (api_key name) cd (cache w) Hf He Hfresh) as (Hv & _).
    destruct (optimizeAPICall_cached name f o w) as (Ho & Hc & _ & _ & _ & Hcb).
    + rewrite check_breaker_fst, Hen. reflexivity.
    + exact Hce.
    + rewrite Hv. exact Htruthy.
    + fold r in Ho, Hc, Hcb. rewrite Hv in Ho. repeat split; auto.
Qed.

(** Whatever way a call ends, the operation is called at most
    [retryCount + 1] times. *)
Lemma calls_bounded `{Engine} (name : string) (f : ApiFunction) (o : Options)
    (w : World) :
  (calls (optimizeAPICall name f o w) <= retryCount o + 1)%nat.
Proof.
  destruct (fst (check_breaker name o w)) eqn:Hchk.
  - rewrite check_breaker_fst in Hchk. apply andb_true_iff in Hchk as [Hen Hrej].
    destruct (circuitBreaker w !! name) as [b|] eqn:E; [|discriminate].
    destruct (optimizeAPICall_rejected name f o w b Hen E Hrej) as (_ & Hc & _).
    rewrite Hc. lia.
  - destruct (optimizeAPICall_let_through name f o w Hchk)
      as [(v & _ & _ & _ & Hc & _)|(wc & _ & _ & Hc & _)]; rewrite Hc; [lia|].
    pose proof (attempt_from_spec f (timeout o) (retryCount o) 0 wc) as Hs.
    cbn zeta in Hs. destruct Hs as ([_ Hs] & _). unfold executeWithRetry. lia.
Qed.

Lemma race_spec (s : Settle) (t : Z) : race s t = (won s t, spent s t).
Proof.
  destruct s as [v d|msg d|]; cbn; unfold settles_first; [| |reflexivity];
    destruct ((d <=? 0) || (d <? t)); reflexivity.
Qed.

Lemma sum_Z_constant (g : nat -> Z) (m : Z) (i k : nat) :
  (forall j, g j = m) -> sum_Z (List.map g (List.seq i k)) = Z.of_nat k * m.
Proof.
  intros Hg. revert i. induction k as [|k IH]; intros i; [reflexivity|].
  cbn [List.seq List.map sum_Z List.fold_right]. fold (sum_Z (List.map g (List.seq (S i) k))).
  rewrite IH, Hg. lia.
Qed.

(** The clock after the retry loop: the time of every attempt and every
    wait. *)
Lemma attempt_from_elapsed (f : ApiFunction) (t : Z) (remaining i : nat) (w : World) :
  let r := attempt_from f t remaining i w in
  now (after r)
  = now w + sum_Z (List.map (fun j => spent (f j) t) (List.seq i (calls r)))
    + sum_Z (delays r).
Proof.
  revert i w. induction remaining as [|n IH]; intros i w; cbn [attempt_from];
    rewrite race_spec; pose proof (backoff_pos i) as Hb;
    destruct (won (f i) t) as [v|e]; cbn [after calls delays List.seq List.map sum_Z
                                          List.fold_right];
    try (rewrite sleep_now; assert (0 <= spent (f i) t)
           by (destruct (f i); cbn; try destruct (_ || _); lia); lia).
  specialize (IH (S i) (sleep (backoff i) (sleep (spent (f i) t) w))).
  cbn zeta in IH. rewrite IH, !sleep_now. unfold sum_Z.
  assert (0 <= spent (f i) t) by (destruct (f i); cbn; try destruct (_ || _); lia).
  lia.
Qed.

Lemma call_api_now `{Engine} (name : string) (f : ApiFunction) (o : Options)
    (st : Z) (w : World) :
  now (after (call_api name f o st w))
  = now (after (executeWithRetry f (retryCount o) (timeout o) w)).
Proof.
  unfold call_api.
  destruct (executeWithRetry f (retryCount o) (timeout o) w) as [[v|e] n ds w'];
    cbn [outcome calls delays after].
  - unfold resetCircuitBreaker.
    destruct (cacheEnabled o && truthy v);
      match goal with
      | |- context [circuitBreaker ?x !! name] => destruct (circuitBreaker x !! name)
      end; reflexivity.
  - pose proof (catch_block_spec name o st e n ds w') as Hc. cbn zeta in Hc.
    destruct Hc as (_ & _ & _ & Hn & _). exact Hn.
Qed.

(** The retry loop of a call that runs it starts at the time of the call, and
    the call ends when the loop does. *)
Lemma optimizeAPICall_runs_clock `{Engine} (name : string) (f : ApiFunction)
    (o : Options) (w : World) :
  fst (check_breaker name o w) = false ->
  cacheEnabled o = false \/
  truthy (fst (CacheManager.get (now w) (api_key name) (cache w))) = false ->
  let r := optimizeAPICall name f o w in
  exists wc,
    let a := executeWithRetry f (retryCount o) (timeout o) wc in
    outcome r = outcome a /\ calls r = calls a /\ delays r = delays a /\
    now wc = now w /\ now (after r) = now (after a).
Proof.
  intros Hchk Hmiss r. subst r. unfold optimizeAPICall.
  set (m := PerformanceMonitor.start _ _ _ _ _).
  destruct (check_breaker_started name o w m) as (Hf & Hn & Hc & _).
  destruct (check_breaker name o (with_monitor m w)) as [isOpen wb].
  cbn [fst snd] in *. rewrite Hf, Hchk, Hn, Hc.
  destruct (cacheEnabled o).
  - destruct Hmiss as [Hmiss|Hmiss]; [discriminate|].
    destruct (CacheManager.get (now w) (api_key name) (cache w)) as [v c].
    cbn [fst] in Hmiss. rewrite Hmiss.
    eexists. cbn zeta.
    destruct (call_api_outcome name f o (now w) (with_cache c wb)) as (Ho & Hcl & Hd).
    split; [exact Ho|]. split; [exact Hcl|]. split; [exact Hd|].
    split; [exact Hn|apply call_api_now].
  - eexists. cbn zeta.
    destruct (call_api_outcome name f o (now w) wb) as (Ho & Hcl & Hd).
    split; [exact Ho|]. split; [exact Hcl|]. split; [exact Hd|].
    split; [exact Hn|apply call_api_now].
Qed.

(** C5.  A call that reaches the retry loop calls the operation at least
    once and at most [retryCount + 1] times.  Each attempt is the race of
    the operation against a timer of [timeout] ms: the operation's result or
    rejection when it settles first, the time-out otherwise.  The wait after
    attempt [i] is [min(1000 * 2^i, 5000)]; the loop returns the first
    result and reports a failure only after the last attempt; and the call
    takes the time of its attempts and of its waits.  An operation that
    loses every race is timed out [retryCount + 1] times.  With three
    retries and an operation that fails twice and then yields a result, the
    call returns that result after three calls and waits of 1000 and
    2000 ms. *)
Theorem retry_with_backoff `{Engine} (name : string) (f : ApiFunction) (o : Options)
    (w : World) :
  fst (check_breaker name o w) = false ->
  cacheEnabled o = false \/
  truthy (fst (CacheManager.get (now w) (api_key name) (cache w))) = false ->
  let r := optimizeAPICall name f o w in
  let t := timeout o in
  (1 <= calls r <= retryCount o + 1)%nat /\
  delays r = List.map (fun i => Z.min (1000 * 2 ^ Z.of_nat i) 5000)
               (List.seq 0 (calls r - 1)) /\
  outcome r = won (f (calls r - 1)%nat) t /\
  (forall j, (j < calls r - 1)%nat -> exists e, won (f j) t = inr e) /\
  (failed r -> calls r = (retryCount o + 1)%nat) /\
  now (after r)
  = now w + sum_Z (List.map (fun j => spent (f j) t) (List.seq 0 (calls r)))
    + sum_Z (delays r) /\
  ((forall j, beats_timer (f j) t = false) ->
   outcome r = inr TimeoutError /\ calls r = (retryCount o + 1)%nat /\
   now (after r)
   = now w + (Z.of_nat (retryCount o) + 1) * Z.max 0 t
     + sum_Z (List.map (fun i => Z.min (1000 * 2 ^ Z.of_nat i) 5000)
                (List.seq 0 (retryCount o)))) /\
  (retryCount o = 3%nat ->
   (exists e, won (f 0%nat) t = inr e) ->
   (exists e, won (f 1%nat) t = inr e) ->
   forall v, won (f 2%nat) t = inl v ->
   outcome r = inl v /\ calls r = 3%nat /\ delays r = [1000; 2000] /\
   now (after r)
   = now w + spent (f 0%nat) t + 1000 + spent (f 1%nat) t + 2000 + spent (f 2%nat) t).
Proof.
  intros Hchk Hmiss r t.
  destruct (optimizeAPICall_runs_clock name f o w Hchk Hmiss)
    as (wc & Ho & Hc & Hd & Hwc & Hnow).
  fold r in Ho, Hc, Hd, Hnow.
  pose proof (attempt_from_spec f (timeout o) (retryCount o) 0 wc) as Hs.
  pose proof (attempt_from_elapsed f (timeout o) (retryCount o) 0 wc) as He.
  cbn zeta in Hs, He. fold (executeWithRetry f (retryCount o) (timeout o) wc) in Hs, He.
  rewrite <- Ho, <- Hc, <- Hd in Hs. rewrite <- Hnow, <- Hc, <- Hd, Hwc in He.
  destruct Hs as (Hcalls & Hdel & Hout & Hprev & Hfail).
  cbn [Nat.add] in Hout, Hprev. fold t in Hout, Hprev, He.
  rewrite race_spec in Hout. cbn [fst] in Hout.
  assert (Hprev' : forall j, (j < calls r - 1)%nat -> exists e, won (f j) t = inr e).
  { intros j Hj. destruct (Hprev j Hj) as [e Hje]. rewrite race_spec in Hje.
    exists e. exact Hje. }
  assert (Hn : (calls r = retryCount o + 1 -> False)%nat ->
               exists v, outcome r = inl v).
  { intros Hne. destruct (outcome r) as [v|e] eqn:E; [eauto|].
    exfalso. apply Hne. rewrite (Hfail e eq_refl). lia. }
  split; [lia|]. split; [exact Hdel|]. split; [exact Hout|].
  split; [exact Hprev'|]. split.
  { intros [e Hfe]. rewrite (Hfail e Hfe). lia. }
  split; [exact He|]. split.
  { intros Hslow.
    assert (Hto : forall j, won (f j) t = inr TimeoutError).
    { intros j. specialize (Hslow j). unfold won. destruct (f j); cbn in *;
        try rewrite Hslow; reflexivity. }
    assert (Hsp : forall j, spent (f j) t = Z.max 0 t).
    { intros j. specialize (Hslow j). unfold spent. destruct (f j); cbn in *;
        try rewrite Hslow; reflexivity. }
    rewrite Hto in Hout.
    assert (Hall : calls r = (retryCount o + 1)%nat).
    { rewrite (Hfail _ Hout). lia. }
    split; [exact Hout|]. split; [exact Hall|].
    rewrite He, Hdel, Hall. replace (retryCount o + 1 - 1)%nat with (retryCount o) by lia.
    rewrite (sum_Z_constant _ (Z.max 0 t)) by (intros j; apply Hsp).
    replace (Z.of_nat (retryCount o + 1)) with (Z.of_nat (retryCount o) + 1) by lia.
    reflexivity. }
  intros Hrc [e0 H0] [e1 H1] v H2.
  assert (Hthree : calls r = 3%nat).
  { destruct (calls r) as [|[|[|[|n]]]] eqn:Ecalls; try lia.
    - cbn in Hout. rewrite H0 in Hout.
      destruct Hn as [v' Hv']; [lia|]. congruence.
    - cbn in Hout. rewrite H1 in Hout.
      destruct Hn as [v' Hv']; [lia|]. congruence.
    - destruct (Hprev' 2%nat) as [e Hfe]; [lia|]. congruence. }
  rewrite Hthree in *. cbn in Hout. rewrite H2 in Hout.
  assert (Hwaits : delays r = [1000; 2000]) by exact Hdel.
  split; [exact Hout|]. split; [reflexivity|]. split; [exact Hwaits|].
  rewrite He, Hwaits. cbn [List.seq List.map sum_Z List.fold_right]. lia.
Qed.

(** ** Falsy results and the cache *)

Lemma alist_get_set (k k' : string) (v : Stored) (l : list (string * Stored)) :
  alist_get k (alist_set k' v l)
  = if String.eqb k k' then Some v else alist_get k l.
Proof.
  induction l as [|[k0 v0] l IH]; cbn.
  - destruct (String.eqb k k'); reflexivity.
  - destruct (String.eqb_spec k' k0) as [->|Hne]; cbn.
    + destruct (String.eqb k k0); reflexivity.
    + rewrite IH. destruct (String.eqb_spec k k0) as [->|Hne2].
      * destruct (String.eqb_spec k0 k'); [congruence|reflexivity].
      * reflexivity.
Qed.

Lemma run_deferred_nothing_to_serve `{Engine} (key : string) (c : CacheManager.t) :
  nothing_to_serve key c -> nothing_to_serve key (CacheManager.run_deferred c).
Proof.
  intros [Hs Hd]. split; [|intros v []].
  unfold entry_at in *. unfold CacheManager.run_deferred. cbn [CacheManager.storage].
  revert Hs Hd. generalize (CacheManager.storage c) as s.
  induction (CacheManager.deferred c) as [|[k v] l IH]; intros s Hs Hd; cbn.
  - exact Hs.
  - apply IH.
    + unfold setStorageSync. destruct (faulty s); [exact Hs|]. cbn.
      intros v' Hv'. rewrite alist_get_set in Hv'.
      destruct (String.eqb_spec (CacheManager.PREFIX +:+ key) k) as [<-|Hne].
      * injection Hv' as <-. apply Hd. left. reflexivity.
      * apply Hs. exact Hv'.
    + intros v' Hin. apply Hd. right. exact Hin.
Qed.

Lemma sleep_nothing_to_serve `{Engine} (key : string) (ms : Z) (w : World) :
  nothing_to_serve key (cache w) -> nothing_to_serve key (cache (sleep ms w)).
Proof.
  intros Hn. unfold sleep. destruct (ms <=? 0); [exact Hn|].
  cbn. apply run_deferred_nothing_to_serve. exact Hn.
Qed.

Lemma sleep_cache_sets (ms : Z) (w : World) : cache_sets (sleep ms w) = cache_sets w.
Proof. unfold sleep, cache_sets. destruct (ms <=? 0); reflexivity. Qed.

Lemma attempt_from_cache `{Engine} (key : string) (f : ApiFunction) (t : Z)
    (remaining i : nat) (w : World) :
  cache_sets (after (attempt_from f t remaining i w)) = cache_sets w /\
  (nothing_to_serve key (cache w) ->
   nothing_to_serve key (cache (after (attempt_from f t remaining i w)))).
Proof.
  revert i w. induction remaining as [|n IH]; intros i w; cbn [attempt_from];
    destruct (race (f i) t) as [[v|e] ms]; cbn [after];
    try (rewrite sleep_cache_sets; split;
         [reflexivity|apply sleep_nothing_to_serve]).
  destruct (IH (S i) (sleep (backoff i) (sleep ms w))) as [Hs Hn].
  rewrite Hs, !sleep_cache_sets. split; [reflexivity|].
  intros Hw. apply Hn. do 2 apply sleep_nothing_to_serve. exact Hw.
Qed.

(** [get] never counts a [set]; when there is nothing to serve under the key
    it returns a falsy value and there is still nothing to serve. *)
Lemma get_cache `{Engine} (now : Z) (key : string) (c : CacheManager.t) :
  CacheManager.sets (CacheManager.stats (snd (CacheManager.get now key c)))
  = CacheManager.sets (CacheManager.stats c) /\
  (nothing_to_serve key c ->
   truthy (fst (CacheManager.get now key c)) = false /\
   nothing_to_serve key (snd (CacheManager.get now key c))).
Proof.
  unfold nothing_to_serve, entry_at, CacheManager.get, getStorageSync.
  destruct (faulty (CacheManager.storage c)) eqn:Hf.
  { cbn. split; [reflexivity|]. intros Hn. split; [reflexivity|exact Hn]. }
  destruct (alist_get (CacheManager.PREFIX +:+ key)
              (items (CacheManager.storage c))) as [[cd|v|v n la]|] eqn:E;
    cbn [stored_truthy negb].
  - destruct (now - timestamp cd >? expireTime cd).
    + unfold CacheManager.remove, removeStorageSync. rewrite Hf. cbn.
      split; [reflexivity|]. intros [Hs Hd]. split; [reflexivity|]. split.
      * rewrite alist_get_remove_eq. discriminate.
      * exact Hd.
    + cbn. split; [reflexivity|]. intros [Hs Hd].
      pose proof (Hs _ eq_refl) as Hcd. cbn in Hcd. split; [exact Hcd|].
      split.
      * rewrite E. exact Hs.
      * intros v Hin. apply in_app_or in Hin as [Hin|[Heq|[]]]; [auto|].
        injection Heq as <-. exact Hcd.
  - destruct (truthy v); cbn.
    + split; [reflexivity|]. intros [Hs Hd]. split; [reflexivity|]. split.
      * rewrite E. exact Hs.
      * intros v' Hin. apply in_app_or in Hin as [Hin|[Heq|[]]]; [auto|].
        injection Heq as <-. destruct v; reflexivity.
    + split; [reflexivity|]. intros [Hs Hd]. split; [reflexivity|].
      split; [rewrite E; exact Hs|exact Hd].
  - cbn. split; [reflexivity|]. intros [Hs Hd]. split; [reflexivity|]. split.
    + rewrite E. exact Hs.
    + intros v' Hin. apply in_app_or in Hin as [Hin|[Heq|[]]]; [auto|].
      injection Heq as <-. reflexivity.
  - cbn. split; [reflexivity|]. intros [Hs Hd]. split; [reflexivity|].
    split; [rewrite E; exact Hs|exact Hd].
Qed.

Lemma attempt_from_first (f : ApiFunction) (t : Z) (remaining i : nat) (w : World)
    (v : JsVal) :
  fst (race (f i) t) = inl v ->
  attempt_from f t remaining i w
  = {| outcome := inl v; calls := 1; delays := [];
       after := sleep (snd (race (f i) t)) w |}.
Proof.
  intros Hr. destruct remaining; cbn [attempt_from];
    destruct (race (f i) t) as [[v'|e] ms]; cbn in *; congruence.
Qed.

Lemma resetCircuitBreaker_cache (name : string) (w : World) :
  cache (resetCircuitBreaker name w) = cache w.
Proof.
  unfold resetCircuitBreaker. destruct (circuitBreaker w !! name); reflexivity.
Qed.

(** [call_api] leaves the cache as the retry loop left it, unless the cache
    is in use and the result is truthy. *)
Lemma call_api_cache `{Engine} (name : string) (f : ApiFunction) (o : Options)
    (st : Z) (w : World) :
  let r := call_api name f o st w in
  let a := executeWithRetry f (retryCount o) (timeout o) w in
  cache (after r) = cache (after a) \/
  (exists v, outcome r = inl v /\ truthy v = true /\ cacheEnabled o = true).
Proof.
  unfold call_api.
  destruct (executeWithRetry f (retryCount o) (timeout o) w) as [[v|e] n ds w'];
    cbn [outcome calls delays after].
  - destruct (cacheEnabled o) eqn:Ec; destruct (truthy v) eqn:Et; cbn [andb];
      try (left; rewrite resetCircuitBreaker_cache; reflexivity).
    right. exists v. auto.
  - left. pose proof (catch_block_spec name o st e n ds w') as Hc. cbn zeta in Hc.
    destruct Hc as (_ & _ & _ & _ & Hca & _). exact Hca.
Qed.

(** The cache counts a [set] during a call only when the operation has
    yielded a truthy result. *)
Lemma optimizeAPICall_sets `{Engine} (name : string) (f : ApiFunction) (o : Options)
    (w : World) :
  let r := optimizeAPICall name f o w in
  cache_sets (after r) <> cache_sets w ->
  exists v, outcome r = inl v /\ truthy v = true /\ cacheEnabled o = true /\
            calls r <> O.
Proof.
  intros r. subst r. unfold optimizeAPICall.
  set (m := PerformanceMonitor.start _ _ _ _ _).
  destruct (check_breaker_started name o w m) as (_ & Hn & Hc & _).
  destruct (check_breaker name o (with_monitor m w)) as [isOpen wb].
  cbn [fst snd] in *.
  assert (Hcall : forall wc, cache_sets wc = cache_sets w ->
    let r := call_api name f o (now w) wc in
    cache_sets (after r) <> cache_sets w ->
    exists v, outcome r = inl v /\ truthy v = true /\ cacheEnabled o = true /\
              calls r <> O).
  { intros wc Hwc r Hne.
    pose proof (call_api_breaker name f o (now w) wc) as [Hcalls _].
    fold r in Hcalls.
    destruct (call_api_cache name f o (now w) wc) as [Hsame|(v & Hv & Ht & Hce)].
    - exfalso. apply Hne. unfold cache_sets. fold r in Hsame. rewrite Hsame.
      destruct (attempt_from_cache name f (timeout o) (retryCount o) 0 wc) as [Hs _].
      unfold cache_sets in Hs. unfold executeWithRetry. rewrite Hs. exact Hwc.
    - exists v. repeat split; try assumption. lia. }
  destruct isOpen.
  - intros Hne. exfalso. apply Hne.
    pose proof (catch_block_spec name o (now w) (CircuitOpenError name) O [] wb) as Hcb.
    cbn zeta in Hcb. destruct Hcb as (_ & _ & _ & _ & Hca & _).
    unfold cache_sets. rewrite Hca, Hc. reflexivity.
  - destruct (cacheEnabled o) eqn:Ece.
    + rewrite Hn, Hc.
      pose proof (get_cache (now w) (api_key name) (cache w)) as [Hsets _].
      destruct (CacheManager.get (now w) (api_key name) (cache w)) as [v c].
      cbn [fst snd] in *.
      destruct (truthy v).
      * intros Hne. exfalso. apply Hne. exact Hsets.
      * apply Hcall. exact Hsets.
    + apply Hcall. unfold cache_sets. rewrite Hc. reflexivity.
Qed.

(** One call of an operation with a falsy result, with nothing to serve in
    the cache and the breaker not open: the operation is called once, its
    result is returned and not stored, and the next call finds the same. *)
Lemma optimizeAPICall_falsy `{Engine} (name : string) (f : ApiFunction) (o : Options)
    (w : World) (v : JsVal) :
  nothing_to_serve (api_key name) (cache w) ->
  (forall b, circuitBreaker w !! name = Some b -> state b <> open) ->
  cacheEnabled o = true ->
  fst (race (f 0%nat) (timeout o)) = inl v ->
  truthy v = false ->
  let r := optimizeAPICall name f o w in
  outcome r = inl v /\ calls r = 1%nat /\
  nothing_to_serve (api_key name) (cache (after r)) /\
  (forall b, circuitBreaker (after r) !! name = Some b -> state b <> open) /\
  cache_sets (after r) = cache_sets w.
Proof.
  intros Hn Hb Hce Hr Hv r.
  assert (Hchk : fst (check_breaker name o w) = false).
  { rewrite check_breaker_fst. destruct (circuitBreaker w !! name) as [b|] eqn:E;
      [|apply andb_false_r].
    unfold rejects. specialize (Hb b eq_refl).
    destruct (state b); try apply andb_false_r. congruence. }
  assert (Hout : outcome r = inl v /\ calls r = 1%nat /\
                 nothing_to_serve (api_key name) (cache (after r)) /\
                 cache_sets (after r) = cache_sets w).
  { subst r. unfold optimizeAPICall.
    set (m := PerformanceMonitor.start _ _ _ _ _).
    destruct (check_breaker_started name o w m) as (Hf & Hnow & Hc & _).
    destruct (check_breaker name o (with_monitor m w)) as [isOpen wb].
    cbn [fst snd] in *. rewrite Hf, Hchk, Hce, Hnow, Hc.
    destruct (get_cache (now w) (api_key name) (cache w)) as [Hsets Hget].
    destruct (Hget Hn) as [Hfalsy Hn'].
    destruct (CacheManager.get (now w) (api_key name) (cache w)) as [v0 c].
    cbn [fst snd] in *. rewrite Hfalsy.
    unfold call_api, executeWithRetry.
    rewrite (attempt_from_first f (timeout o) (retryCount o) 0 _ v Hr).
    cbn [outcome calls delays after]. rewrite Hce, Hv. cbn [andb].
    split; [reflexivity|]. split; [reflexivity|].
    rewrite resetCircuitBreaker_cache. unfold cache_sets.
    rewrite resetCircuitBreaker_cache. wsimpl.
    set (wc := {| now := now wb; memInfo := memInfo wb; cache := c;
                  monitor := monitor wb; apiMetrics := apiMetrics wb;
                  circuitBreaker := circuitBreaker wb |}).
    split.
    - apply (sleep_nothing_to_serve (api_key name) _ wc). exact Hn'.
    - pose proof (sleep_cache_sets (snd (race (f 0%nat) (timeout o))) wc) as Hs.
      unfold cache_sets in Hs. rewrite Hs. exact Hsets. }
  destruct Hout as (Ho & Hc & Hn' & Hs).
  split; [exact Ho|]. split; [exact Hc|]. split; [exact Hn'|].
  split; [|exact Hs].
  intros b Hb'.
  pose proof (optimizeAPICall_breaker name f o w) as Hbr. cbn zeta in Hbr.
  fold r in Hbr. rewrite Ho, Hc in Hbr. cbn in Hbr. rewrite Hb' in Hbr.
  destruct (circuitBreaker w !! name); cbn in Hbr; [|discriminate].
  injection Hbr as ->. cbn. discriminate.
Qed.

(** C9.  With nothing truthy to serve under the key and the breaker not
    open, invocations with the cache in use whose operation yields a falsy
    result each call the operation once and return its result; none of the
    results is stored, so the cache still has nothing to serve.  More
    generally a call only answers from the cache with a truthy value, and
    only counts a [set] when the operation has yielded a truthy result. *)
Theorem falsy_results_are_never_cached `{Engine} (name : string)
    (l : list Invocation) (w : World) :
  nothing_to_serve (api_key name) (cache w) ->
  (forall b, circuitBreaker w !! name = Some b -> state b <> open) ->
  Forall (fun c => inv_name c = name /\ cacheEnabled (inv_options c) = true /\
                   falsy_result c) l ->
  Forall2 (fun c r => calls r = 1%nat /\ truthy_outcome r = false /\
                      outcome r = fst (race (inv_function c 0%nat)
                                         (timeout (inv_options c))))
    l (fst (invoke_all l w)) /\
  nothing_to_serve (api_key name) (cache (snd (invoke_all l w))) /\
  cache_sets (snd (invoke_all l w)) = cache_sets w /\
  (forall f o w0, let r := optimizeAPICall name f o w0 in
     forall v, outcome r = inl v -> calls r = O -> truthy v = true) /\
  (forall f o w0, let r := optimizeAPICall name f o w0 in
     cache_sets (after r) <> cache_sets w0 ->
     exists v, outcome r = inl v /\ truthy v = true /\ calls r <> O).
Proof.
  intros Hn Hb Hall.
  assert (Hgen : forall f o w0, let r := optimizeAPICall name f o w0 in
     forall v, outcome r = inl v -> calls r = O -> truthy v = true).
  { intros f o w0 r v Ho Hc.
    destruct (fst (check_breaker name o w0)) eqn:Hchk.
    - rewrite check_breaker_fst in Hchk. apply andb_true_iff in Hchk as [Hen Hrej].
      destruct (circuitBreaker w0 !! name) as [b|] eqn:E; [|discriminate].
      destruct (optimizeAPICall_rejected name f o w0 b Hen E Hrej) as (Ho' & _).
      fold r in Ho'. congruence.
    - destruct (optimizeAPICall_let_through name f o w0 Hchk)
        as [(v' & _ & Ho' & Ht & _)|(wc & _ & _ & Hc' & _)].
      + fold r in Ho'. congruence.
      + fold r in Hc'. pose proof (attempt_from_spec f (timeout o) (retryCount o) 0 wc) as Hs.
        cbn zeta in Hs. destruct Hs as ([Hs _] & _).
        unfold executeWithRetry in Hc'. lia. }
  assert (Hsets : forall f o w0, let r := optimizeAPICall name f o w0 in
     cache_sets (after r) <> cache_sets w0 ->
     exists v, outcome r = inl v /\ truthy v = true /\ calls r <> O).
  { intros f o w0 r Hne.
    destruct (optimizeAPICall_sets name f o w0 Hne) as (v & Ho & Ht & _ & Hc).
    exists v. auto. }
  enough (Hseq :
    Forall2 (fun c r => calls r = 1%nat /\ truthy_outcome r = false /\
                        outcome r = fst (race (inv_function c 0%nat)
                                           (timeout (inv_options c))))
      l (fst (invoke_all l w)) /\
    nothing_to_serve (api_key name) (cache (snd (invoke_all l w))) /\
    cache_sets (snd (invoke_all l w)) = cache_sets w).
  { destruct Hseq as (H1 & H2 & H3). auto. }
  clear Hgen Hsets. revert w Hn Hb.
  induction l as [|c l IH]; intros w Hn Hb.
  - cbn. split; [constructor|]. split; [exact Hn|reflexivity].
  - apply Forall_cons_iff in Hall as [(Hname & Hce & v & Hr & Hv) Hall].
    cbn [invoke_all]. unfold invoke. rewrite Hname.
    destruct (optimizeAPICall_falsy name (inv_function c) (inv_options c)
                (sleep (gap c) w) v) as (Ho & Hc & Hn' & Hb' & Hs); try assumption.
    { apply sleep_nothing_to_serve. exact Hn. }
    { rewrite sleep_circuitBreaker. exact Hb. }
    set (r := optimizeAPICall name (inv_function c) (inv_options c) (sleep (gap c) w)) in *.
    specialize (IH Hall (after r) Hn' Hb').
    destruct (invoke_all l (after r)) as [rs w'] eqn:E. cbn [fst snd] in *.
    destruct IH as (Hrs & Hnw & Hsw).
    split; [|split].
    + constructor; [|exact Hrs]. split; [exact Hc|].
      unfold truthy_outcome. rewrite Ho. split; [exact Hv|]. congruence.
    + exact Hnw.
    + rewrite Hsw, Hs. apply sleep_cache_sets.
Qed.

(** ** The running average of the monitor *)

(** What a matched [start] and [end] leave in the statistics. *)
Lemma timed_stats (name : string) (t0 d : Z) (m : PerformanceMonitor.t) :
  let st := PerformanceMonitor.stats m in
  let st' := PerformanceMonitor.stats (snd (timed name t0 d m)) in
  PerformanceMonitor.totalOperations st' = PerformanceMonitor.totalOperations st + 1 /\
  PerformanceMonitor.averageTime st'
  = running_average (PerformanceMonitor.averageTime st)
      (PerformanceMonitor.totalOperations st + 1) d.
Proof.
  cbn zeta. unfold timed, PerformanceMonitor.end_, PerformanceMonitor.start.
  cbn [PerformanceMonitor.records]. rewrite lookup_insert_eq.
  cbn [snd PerformanceMonitor.stats PerformanceMonitor.totalOperations
       PerformanceMonitor.averageTime PerformanceMonitor.updateStats
       PerformanceMonitor.startTime].
  replace (t0 + d - t0) with d by lia. split; reflexivity.
Qed.

(** C8.  [end(name)] on a record that [start(name)] has opened returns the
    measured duration, counts the operation and sets the average to
    [(avg * (n - 1) + duration) / n], with [n] the new count, in the
    arithmetic of doubles; a [start] at [t0] followed by its [end] at [t1]
    measures [t1 - t0]; and measurements of 100, 200 and 300 ms on a cleared
    monitor, whatever their names and starting times, give an average of
    exactly 200. *)
Theorem monitor_running_average (now : Z) (mem : JsVal) (name : string)
    (m : PerformanceMonitor.t) (record : PerformanceMonitor.Rec) :
  PerformanceMonitor.records m !! name = Some record ->
  let r := PerformanceMonitor.end_ now mem name m in
  let n := PerformanceMonitor.totalOperations (PerformanceMonitor.stats m) + 1 in
  let d := now - PerformanceMonitor.startTime record in
  fst r = d /\
  PerformanceMonitor.totalOperations (PerformanceMonitor.stats (snd r)) = n /\
  PerformanceMonitor.averageTime (PerformanceMonitor.stats (snd r))
  = Double.div
      (Double.add
         (Double.mul (PerformanceMonitor.averageTime (PerformanceMonitor.stats m))
            (Double.of_Z (n - 1)))
         (Double.of_Z d))
      (Double.of_Z n) /\
  (forall t0 t1 meta mem0,
     fst (PerformanceMonitor.end_ t1 mem name
            (PerformanceMonitor.start t0 mem0 name meta m)) = t1 - t0) /\
  (forall a b c ta tb tc,
     PerformanceMonitor.averageTime
       (PerformanceMonitor.stats
          (snd (timed c tc 300
                  (snd (timed b tb 200
                          (snd (timed a ta 100 (PerformanceMonitor.clear m))))))))
     = Double.of_Z 200).
Proof.
  intros Hrec r n d. subst r. unfold PerformanceMonitor.end_. rewrite Hrec.
  cbn [fst snd PerformanceMonitor.stats PerformanceMonitor.totalOperations
       PerformanceMonitor.averageTime PerformanceMonitor.updateStats].
  split; [reflexivity|].
  split; [reflexivity|].
  split; [reflexivity|].
  split.
  - intros t0 t1 meta mem0. unfold PerformanceMonitor.start.
    cbn [PerformanceMonitor.records]. rewrite lookup_insert_eq. reflexivity.
  - intros a b c ta tb tc.
    destruct (timed_stats a ta 100 (PerformanceMonitor.clear m)) as [Hn1 Ha1].
    destruct (timed_stats b tb 200 (snd (timed a ta 100 (PerformanceMonitor.clear m))))
      as [Hn2 Ha2].
    destruct (timed_stats c tc 300
                (snd (timed b tb 200
                        (snd (timed a ta 100 (PerformanceMonitor.clear m))))))
      as [_ Ha3].
    cbn zeta in *. rewrite Ha3, Hn2, Ha2, Hn1, Ha1. vm_compute. reflexivity.
Qed.

(** ** Eviction by priority *)

Lemma priorityWeight_plain (p : string) :
  ~ In p CacheManager.inherited ->
  CacheManager.priorityWeight p = CacheManager.WNum (weight p).
Proof.
  intros Hp. unfold CacheManager.priorityWeight, weight.
  destruct (String.eqb p "low"); [reflexivity|].
  destruct (String.eqb p "normal") eqn:En.
  { apply String.eqb_eq in En. subst p. reflexivity. }
  destruct (String.eqb p "high"); [reflexivity|].
  destruct (existsb (String.eqb p) CacheManager.inherited) eqn:E; [|reflexivity].
  apply existsb_exists in E as (q & Hq & Heq). apply String.eqb_eq in Heq.
  subst q. contradiction.
Qed.

Lemma compare_items_plain (a b : CacheManager.Item) :
  plain a -> plain b ->
  CacheManager.compare_items a b = Some (lex (item_rank a) (item_rank b)).
Proof.
  intros Ha Hb. unfold CacheManager.compare_items. cbn zeta.
  rewrite (priorityWeight_plain _ Ha), (priorityWeight_plain _ Hb).
  unfold lex, item_rank. cbn [fst snd].
  destruct (negb _); reflexivity.
Qed.

Lemma lex_le (a b : Z * Z) : lex a b <= 0 <-> rank_le a b.
Proof.
  unfold lex, rank_le. destruct (Z.eqb_spec (fst a) (fst b)); cbn [negb]; lia.
Qed.

Lemma rank_le_total (a b : Z * Z) : rank_le a b \/ rank_le b a.
Proof. unfold rank_le. lia. Qed.

Lemma rank_le_trans (a b c : Z * Z) : rank_le a b -> rank_le b c -> rank_le a c.
Proof. unfold rank_le. lia. Qed.

Lemma lex_consistent (a b c : Z * Z) :
  (lex a a =? 0)
  && implb (lex a b =? 0) (lex b a =? 0)
  && implb ((lex a b =? 0) && (lex b c =? 0)) (lex a c =? 0)
  && implb ((lex a b <? 0) && (lex b c <? 0)) (lex a c <? 0)
  && implb ((lex a b >? 0) && (lex b c >? 0)) (lex a c >? 0) = true.
Proof.
  rewrite !andb_true_iff, !implb_true_iff, !andb_true_iff, !Z.eqb_eq, !Z.ltb_lt,
    !Z.gtb_lt.
  unfold lex.
  destruct (Z.eqb_spec (fst a) (fst a)), (Z.eqb_spec (fst a) (fst b)),
    (Z.eqb_spec (fst b) (fst a)), (Z.eqb_spec (fst b) (fst c)),
    (Z.eqb_spec (fst a) (fst c)); cbn [negb]; lia.
Qed.

(** On items of plain priority the comparator of the eviction is
    consistent. *)
Lemma compare_items_consistent (l : list CacheManager.Item) :
  Forall plain l -> consistent CacheManager.compare_items l = true.
Proof.
  intros Hall. rewrite List.Forall_forall in Hall. unfold consistent.
  apply forallb_forall. intros a Ha. apply forallb_forall. intros b Hb.
  apply forallb_forall. intros c Hc. unfold consistent_on.
  rewrite !compare_items_plain by auto. apply lex_consistent.
Qed.

Section SortFacts.
Context {A : Type} (cmp : A -> A -> Z) (P : A -> Prop).
Let le (a b : A) : Prop := cmp a b <= 0.
Hypothesis le_total : forall a b, P a -> P b -> le a b \/ le b a.
Hypothesis le_trans : forall a b c, P a -> P b -> P c -> le a b -> le b c -> le a c.

Lemma sort_insert_perm (x : A) (l : list A) :
  Permutation (x :: l) (sort_insert cmp x l).
Proof.
  induction l as [|y l IH]; cbn; [reflexivity|].
  destruct (cmp x y <=? 0); [reflexivity|].
  rewrite perm_swap. constructor. exact IH.
Qed.

Lemma insertion_sort_perm (l : list A) : Permutation l (insertion_sort cmp l).
Proof.
  induction l as [|x l IH]; cbn; [reflexivity|].
  rewrite <- sort_insert_perm. constructor. exact IH.
Qed.

Lemma sort_insert_sorted (x : A) (l : list A) :
  P x -> Forall P l ->
  StronglySorted le l -> StronglySorted le (sort_insert cmp x l).
Proof.
  intros Hx HP. induction 1 as [|y l Hs IH Hall]; cbn.
  - repeat constructor.
  - apply Forall_cons_iff in HP as [Hy HP].
    destruct (Z.leb_spec (cmp x y) 0) as [Hle|Hgt].
    + constructor; [constructor; assumption|].
      constructor; [exact Hle|].
      rewrite List.Forall_forall in Hall, HP. apply List.Forall_forall.
      intros z Hz. apply (le_trans x y z); auto.
    + constructor; [apply IH; exact HP|].
      assert (Hyx : le y x).
      { destruct (le_total x y Hx Hy) as [Hxy|Hyx]; [unfold le in Hxy; lia|exact Hyx]. }
      eapply Permutation_Forall; [apply sort_insert_perm|].
      constructor; assumption.
Qed.

Lemma insertion_sort_sorted (l : list A) :
  Forall P l -> StronglySorted le (insertion_sort cmp l).
Proof.
  induction l as [|x l IH]; cbn; intros HP; [constructor|].
  apply Forall_cons_iff in HP as [Hx HP].
  apply sort_insert_sorted; [exact Hx| |apply IH; exact HP].
  eapply Permutation_Forall; [apply insertion_sort_perm|exact HP].
Qed.

End SortFacts.

(** [sort] only rearranges the array. *)
Lemma array_sort_perm `{Engine} {A : Type} (cmp : A -> A -> option Z) (l : list A) :
  Permutation l (array_sort cmp l).
Proof.
  unfold array_sort. destruct (consistent cmp l).
  - apply insertion_sort_perm.
  - apply sort_inconsistent_perm.
Qed.

Lemma sorted_split {A : Type} (R : A -> A -> Prop) (l1 l2 : list A) :
  StronglySorted R (l1 ++ l2) ->
  forall a b, In a l1 -> In b l2 -> R a b.
Proof.
  induction l1 as [|x l1 IH]; cbn; intros Hs a b Ha Hb; [contradiction|].
  apply StronglySorted_inv in Hs as [Hs Hall].
  destruct Ha as [<-|Ha].
  - rewrite List.Forall_forall in Hall. apply Hall. apply in_or_app. right. exact Hb.
  - eapply IH; eassumption.
Qed.

Lemma StronglySorted_weaken {A : Type} (P : A -> Prop) (R R' : A -> A -> Prop)
    (l : list A) :
  (forall a b, P a -> P b -> R a b -> R' a b) ->
  Forall P l -> StronglySorted R l -> StronglySorted R' l.
Proof.
  intros Him HP. induction 1 as [|x l Hs IH Hall]; constructor.
  - apply IH. apply Forall_cons_iff in HP as [_ HP]. exact HP.
  - apply Forall_cons_iff in HP as [Hx HP].
    rewrite List.Forall_forall in Hall, HP. apply List.Forall_forall.
    intros y Hy. apply Him; auto.
Qed.

(** The items of plain priority come out of the sort in the order of the
    eviction. *)
Lemma array_sort_sorted `{Engine} (l : list CacheManager.Item) :
  Forall plain l ->
  StronglySorted (fun a b => rank_le (item_rank a) (item_rank b))
    (array_sort CacheManager.compare_items l).
Proof.
  intros Hall. unfold array_sort. rewrite compare_items_consistent by exact Hall.
  set (num := fun x y => default 0 (CacheManager.compare_items x y)).
  assert (Hnum : forall a b, plain a -> plain b ->
                   num a b = lex (item_rank a) (item_rank b)).
  { intros a b Ha Hb. unfold num. rewrite compare_items_plain by assumption.
    reflexivity. }
  apply (StronglySorted_weaken plain (fun a b => num a b <= 0)).
  - intros a b Ha Hb Hab. apply lex_le. rewrite <- Hnum by assumption. exact Hab.
  - eapply Permutation_Forall; [apply insertion_sort_perm|exact Hall].
  - apply (insertion_sort_sorted num plain); [| |exact Hall].
    + intros a b Ha Hb. rewrite !Hnum by assumption. rewrite !lex_le.
      apply rank_le_total.
    + intros a b c Ha Hb Hc. rewrite !Hnum by assumption. rewrite !lex_le.
      apply rank_le_trans.
Qed.

(** What [cleanupByPriority] collects for a key. *)
Lemma in_collected (s : WxStorage) (keys : list string) (it : CacheManager.Item) :
  In it (collected s keys) <->
  exists key, In key keys /\ stored_truthy (read s key) = true /\
              it = CacheManager.item_of key (read s key).
Proof.
  unfold collected. rewrite in_flat_map. split.
  - intros (key & Hk & Hin). exists key. split; [exact Hk|].
    destruct (stored_truthy (read s key)); [|contradiction].
    destruct Hin as [<-|[]]. split; reflexivity.
  - intros (key & Hk & Ht & ->). exists key. split; [exact Hk|].
    rewrite Ht. left. reflexivity.
Qed.

Lemma item_of_key (key : string) (v : Stored) :
  CacheManager.item_key (CacheManager.item_of key v) = key.
Proof. destruct v; reflexivity. Qed.

Lemma collected_keys (s : WxStorage) (keys : list string) :
  List.map CacheManager.item_key (collected s keys)
  = List.filter (fun key => stored_truthy (read s key)) keys.
Proof.
  unfold collected. induction keys as [|k keys IH]; cbn; [reflexivity|].
  rewrite List.map_app, IH. destruct (stored_truthy (read s k)); cbn; [|reflexivity].
  rewrite item_of_key. reflexivity.
Qed.

(** The rank of a collected item is the rank of the stored value. *)
Lemma item_of_rank (key : string) (v : Stored) :
  item_rank (CacheManager.item_of key v) = rank v.
Proof.
  destruct v as [cd|v|v n la]; try reflexivity.
  unfold item_rank, rank. cbn. unfold CacheManager.priority_or_normal.
  destruct (String.eqb_spec (priority cd) "") as [->|_]; reflexivity.
Qed.

Lemma collected_plain (s : WxStorage) :
  plain_priorities s -> Forall plain (collected s (cache_keys s)).
Proof.
  intros Hp. apply List.Forall_forall. intros it Hin.
  apply in_collected in Hin as (key & Hk & _ & ->).
  unfold cache_keys in Hk. apply filter_In in Hk as [_ Hk].
  unfold plain, read. destruct (alist_get key (items s)) as [[cd|v|v n la]|] eqn:E;
    cbn; try (intuition discriminate).
  unfold CacheManager.priority_or_normal.
  destruct (String.eqb_spec (priority cd) "") as [_|_].
  - cbn. intuition discriminate.
  - apply (Hp key cd Hk E).
Qed.

Lemma getStorageSync_working (key : string) (s : WxStorage) :
  faulty s = false -> getStorageSync key s = Some (read s key).
Proof.
  intros Hf. unfold getStorageSync, read. rewrite Hf.
  destruct (alist_get key (items s)); reflexivity.
Qed.

Lemma collect_items_working (keys : list string) (s : WxStorage)
    (acc : list CacheManager.Item) :
  faulty s = false ->
  CacheManager.collect_items keys s acc = Some (s, (acc ++ collected s keys)%list).
Proof.
  intros Hf. revert acc. induction keys as [|k keys IH]; intros acc; cbn.
  - rewrite app_nil_r. reflexivity.
  - rewrite getStorageSync_working by exact Hf.
    rewrite IH. unfold collected. cbn.
    destruct (stored_truthy (read s k)); cbn.
    + rewrite <- app_assoc. reflexivity.
    + reflexivity.
Qed.

Lemma sorted_items_working `{Engine} (s : WxStorage) :
  faulty s = false ->
  CacheManager.sorted_items s
  = array_sort CacheManager.compare_items (collected s (cache_keys s)).
Proof.
  intros Hf. unfold CacheManager.sorted_items, getStorageInfoSync. rewrite Hf.
  cbn [info_keys]. fold (cache_keys s).
  rewrite collect_items_working by exact Hf. reflexivity.
Qed.

Lemma remove_items_working (l : list CacheManager.Item) (c : CacheManager.t) :
  faulty (CacheManager.storage c) = false ->
  exists c',
    CacheManager.remove_items l c = Some c' /\
    items (CacheManager.storage c')
    = remove_keys (List.map CacheManager.item_key l) (items (CacheManager.storage c)) /\
    faulty (CacheManager.storage c') = false /\
    CacheManager.removes (CacheManager.stats c')
    = CacheManager.removes (CacheManager.stats c) + Z.of_nat (List.length l) /\
    CacheManager.hits (CacheManager.stats c') = CacheManager.hits (CacheManager.stats c) /\
    CacheManager.misses (CacheManager.stats c') = CacheManager.misses (CacheManager.stats c) /\
    CacheManager.sets (CacheManager.stats c') = CacheManager.sets (CacheManager.stats c).
Proof.
  revert c. induction l as [|it l IH]; intros c Hf; cbn [CacheManager.remove_items].
  - exists c. cbn. repeat split; try assumption; try reflexivity. lia.
  - unfold removeStorageSync. rewrite Hf.
    destruct (IH (CacheManager.add_removes 1
                    (CacheManager.with_storage
                       (with_items (alist_remove (CacheManager.item_key it)
                                      (items (CacheManager.storage c)))
                          (CacheManager.storage c)) c)))
      as (c' & Hc' & Hitems & Hf' & Hrem & Hh & Hm & Hs); [exact Hf|].
    exists c'. split; [exact Hc'|]. split; [exact Hitems|]. split; [exact Hf'|].
    cbn in Hrem, Hh, Hm, Hs. repeat split; try assumption.
    rewrite Hrem. cbn [List.length]. lia.
Qed.

Lemma alist_get_in (k : string) (v : Stored) (l : list (string * Stored)) :
  alist_get k l = Some v -> In (k, v) l.
Proof.
  induction l as [|[k0 v0] l IH]; cbn; [discriminate|].
  destruct (String.eqb_spec k k0) as [->|Hne].
  - intros [= ->]. left. reflexivity.
  - intros Hg. right. apply IH. exact Hg.
Qed.

(** A test that decides [plain_priorities] on the items of a storage. *)
Lemma plain_priorities_check (s : WxStorage) :
  forallb (fun kv => match snd kv with
                     | SEntry cd =>
                         negb (existsb (String.eqb (priority cd)) CacheManager.inherited)
                     | _ => true
                     end) (items s) = true ->
  plain_priorities s.
Proof.
  intros Hall key cd _ Hget Hin. apply alist_get_in in Hget.
  rewrite forallb_forall in Hall. specialize (Hall _ Hget). cbn [snd] in Hall.
  apply negb_true_iff in Hall.
  assert (Hex : existsb (String.eqb (priority cd)) CacheManager.inherited = true).
  { apply existsb_exists. exists (priority cd). split; [exact Hin|].
    apply String.eqb_refl. }
  congruence.
Qed.

Lemma in_firstn {A : Type} (x : A) (n : nat) (l : list A) :
  In x (List.firstn n l) -> In x l.
Proof.
  intros Hin. rewrite <- (firstn_skipn n l). apply in_or_app. left. exact Hin.
Qed.

(** C7.  On a working storage [cleanupByPriority] counts the [N] keys of the
    cache that hold a value and removes [floor(0.3 * N)] of them and nothing
    else.  When no entry has a priority that is a name of
    [Object.prototype], the removed entries are the lowest in the order of
    priority weight (low 1, normal and any other 2, high 3) and then access
    count, as the storage holds them: every removed entry comes before every
    entry that is kept. *)
Theorem eviction_by_priority `{Engine} (c : CacheManager.t) :
  faulty (CacheManager.storage c) = false ->
  let s := CacheManager.storage c in
  let sorted := CacheManager.sorted_items s in
  let n := Z.to_nat (3 * Z.of_nat (List.length (live_keys s)) / 10) in
  let evicted := List.map CacheManager.item_key (List.firstn n sorted) in
  let c' := CacheManager.cleanupByPriority c in
  Z.of_nat (List.length evicted) = 3 * Z.of_nat (List.length (live_keys s)) / 10 /\
  (forall key, In key evicted -> In key (live_keys s)) /\
  (forall kv, In kv (items (CacheManager.storage c')) <->
              In kv (items s) /\ ~ In (fst kv) evicted) /\
  CacheManager.removes (CacheManager.stats c')
  = CacheManager.removes (CacheManager.stats c) + Z.of_nat (List.length evicted) /\
  (plain_priorities s ->
   forall a b, In a evicted -> In b (live_keys s) -> ~ In b evicted ->
               rank_le (rank (read s a)) (rank (read s b))) /\
  weight "low" = 1 /\ weight "normal" = 2 /\ weight "high" = 3.
Proof.
  intros Hf s sorted n evicted c'.
  assert (Hsorted : sorted = array_sort CacheManager.compare_items
                               (collected s (cache_keys s))).
  { apply sorted_items_working. exact Hf. }
  assert (Hperm : Permutation (collected s (cache_keys s)) sorted).
  { rewrite Hsorted. apply array_sort_perm. }
  assert (Hkeys : Permutation (live_keys s) (List.map CacheManager.item_key sorted)).
  { unfold live_keys. rewrite <- collected_keys. apply Permutation_map. exact Hperm. }
  assert (Hlive : List.length sorted = List.length (live_keys s)).
  { rewrite (Permutation_length Hkeys). rewrite length_map. reflexivity. }
  assert (Hlen : Z.of_nat (List.length evicted)
                 = 3 * Z.of_nat (List.length (live_keys s)) / 10).
  { subst evicted. rewrite length_map, length_firstn. subst n. rewrite Hlive.
    assert (0 <= 3 * Z.of_nat (List.length (live_keys s)) / 10)
      by (apply Z.div_pos; lia).
    assert (3 * Z.of_nat (List.length (live_keys s)) / 10
            <= Z.of_nat (List.length (live_keys s))).
    { apply Z.div_le_upper_bound; lia. }
    lia. }
  split; [exact Hlen|].
  split.
  { intros key Hin. eapply Permutation_in; [symmetry; exact Hkeys|].
    subst evicted. apply in_map_iff in Hin as (it & <- & Hit).
    apply in_map. eapply in_firstn; exact Hit. }
  assert (Hclean : exists c0,
    c' = c0 /\
    items (CacheManager.storage c0) = remove_keys evicted (items s) /\
    CacheManager.removes (CacheManager.stats c0)
    = CacheManager.removes (CacheManager.stats c) + Z.of_nat (List.length evicted)).
  { subst c'. unfold CacheManager.cleanupByPriority, getStorageInfoSync.
    rewrite Hf. fold s. cbn [info_keys]. fold (cache_keys s).
    rewrite collect_items_working by exact Hf. cbn [app].
    rewrite <- Hsorted. unfold CacheManager.deleteCount. rewrite Hlive. fold n.
    destruct (remove_items_working (List.firstn n sorted)
                (CacheManager.with_storage s c))
      as (c0 & Hc0 & Hitems & _ & Hrem & _); [exact Hf|].
    rewrite Hc0. exists c0. split; [reflexivity|]. split; [exact Hitems|].
    rewrite Hrem. subst evicted. rewrite length_map. reflexivity. }
  destruct Hclean as (c0 & -> & Hitems & Hrem).
  split.
  { intros kv. rewrite Hitems. apply in_remove_keys. }
  split; [exact Hrem|].
  split; [|repeat split; reflexivity].
  intros Hplain a b Ha Hb Hnb.
  assert (Hall : Forall plain (collected s (cache_keys s))).
  { apply collected_plain. exact Hplain. }
  assert (Hss : StronglySorted (fun x y => rank_le (item_rank x) (item_rank y))
                  (List.firstn n sorted ++ List.skipn n sorted)).
  { rewrite firstn_skipn, Hsorted. apply array_sort_sorted. exact Hall. }
  subst evicted. apply in_map_iff in Ha as (ia & Hka & Hia).
  assert (Hia' : In ia (collected s (cache_keys s))).
  { eapply Permutation_in; [symmetry; exact Hperm|]. eapply in_firstn; exact Hia. }
  apply in_collected in Hia' as (ka & _ & _ & Eia).
  assert (Hib : In (CacheManager.item_of b (read s b)) (List.skipn n sorted)).
  { unfold live_keys in Hb. apply filter_In in Hb as [Hb Ht].
    assert (Hin : In (CacheManager.item_of b (read s b)) sorted).
    { eapply Permutation_in; [exact Hperm|]. apply in_collected.
      exists b. repeat split; assumption. }
    rewrite <- (firstn_skipn n sorted) in Hin. apply in_app_or in Hin as [Hin|Hin];
      [|exact Hin].
    exfalso. apply Hnb. apply in_map_iff.
    exists (CacheManager.item_of b (read s b)). split; [apply item_of_key|exact Hin]. }
  pose proof (sorted_split _ _ _ Hss ia _ Hia Hib) as Hle. cbn beta in Hle.
  rewrite Eia in Hle, Hka. rewrite item_of_key in Hka. subst ka.
  rewrite !item_of_rank in Hle. exact Hle.
Qed.

(** ** The properties at concrete states *)

(** A value that is written is read back while it is fresh, and is gone
    once it has expired. *)
Example set_then_get :
  fst (@CacheManager.get json_stub 10 "k"
         (snd (@CacheManager.set json_stub 0 "k" (JNum 7) 1000 false "normal"
                 (cache_of [])))) = JNum 7 /\
  fst (@CacheManager.get json_stub 1001 "k"
         (snd (@CacheManager.set json_stub 0 "k" (JNum 7) 1000 false "normal"
                 (cache_of [])))) = JNull.
Proof. split; vm_compute; reflexivity. Qed.

(** A truthy result is cached: the second call within five minutes does not
    call the operation; a third call after the five minutes does. *)
Example second_call_is_cached :
  List.map (fun r => (outcome r, calls r))
    (fst (@invoke_all json_stub
            [call 0 "recipe" (always (Resolves (JObj "first") 10));
             call 1000 "recipe" (always (Resolves (JObj "second") 10));
             call 300000 "recipe" (always (Resolves (JObj "third") 10))]
            fresh_world))
  = [(inl (JObj "first"), 1%nat); (inl (JObj "first"), 0%nat);
     (inl (JObj "third"), 1%nat)].
Proof. vm_compute. reflexivity. Qed.

(** An operation that never settles is timed out at every attempt: four
    attempts of 5000 ms and waits of 1000, 2000 and 4000 ms. *)
Example timeouts_are_retried :
  outcome (@optimizeAPICall json_stub "slow" (always Never) default_options fresh_world)
  = inr TimeoutError /\
  calls (@optimizeAPICall json_stub "slow" (always Never) default_options fresh_world)
  = 4%nat /\
  delays (@optimizeAPICall json_stub "slow" (always Never) default_options fresh_world)
  = [1000; 2000; 4000] /\
  now (after (@optimizeAPICall json_stub "slow" (always Never) default_options
                fresh_world)) = 27000.
Proof. repeat split; vm_compute; reflexivity. Qed.

(** C1 fails as stated: with a valid entry cached for [Y] and the breaker of
    [Y] open within its cool-down, a call with the default options throws the
    breaker's error and does not return the cached value. *)
Lemma open_breaker_hides_cached_value :
  cacheEnabled default_options = true /\
  entry_at (api_key "Y") (cache world_Y)
  = Some (SEntry (entry (JStr "cached") 0 300000 "normal" 0)) /\
  now world_Y - 0 < 300000 /\
  circuitBreaker world_Y !! "Y" = Some (tripped 500) /\
  now world_Y - 500 < 60000 /\
  outcome (@optimizeAPICall json_stub "Y" (always (Resolves (JStr "fresh") 10))
             default_options world_Y)
  = inr (CircuitOpenError "Y") /\
  outcome (@optimizeAPICall json_stub "Y" (always (Resolves (JStr "fresh") 10))
             default_options world_Y)
  <> inl (JStr "cached").
Proof.
  repeat split; try (vm_compute; reflexivity).
  vm_compute. discriminate.
Qed.

Lemma open_breaker_comes_before_cache_witness :
  faulty (CacheManager.storage (cache world_Y)) = false /\
  entry_at (api_key "Y") (cache world_Y)
  = Some (SEntry (entry (JStr "cached") 0 300000 "normal" 0)) /\
  now world_Y - 0 <= 300000 /\
  @payload json_stub (entry (JStr "cached") 0 300000 "normal" 0) = JStr "cached" /\
  circuitBreaker world_Y !! "Y" = Some (tripped 500) /\
  now world_Y - 500 <= 60000 /\
  outcome (@optimizeAPICall json_stub "Y" (always Never) default_options world_Y)
  = inr (CircuitOpenError "Y") /\
  outcome (@optimizeAPICall json_stub "Y" (always Never) without_breaker world_Y)
  = inl (JStr "cached").
Proof.
  split; [reflexivity|]. split; [vm_compute; reflexivity|].
  split; [vm_compute; discriminate|]. split; [reflexivity|].
  split; [vm_compute; reflexivity|]. split; [vm_compute; discriminate|].
  split.
  - apply (@open_breaker_comes_before_cache json_stub "Y" (always Never)
             default_options world_Y (entry (JStr "cached") 0 300000 "normal" 0)
             (tripped 500));
      try reflexivity; vm_compute; discriminate.
  - apply (@open_breaker_comes_before_cache json_stub "Y" (always Never)
             without_breaker world_Y (entry (JStr "cached") 0 300000 "normal" 0)
             (tripped 500));
      try reflexivity; vm_compute; discriminate.
Defined.

Lemma breaker_trips_after_five_failures_witness :
  threshold (breaker_of fresh_world "X") = 5 /\
  cooldownTime (breaker_of fresh_world "X") = 60000 /\
  List.length five_failures = 5%nat /\
  Forall (guarded "X") five_failures /\
  Forall failed (fst (@invoke_all json_stub five_failures fresh_world)) /\
  outcome (@invoke json_stub (call 1000 "X" (always (Resolves (JObj "ok") 10)))
             (snd (@invoke_all json_stub five_failures fresh_world)))
  = inr (CircuitOpenError "X") /\
  calls (@invoke json_stub (call 1000 "X" (always (Resolves (JObj "ok") 10)))
           (snd (@invoke_all json_stub five_failures fresh_world)))
  = O.
Proof.
  assert (Hg : Forall (guarded "X") five_failures).
  { repeat constructor. }
  assert (Hf : Forall failed (fst (@invoke_all json_stub five_failures fresh_world))).
  { vm_compute. repeat constructor; eexists; reflexivity. }
  split; [reflexivity|]. split; [reflexivity|]. split; [reflexivity|].
  split; [exact Hg|]. split; [exact Hf|].
  apply (@breaker_trips_after_five_failures json_stub "X" five_failures
           (call 1000 "X" (always (Resolves (JObj "ok") 10))) fresh_world);
    try reflexivity; try assumption.
  - split; reflexivity.
  - vm_compute. discriminate.
Defined.

Lemma half_open_recovery_witness :
  circuitBreakerEnabled default_options = true /\
  circuitBreaker world_Z !! "Z" = Some (tripped 500) /\
  state (tripped 500) = open /\
  threshold (tripped 500) <= failureCount (tripped 500) /\
  now world_Z - lastFailTime (tripped 500) > cooldownTime (tripped 500) /\
  (exists b', circuitBreaker
                (after (@optimizeAPICall json_stub "Z"
                          (always (Resolves (JObj "ok") 10))
                          default_options world_Z)) !! "Z" = Some b' /\
              state b' = closed /\ failureCount b' = 0) /\
  (exists b', circuitBreaker
                (after (@optimizeAPICall json_stub "Z"
                          (always (Rejects "down" 10))
                          default_options world_Z)) !! "Z" = Some b' /\
              state b' = open /\ failureCount b' = 6 /\
              lastFailTime b' = 77040).
Proof.
  split; [reflexivity|]. split; [vm_compute; reflexivity|].
  split; [reflexivity|]. split; [vm_compute; discriminate|].
  split; [vm_compute; reflexivity|]. split.
  - destruct (@half_open_recovery json_stub "Z" (always (Resolves (JObj "ok") 10))
                default_options world_Z (tripped 500))
      as (_ & _ & _ & Hok & _);
      try reflexivity; try (vm_compute; reflexivity); try (vm_compute; discriminate).
    apply (Hok (JObj "ok")); [vm_compute; reflexivity|vm_compute; discriminate].
  - destruct (@half_open_recovery json_stub "Z" (always (Rejects "down" 10))
                default_options world_Z (tripped 500))
      as (_ & _ & _ & _ & Hko);
      try reflexivity; try (vm_compute; reflexivity); try (vm_compute; discriminate).
    destruct (Hko (OperationError "down")) as (b' & Hb' & Hs & Hfc & Hlt & _);
      [vm_compute; reflexivity|].
    exists b'. repeat split; assumption.
Defined.

Lemma rejection_restarts_cooldown_witness :
  circuitBreakerEnabled default_options = true /\
  outcome (@optimizeAPICall json_stub "Y" (always (Resolves (JStr "fresh") 10))
             default_options world_Y)
  = inr (CircuitOpenError "Y") /\
  circuitBreaker
    (after (@optimizeAPICall json_stub "Y" (always (Resolves (JStr "fresh") 10))
              default_options world_Y)) !! "Y"
  = Some {| failureCount := 6; lastFailTime := 1000; state := open;
            threshold := 5; cooldownTime := 60000 |}.
Proof.
  split; [reflexivity|].
  destruct (@rejection_restarts_cooldown json_stub "Y"
              (always (Resolves (JStr "fresh") 10)) default_options world_Y eq_refl)
    as (_ & Hrej & _).
  destruct (Hrej (tripped 500)) as (Ho & _ & _ & Hb);
    [vm_compute; reflexivity|reflexivity|vm_compute; discriminate|].
  split; [exact Ho|exact Hb].
Defined.

Lemma retry_with_backoff_witness :
  fst (check_breaker "R" default_options fresh_world) = false /\
  truthy (fst (@CacheManager.get json_stub (now fresh_world) (api_key "R")
                 (cache fresh_world))) = false /\
  outcome (@optimizeAPICall json_stub "R" fails_twice default_options fresh_world)
  = inl (JObj "recipe") /\
  calls (@optimizeAPICall json_stub "R" fails_twice default_options fresh_world)
  = 3%nat /\
  delays (@optimizeAPICall json_stub "R" fails_twice default_options fresh_world)
  = [1000; 2000] /\
  now (after (@optimizeAPICall json_stub "R" fails_twice default_options fresh_world))
  = 3030.
Proof.
  split; [vm_compute; reflexivity|]. split; [vm_compute; reflexivity|].
  destruct (@retry_with_backoff json_stub "R" fails_twice default_options fresh_world)
    as (_ & _ & _ & _ & _ & _ & _ & Hex).
  - vm_compute. reflexivity.
  - right. vm_compute. reflexivity.
  - destruct (Hex eq_refl (ex_intro _ (OperationError "busy") eq_refl)
                (ex_intro _ (OperationError "busy") eq_refl) (JObj "recipe") eq_refl)
      as (Ho & Hc & Hd & Hn).
    split; [exact Ho|]. split; [exact Hc|]. split; [exact Hd|]. exact Hn.
Defined.

(** C6 fails as stated at the boundary: an entry written at time 0 with a
    time to live of 1000 ms is still returned by a [get] at time 1000, when
    [now - createdAt < ttlMs] no longer holds. *)
Lemma entry_visible_at_ttl :
  entry_at "k" boundary_cache = Some (SEntry (entry (JStr "v") 0 1000 "normal" 0)) /\
  ~ (1000 - timestamp (entry (JStr "v") 0 1000 "normal" 0)
     < expireTime (entry (JStr "v") 0 1000 "normal" 0)) /\
  fst (@CacheManager.get json_stub 1000 "k" boundary_cache) = JStr "v" /\
  CacheManager.hits
    (CacheManager.stats (snd (@CacheManager.get json_stub 1000 "k" boundary_cache)))
  = 1 /\
  CacheManager.misses
    (CacheManager.stats (snd (@CacheManager.get json_stub 1000 "k" boundary_cache)))
  = 0 /\
  entry_at "k" (snd (@CacheManager.get json_stub 1000 "k" boundary_cache))
  = Some (SEntry (entry (JStr "v") 0 1000 "normal" 0)).
Proof.
  split; [vm_compute; reflexivity|]. split; [vm_compute; discriminate|].
  repeat split; vm_compute; reflexivity.
Qed.

Lemma cache_entry_expiry_witness :
  faulty (CacheManager.storage boundary_cache) = false /\
  entry_at "k" boundary_cache = Some (SEntry (entry (JStr "v") 0 1000 "normal" 0)) /\
  fst (@CacheManager.get json_stub 1001 "k" boundary_cache) = JNull /\
  entry_at "k" (snd (@CacheManager.get json_stub 1001 "k" boundary_cache)) = None.
Proof.
  split; [reflexivity|]. split; [vm_compute; reflexivity|].
  destruct (@cache_entry_expiry json_stub 1001 "k"
              (entry (JStr "v") 0 1000 "normal" 0) boundary_cache)
    as (_ & Hexpired); [reflexivity|vm_compute; reflexivity|].
  destruct Hexpired as (Hv & _ & _ & Hgone & _); [vm_compute; reflexivity|].
  split; [exact Hv|exact Hgone].
Defined.

Lemma eviction_by_priority_witness :
  faulty (CacheManager.storage mixed_cache) = false /\
  plain_priorities (CacheManager.storage mixed_cache) /\
  List.length (live_keys (CacheManager.storage mixed_cache)) = 10%nat /\
  Z.of_nat
    (List.length
       (List.map CacheManager.item_key
          (List.firstn 3 (@CacheManager.sorted_items json_stub
                            (CacheManager.storage mixed_cache))))) = 3 /\
  rank_le (rank (read (CacheManager.storage mixed_cache) (CacheManager.PREFIX +:+ "b")))
    (rank (read (CacheManager.storage mixed_cache) (CacheManager.PREFIX +:+ "c"))).
Proof.
  assert (Hplain : plain_priorities (CacheManager.storage mixed_cache)).
  { apply plain_priorities_check. vm_compute. reflexivity. }
  split; [reflexivity|]. split; [exact Hplain|]. split; [vm_compute; reflexivity|].
  destruct (@eviction_by_priority json_stub mixed_cache eq_refl)
    as (Hlen & _ & _ & _ & Horder & _).
  split; [exact Hlen|].
  apply (Horder Hplain).
  - vm_compute. right. right. left. reflexivity.
  - vm_compute. right. right. left. reflexivity.
  - vm_compute. intuition discriminate.
Defined.

(** The ten entries of [mixed_cache]: the three entries of low priority go,
    in the order of their access counts, and the value of another module
    stays. *)
Example eviction_of_mixed_cache :
  List.map CacheManager.item_key
    (List.firstn 3 (@CacheManager.sorted_items json_stub
                      (CacheManager.storage mixed_cache)))
  = [CacheManager.PREFIX +:+ "d"; CacheManager.PREFIX +:+ "g";
     CacheManager.PREFIX +:+ "b"] /\
  List.map fst
    (items (CacheManager.storage (@CacheManager.cleanupByPriority json_stub mixed_cache)))
  = [CacheManager.PREFIX +:+ "a"; "user_settings"; CacheManager.PREFIX +:+ "c";
     CacheManager.PREFIX +:+ "e"; CacheManager.PREFIX +:+ "f";
     CacheManager.PREFIX +:+ "h"; CacheManager.PREFIX +:+ "i";
     CacheManager.PREFIX +:+ "j"] /\
  CacheManager.removes
    (CacheManager.stats (@CacheManager.cleanupByPriority json_stub mixed_cache)) = 3.
Proof. repeat split; vm_compute; reflexivity. Qed.

(** A priority that is a name of [Object.prototype] has no number for a
    weight: the comparator returns NaN against any other priority, it is not
    consistent, and the order of the eviction is the engine's. *)
Example inherited_priority_is_not_a_number :
  CacheManager.priorityWeight "constructor" = CacheManager.WInherited "constructor" /\
  CacheManager.compare_items
    (CacheManager.item_of "p" (SEntry (entry (JNum 1) 0 1000 "constructor" 0)))
    (CacheManager.item_of "q" (SEntry (entry (JNum 2) 0 1000 "low" 0)))
  = None /\
  (forall E : Engine,
     @array_sort E _ CacheManager.compare_items
       [CacheManager.item_of "p" (SEntry (entry (JNum 1) 0 1000 "constructor" 0));
        CacheManager.item_of "q" (SEntry (entry (JNum 2) 0 1000 "low" 0))]
     = sort_inconsistent _ CacheManager.compare_items
         [CacheManager.item_of "p" (SEntry (entry (JNum 1) 0 1000 "constructor" 0));
          CacheManager.item_of "q" (SEntry (entry (JNum 2) 0 1000 "low" 0))]).
Proof. repeat split. Qed.

(** The average is a double.  After measurements of 100, 200 and 200 ms it
    is [5864062014805333 * 2^-45], the double nearest to 500/3, which prints
    as 166.66666666666666. *)
Example average_is_a_double :
  PerformanceMonitor.averageTime
    (PerformanceMonitor.stats
       (snd (timed "c" 300 200
               (snd (timed "b" 100 200
                       (snd (timed "a" 0 100
                               {| PerformanceMonitor.records := ∅;
                                  PerformanceMonitor.stats :=
                                    PerformanceMonitor.empty_stats |})))))))
  = S754_finite false 5864062014805333 (-45).
Proof. vm_compute. reflexivity. Qed.

Lemma monitor_running_average_witness :
  PerformanceMonitor.records started_a !! "a" = Some record_a /\
  fst (PerformanceMonitor.end_ 100 JUndefined "a" started_a) = 100 /\
  PerformanceMonitor.totalOperations
    (PerformanceMonitor.stats (snd (PerformanceMonitor.end_ 100 JUndefined "a" started_a)))
  = 1.
Proof.
  assert (Hrec : PerformanceMonitor.records started_a !! "a" = Some record_a).
  { vm_compute. reflexivity. }
  split; [exact Hrec|].
  destruct (monitor_running_average 100 JUndefined "a" started_a record_a Hrec)
    as (Hd & Hn & _).
  split; [exact Hd|exact Hn].
Defined.

Lemma falsy_results_are_never_cached_witness :
  @nothing_to_serve json_stub (api_key "N") (cache fresh_world) /\
  (forall b, circuitBreaker fresh_world !! "N" = Some b -> state b <> open) /\
  Forall (fun c => inv_name c = "N" /\ cacheEnabled (inv_options c) = true /\
                   falsy_result c) falsy_calls /\
  cache_sets (snd (@invoke_all json_stub falsy_calls fresh_world))
  = cache_sets fresh_world /\
  List.map calls (fst (@invoke_all json_stub falsy_calls fresh_world))
  = [1; 1; 1; 1]%nat.
Proof.
  assert (Hn : @nothing_to_serve json_stub (api_key "N") (cache fresh_world)).
  { split; intros v Hv; vm_compute in Hv; [discriminate|contradiction]. }
  assert (Hb : forall b, circuitBreaker fresh_world !! "N" = Some b -> state b <> open).
  { intros b Hb. vm_compute in Hb. discriminate. }
  assert (Hall : Forall (fun c => inv_name c = "N" /\
                                  cacheEnabled (inv_options c) = true /\
                                  falsy_result c) falsy_calls).
  { repeat constructor; eexists; split; vm_compute; reflexivity. }
  split; [exact Hn|]. split; [exact Hb|]. split; [exact Hall|].
  destruct (@falsy_results_are_never_cached json_stub "N" falsy_calls fresh_world
              Hn Hb Hall) as (_ & _ & Hsets & _).
  split; [exact Hsets|]. vm_compute. reflexivity.
Defined.

Lemma clear_idempotent_witness :
  faulty (CacheManager.storage mixed_cache) = false /\
  fst (CacheManager.clear mixed_cache) = true /\
  fst (CacheManager.clear (snd (CacheManager.clear mixed_cache))) = true /\
  no_cache_entries
    (items (CacheManager.storage (snd (CacheManager.clear mixed_cache)))).
Proof.
  split; [reflexivity|].
  destruct (clear_idempotent mixed_cache eq_refl) as (H1 & H2 & H3 & _).
  split; [exact H1|]. split; [exact H2|exact H3].
Defined.

(** * Further properties of the cache *)

Lemma alist_get_set_eq (k : string) (v : Stored) (l : list (string * Stored)) :
  alist_get k (alist_set k v l) = Some v.
Proof. rewrite alist_get_set, String.eqb_refl. reflexivity. Qed.

Lemma alist_get_set_ne (k k' : string) (v : Stored) (l : list (string * Stored)) :
  k <> k' -> alist_get k (alist_set k' v l) = alist_get k l.
Proof.
  intros Hne. rewrite alist_get_set.
  destruct (String.eqb_spec k k'); [contradiction|reflexivity].
Qed.

(** On a working storage [cleanupByPriority] leaves the storage working and
    touches neither the pending write-backs nor the counters of hits, misses
    and sets. *)
Lemma cleanupByPriority_frame `{Engine} (c : CacheManager.t) :
  faulty (CacheManager.storage c) = false ->
  faulty (CacheManager.storage (CacheManager.cleanupByPriority c)) = false /\
  CacheManager.deferred (CacheManager.cleanupByPriority c) = CacheManager.deferred c /\
  CacheManager.hits (CacheManager.stats (CacheManager.cleanupByPriority c))
  = CacheManager.hits (CacheManager.stats c) /\
  CacheManager.misses (CacheManager.stats (CacheManager.cleanupByPriority c))
  = CacheManager.misses (CacheManager.stats c) /\
  CacheManager.sets (CacheManager.stats (CacheManager.cleanupByPriority c))
  = CacheManager.sets (CacheManager.stats c).
Proof.
  intros Hf. unfold CacheManager.cleanupByPriority, getStorageInfoSync.
  rewrite Hf. cbn [info_keys].
  rewrite collect_items_working by exact Hf.
  set (l := List.firstn _ _).
  assert (Hdef : forall l c0, faulty (CacheManager.storage c0) = false ->
            forall c1, CacheManager.remove_items l c0 = Some c1 ->
            CacheManager.deferred c1 = CacheManager.deferred c0).
  { clear. induction l as [|it l IH]; intros c0 Hf c1 H1; cbn in H1.
    - congruence.
    - unfold removeStorageSync in H1. rewrite Hf in H1.
      apply IH in H1; [exact H1|exact Hf]. }
  destruct (remove_items_working l
              (CacheManager.with_storage (CacheManager.storage c) c))
    as (c' & Hc' & _ & Hf' & _ & Hh & Hm & Hs); [exact Hf|].
  rewrite Hc'.
  pose proof (Hdef l (CacheManager.with_storage (CacheManager.storage c) c)
                Hf c' Hc') as Hd.
  repeat split; assumption.
Qed.

(** What [set] does on a working storage: it returns [true], the entry is
    under its key, the storage still works and the pending write-backs are
    as before. *)
Lemma set_working `{Engine} (now : Z) (key : string) (d : JsVal) (expire : Z)
    (compress : bool) (prio : string) (c : CacheManager.t) :
  faulty (CacheManager.storage c) = false ->
  let r := CacheManager.set now key d expire compress prio c in
  fst r = true /\
  entry_at key (snd r) = Some (SEntry (written now d expire compress prio)) /\
  faulty (CacheManager.storage (snd r)) = false /\
  CacheManager.deferred (snd r) = CacheManager.deferred c /\
  CacheManager.sets (CacheManager.stats (snd r))
  = CacheManager.sets (CacheManager.stats c) + 1.
Proof.
  intros Hf r. subst r. unfold CacheManager.set.
  set (c1 := if CacheManager.checkStorageSpace c then c
             else CacheManager.cleanupByPriority c).
  assert (H1 : faulty (CacheManager.storage c1) = false /\
               CacheManager.deferred c1 = CacheManager.deferred c /\
               CacheManager.sets (CacheManager.stats c1)
               = CacheManager.sets (CacheManager.stats c)).
  { subst c1. destruct (CacheManager.checkStorageSpace c); [auto|].
    destruct (cleanupByPriority_frame c Hf) as (? & ? & _ & _ & ?). auto. }
  destruct H1 as (Hf1 & Hd1 & Hs1).
  unfold setStorageSync. rewrite Hf1. cbn.
  unfold entry_at. cbn. rewrite alist_get_set_eq.
  repeat split; try assumption; try reflexivity. rewrite Hs1. reflexivity.
Qed.


(** X2.  A storage whose calls throw never makes the cache throw: [set],
    [remove] and [clear] return [false] and change nothing, [get] returns
    [null] and counts a miss, and [cleanupByPriority] does nothing. *)
Theorem storage_failures_are_silent `{Engine} (now : Z) (key : string) (d : JsVal)
    (expire : Z) (compress : bool) (prio : string) (c : CacheManager.t) :
  faulty (CacheManager.storage c) = true ->
  CacheManager.set now key d expire compress prio c = (false, c) /\
  CacheManager.get now key c = (JNull, CacheManager.add_misses 1 c) /\
  CacheManager.remove key c = (false, c) /\
  CacheManager.clear c = (false, c) /\
  CacheManager.cleanupByPriority c = c.
Proof.
  intros Hf.
  unfold CacheManager.set, CacheManager.get, CacheManager.remove,
    CacheManager.clear, CacheManager.cleanupByPriority,
    CacheManager.checkStorageSpace, getStorageInfoSync, getStorageSync,
    setStorageSync, removeStorageSync.
  repeat (rewrite Hf; cbn [info_keys]). repeat split; reflexivity.
Qed.

(** X3.  When it returns, [get] has changed the storage only to purge the
    entry it was asked for: whatever the key holds, every other key reads as
    before, and no item appears that was not there.  (The write-back of a
    hit comes later, with the timers.) *)
Theorem get_touches_only_its_key `{Engine} (now : Z) (key : string)
    (c : CacheManager.t) :
  let c' := snd (CacheManager.get now key c) in
  (forall k, k <> CacheManager.PREFIX +:+ key ->
     alist_get k (items (CacheManager.storage c'))
     = alist_get k (items (CacheManager.storage c))) /\
  (forall kv, In kv (items (CacheManager.storage c')) ->
              In kv (items (CacheManager.storage c))) /\
  CacheManager.sets (CacheManager.stats c') = CacheManager.sets (CacheManager.stats c).
Proof.
  cbn zeta. unfold CacheManager.get, getStorageSync.
  destruct (faulty (CacheManager.storage c)) eqn:Hf; [cbn; auto|].
  destruct (alist_get (CacheManager.PREFIX +:+ key)
              (items (CacheManager.storage c))) as [[cd|v|v n la]|];
    cbn [stored_truthy negb].
  - destruct (now - timestamp cd >? expireTime cd); [|cbn; auto].
    unfold CacheManager.remove, removeStorageSync. rewrite Hf. cbn.
    split; [|split; [|reflexivity]].
    + intros k Hk. apply alist_get_remove_ne. exact Hk.
    + intros kv Hin. apply in_alist_remove in Hin. tauto.
  - destruct (truthy v); cbn; auto.
  - cbn. auto.
  - cbn. auto.
Qed.

(** X4.  With at most three entries in the cache [cleanupByPriority]
    removes nothing, since [floor(0.3 * N)] is zero: a [set] under storage
    pressure then frees no space. *)
Theorem small_cache_is_not_evicted `{Engine} (c : CacheManager.t) :
  faulty (CacheManager.storage c) = false ->
  (List.length (collected (CacheManager.storage c)
                  (cache_keys (CacheManager.storage c))) <= 3)%nat ->
  CacheManager.cleanupByPriority c = c.
Proof.
  intros Hf Hlen. unfold CacheManager.cleanupByPriority, getStorageInfoSync.
  rewrite Hf. cbn [info_keys]. fold (cache_keys (CacheManager.storage c)).
  rewrite collect_items_working by exact Hf. cbn [app].
  set (items0 := collected (CacheManager.storage c) (cache_keys (CacheManager.storage c))) in *.
  assert (Hn : CacheManager.deleteCount
                 (List.length (array_sort CacheManager.compare_items items0)) = O).
  { pose proof (Permutation_length
                  (array_sort_perm CacheManager.compare_items items0)) as Hp.
    rewrite <- Hp. unfold CacheManager.deleteCount.
    assert (H3 : 3 * Z.of_nat (List.length items0) / 10 = 0).
    { apply Z.div_small. lia. }
    rewrite H3. reflexivity. }
  rewrite Hn. cbn. destruct c; reflexivity.
Qed.

(** ** The write-backs of [get] *)

Lemma fold_setStorageSync_faulty (l : list (string * Stored)) (s : WxStorage) :
  faulty (List.fold_left
            (fun (s : WxStorage) (kv : string * Stored) =>
               match setStorageSync (fst kv) (snd kv) s with
               | Some s' => s'
               | None => s
               end) l s)
  = faulty s.
Proof.
  revert s. induction l as [|kv l IH]; intros s; cbn; [reflexivity|].
  rewrite IH. unfold setStorageSync. destruct (faulty s) eqn:E; cbn; congruence.
Qed.

(** On a working storage the last write-back scheduled for a key decides
    what the key holds once the write-backs have run. *)
Lemma run_deferred_last (c : CacheManager.t) (l : list (string * Stored))
    (k : string) (v : Stored) :
  faulty (CacheManager.storage c) = false ->
  CacheManager.deferred c = (l ++ [(k, v)])%list ->
  alist_get k (items (CacheManager.storage (CacheManager.run_deferred c))) = Some v /\
  faulty (CacheManager.storage (CacheManager.run_deferred c)) = false /\
  CacheManager.deferred (CacheManager.run_deferred c) = [] /\
  CacheManager.stats (CacheManager.run_deferred c) = CacheManager.stats c.
Proof.
  intros Hf Hd. unfold CacheManager.run_deferred. cbn [CacheManager.storage
    CacheManager.deferred CacheManager.stats].
  rewrite fold_setStorageSync_faulty. split; [|auto].
  rewrite Hd, fold_left_app. cbn [List.fold_left fst snd].
  unfold setStorageSync at 1. rewrite fold_setStorageSync_faulty, Hf.
  cbn. apply alist_get_set_eq.
Qed.

(** A hit on a fresh entry schedules the write-back of the touched entry
    and leaves the storage alone. *)
Lemma get_fresh_deferred `{Engine} (now : Z) (key : string) (cd : CacheData)
    (c : CacheManager.t) :
  faulty (CacheManager.storage c) = false ->
  entry_at key c = Some (SEntry cd) ->
  now - timestamp cd <= expireTime cd ->
  CacheManager.get now key c
  = (payload cd,
     CacheManager.add_hits 1
       {| CacheManager.storage := CacheManager.storage c;
          CacheManager.stats := CacheManager.stats c;
          CacheManager.deferred :=
            (CacheManager.deferred c
             ++ [(CacheManager.PREFIX +:+ key, SEntry (touched now cd))])%list |}).
Proof.
  intros Hf He Hfresh. unfold entry_at in He.
  unfold CacheManager.get, getStorageSync. rewrite Hf, He. cbn [stored_truthy negb].
  assert (Hgt : (now - timestamp cd >? expireTime cd) = false) by lia.
  rewrite Hgt. reflexivity.
Qed.

(** X5.  A [remove] made right after a hit does not last: the write-back
    that the hit has scheduled puts the entry back, with its access fields
    updated, when the timers run. *)
Theorem write_back_resurrects_removed_entry `{Engine} (now : Z) (key : string)
    (cd : CacheData) (c : CacheManager.t) :
  faulty (CacheManager.storage c) = false ->
  entry_at key c = Some (SEntry cd) ->
  now - timestamp cd <= expireTime cd ->
  let c1 := snd (CacheManager.get now key c) in
  let c2 := snd (CacheManager.remove key c1) in
  fst (CacheManager.remove key c1) = true /\
  entry_at key c2 = None /\
  entry_at key (CacheManager.run_deferred c2) = Some (SEntry (touched now cd)).
Proof.
  intros Hf He Hfresh c1 c2. subst c2 c1.
  rewrite (get_fresh_deferred now key cd c Hf He Hfresh). cbn [snd].
  unfold CacheManager.remove, removeStorageSync. cbn [CacheManager.storage
    CacheManager.add_hits CacheManager.with_stats]. rewrite Hf. cbn [fst snd].
  split; [reflexivity|]. split.
  - unfold entry_at. cbn. apply alist_get_remove_eq.
  - unfold entry_at.
    eapply (run_deferred_last _ (CacheManager.deferred c)); [exact Hf|reflexivity].
Qed.

(** X6.  A [set] made right after a hit on the same key is lost: when the
    timers run, the write-back of the hit replaces the new value with the
    old entry, and later reads return the old payload. *)
Theorem write_back_overwrites_newer_set `{Engine} (now now2 now3 : Z) (key : string)
    (cd : CacheData) (d2 : JsVal) (expire2 : Z) (compress2 : bool) (prio2 : string)
    (c : CacheManager.t) :
  faulty (CacheManager.storage c) = false ->
  entry_at key c = Some (SEntry cd) ->
  now - timestamp cd <= expireTime cd ->
  now3 - timestamp cd <= expireTime cd ->
  let c1 := snd (CacheManager.get now key c) in
  let c2 := snd (CacheManager.set now2 key d2 expire2 compress2 prio2 c1) in
  let c3 := CacheManager.run_deferred c2 in
  entry_at key c2 = Some (SEntry (written now2 d2 expire2 compress2 prio2)) /\
  entry_at key c3 = Some (SEntry (touched now cd)) /\
  fst (CacheManager.get now3 key c3) = payload cd.
Proof.
  intros Hf He Hfresh Hfresh3 c1 c2 c3.
  assert (Hc1 : faulty (CacheManager.storage c1) = false /\
                CacheManager.deferred c1
                = (CacheManager.deferred c
                   ++ [(CacheManager.PREFIX +:+ key, SEntry (touched now cd))])%list).
  { subst c1. rewrite (get_fresh_deferred now key cd c Hf He Hfresh). cbn. auto. }
  destruct Hc1 as [Hf1 Hd1].
  destruct (set_working now2 key d2 expire2 compress2 prio2 c1 Hf1)
    as (_ & He2 & Hf2 & Hd2 & _).
  fold c2 in He2, Hf2, Hd2. rewrite Hd1 in Hd2.
  destruct (run_deferred_last c2 _ _ _ Hf2 Hd2) as (He3 & Hf3 & _).
  fold c3 in He3, Hf3.
  split; [exact He2|]. split; [exact He3|].
  destruct (get_fresh now3 key (touched now cd) c3 Hf3 He3) as (Hv & _);
    [exact Hfresh3|].
  rewrite Hv. reflexivity.
Qed.

(** X7.  Two hits on an entry before the timers run count as one access:
    both write-backs carry the old count plus one, so the entry ends with
    one more access while the statistics count two hits. *)
Theorem two_reads_count_once `{Engine} (now now2 : Z) (key : string)
    (cd : CacheData) (c : CacheManager.t) :
  faulty (CacheManager.storage c) = false ->
  entry_at key c = Some (SEntry cd) ->
  now - timestamp cd <= expireTime cd ->
  now2 - timestamp cd <= expireTime cd ->
  let c1 := snd (CacheManager.get now key c) in
  let c2 := snd (CacheManager.get now2 key c1) in
  let c3 := CacheManager.run_deferred c2 in
  CacheManager.hits (CacheManager.stats c3)
  = CacheManager.hits (CacheManager.stats c) + 2 /\
  entry_at key c3 = Some (SEntry (touched now2 cd)) /\
  accessCount (touched now2 cd) = accessCount cd + 1.
Proof.
  intros Hf He Hfresh Hfresh2 c1 c2 c3. subst c3 c2 c1.
  rewrite (get_fresh_deferred now key cd c Hf He Hfresh). cbn [snd].
  rewrite (get_fresh_deferred now2 key cd) by assumption. cbn [snd].
  split; [cbn; lia|]. split; [|reflexivity].
  unfold entry_at.
  eapply (run_deferred_last _
            (CacheManager.deferred c
             ++ [(CacheManager.PREFIX +:+ key, SEntry (touched now cd))])%list);
    [exact Hf|reflexivity].
Qed.

(** * The purge of expired entries *)

Lemma read_remove_ne (s : WxStorage) (k k0 : string) :
  k0 <> k ->
  read (with_items (alist_remove k (items s)) s) k0 = read s k0.
Proof.
  intros Hne. unfold read. cbn. rewrite alist_get_remove_ne by exact Hne.
  reflexivity.
Qed.

Lemma cleanup_loop_working (now : Z) (keys : list string) (s : WxStorage) (n : Z) :
  faulty s = false ->
  exists s' n',
    PagePerformanceOptimizer.cleanup_loop now keys s n = Some (s', n') /\
    faulty s' = false /\
    n <= n' <= n + Z.of_nat (List.length keys) /\
    (forall kv, In kv (items s') <->
       In kv (items s) /\
       ~ (In (fst kv) keys /\
          PagePerformanceOptimizer.is_expired now (read s (fst kv)) = true)).
Proof.
  revert s n. induction keys as [|k keys IH]; intros s n Hf.
  - exists s, n. cbn. repeat split; try assumption; try lia; tauto.
  - cbn [PagePerformanceOptimizer.cleanup_loop].
    rewrite getStorageSync_working by exact Hf.
    destruct (PagePerformanceOptimizer.is_expired now (read s k)) eqn:Hexp.
    + unfold removeStorageSync. rewrite Hf.
      destruct (IH (with_items (alist_remove k (items s)) s) (n + 1) Hf)
        as (s' & n' & Hloop & Hf' & Hn & Hin).
      exists s', n'. split; [exact Hloop|]. split; [exact Hf'|].
      split; [cbn [List.length]; lia|].
      intros kv. rewrite Hin. cbn [items with_items]. rewrite in_alist_remove.
      split.
      * intros [[Hi Hne] Hno]. split; [exact Hi|].
        intros [[Heq|Hk] Hex]; [congruence|].
        apply Hno. split; [exact Hk|].
        rewrite read_remove_ne by exact Hne. exact Hex.
      * intros [Hi Hno].
        assert (Hne : fst kv <> k).
        { intros Heq. apply Hno. split; [left; congruence|]. rewrite Heq. exact Hexp. }
        split; [split; assumption|].
        intros [Hk Hex]. apply Hno. split; [right; exact Hk|].
        rewrite read_remove_ne in Hex by exact Hne. exact Hex.
    + destruct (IH s n Hf) as (s' & n' & Hloop & Hf' & Hn & Hin).
      exists s', n'. split; [exact Hloop|]. split; [exact Hf'|].
      split; [cbn [List.length]; lia|].
      intros kv. rewrite Hin. split.
      * intros [Hi Hno]. split; [exact Hi|].
        intros [[Heq|Hk] Hex]; [|apply Hno; auto].
        rewrite <- Heq in Hex. congruence.
      * intros [Hi Hno]. split; [exact Hi|].
        intros [Hk Hex]. apply Hno. split; [right; exact Hk|exact Hex].
Qed.

Lemma is_cache_key_prefixed (key : string) :
  CacheManager.is_cache_key (CacheManager.PREFIX +:+ key) = true.
Proof.
  unfold CacheManager.is_cache_key.
  generalize CacheManager.PREFIX as p.
  induction p as [|a p IH]; simpl; [destruct key; reflexivity|].
  destruct (Ascii.ascii_dec a a); [exact IH|congruence].
Qed.

(** X8.  On a working storage [cleanupExpiredCache] removes exactly the
    keys of the cache whose entry has a non-zero timestamp and is expired,
    by the test that [get] applies; every other item stays, and the count
    it logs is at most the number of cache keys. *)
Theorem cleanupExpiredCache_removes_the_expired (now : Z) (s : WxStorage) :
  faulty s = false ->
  let r := PagePerformanceOptimizer.cleanupExpiredCache now s in
  (forall kv, In kv (items (fst r)) <->
              In kv (items s) /\ stale now s (fst kv) = false) /\
  0 <= snd r <= Z.of_nat (List.length (cache_keys s)) /\
  faulty (fst r) = false /\
  (forall key cd,
     alist_get (CacheManager.PREFIX +:+ key) (items s) = Some (SEntry cd) ->
     timestamp cd <> 0 ->
     now - timestamp cd > expireTime cd ->
     alist_get (CacheManager.PREFIX +:+ key) (items (fst r)) = None).
Proof.
  intros Hf r. subst r. unfold PagePerformanceOptimizer.cleanupExpiredCache,
    getStorageInfoSync. rewrite Hf. cbn [info_keys]. fold (cache_keys s).
  destruct (cleanup_loop_working now (cache_keys s) s 0 Hf)
    as (s' & n' & Hloop & Hf' & Hn & Hin).
  rewrite Hloop. cbn [fst snd].
  assert (Hchar : forall kv, In kv (items s') <->
                    In kv (items s) /\ stale now s (fst kv) = false).
  { intros kv. rewrite Hin. unfold stale, cache_keys. split.
    - intros [Hi Hno]. split; [exact Hi|].
      destruct (CacheManager.is_cache_key (fst kv)) eqn:Hk; [|reflexivity].
      destruct (PagePerformanceOptimizer.is_expired now (read s (fst kv))) eqn:He;
        [|reflexivity].
      exfalso. apply Hno. split; [|reflexivity].
      apply filter_In. split; [|exact Hk]. apply in_map. exact Hi.
    - intros [Hi Hst]. split; [exact Hi|]. intros [Hk He].
      apply filter_In in Hk as [_ Hk]. rewrite Hk, He in Hst. discriminate. }
  split; [exact Hchar|]. split; [lia|]. split; [exact Hf'|].
  intros key cd He Hts Hexp.
  destruct (alist_get (CacheManager.PREFIX +:+ key) (items s')) as [v|] eqn:E;
    [|reflexivity].
  exfalso. apply alist_get_in in E. apply Hchar in E as [_ Hst]. cbn [fst] in Hst.
  unfold stale in Hst. rewrite is_cache_key_prefixed in Hst. cbn [andb] in Hst.
  unfold read in Hst. rewrite He in Hst. cbn in Hst.
  assert (H1 : (timestamp cd =? 0) = false) by lia.
  assert (H2 : (now - timestamp cd >? expireTime cd) = true) by lia.
  rewrite H1, H2 in Hst. discriminate.
Qed.

(** * Further properties of the monitor *)

Lemma slice_last_length {A : Type} (n : nat) (l : list A) :
  (List.length (slice_last n l) <= n)%nat.
Proof. unfold slice_last. rewrite length_skipn. lia. Qed.

Lemma Forall_slice_last {A : Type} (P : A -> Prop) (n : nat) (l : list A) :
  Forall P l -> Forall P (slice_last n l).
Proof.
  unfold slice_last. generalize (List.length l - n)%nat as k.
  intros k Hl. revert k. induction Hl as [|x l Hx Hl IH]; intros [|k]; cbn;
    try constructor; auto.
Qed.

Lemma bounded_push {A : Type} (P : A -> Prop) (n : nat) (l : list A) (x : A) :
  (List.length l <= n)%nat -> Forall P l -> P x ->
  let l' := (l ++ [x])%list in
  let r := if (n <? List.length l')%nat then slice_last n l' else l' in
  (List.length r <= n)%nat /\ Forall P r.
Proof.
  intros Hlen Hall Hx l' r.
  assert (Hall' : Forall P l').
  { subst l'. apply Forall_app. split; [exact Hall|]. constructor; [exact Hx|constructor]. }
  subst r. destruct (Nat.ltb_spec n (List.length l')) as [Hlt|Hge].
  - split; [apply slice_last_length|apply Forall_slice_last; exact Hall'].
  - split; [exact Hge|exact Hall'].
Qed.

Lemma end_keeps_lists_ok (now : Z) (mem : JsVal) (name : string)
    (m : PerformanceMonitor.t) :
  monitor_lists_ok (PerformanceMonitor.stats m) ->
  monitor_lists_ok (PerformanceMonitor.stats (snd (PerformanceMonitor.end_ now mem name m))).
Proof.
  intros (Hs & Hf & Has & Haf & Hn). unfold PerformanceMonitor.end_.
  destruct (PerformanceMonitor.records m !! name) as [record|];
    [|cbn; repeat split; assumption].
  set (d := now - PerformanceMonitor.startTime record).
  cbn [snd PerformanceMonitor.stats]. unfold monitor_lists_ok.
  cbn [PerformanceMonitor.slowOperations PerformanceMonitor.fastOperations
       PerformanceMonitor.totalOperations PerformanceMonitor.updateStats].
  assert (Hslow :
    let l := if d >? 5000
             then let l := (PerformanceMonitor.slowOperations (PerformanceMonitor.stats m)
                            ++ [{| PerformanceMonitor.op_name := name;
                                   PerformanceMonitor.op_duration := d;
                                   PerformanceMonitor.op_timestamp :=
                                     PerformanceMonitor.startTime record;
                                   PerformanceMonitor.op_metadata :=
                                     Some (PerformanceMonitor.metadata record) |}])%list in
                  if (20 <? List.length l)%nat then slice_last 20 l else l
             else PerformanceMonitor.slowOperations (PerformanceMonitor.stats m) in
    (List.length l <= 20)%nat /\
    Forall (fun o => PerformanceMonitor.op_duration o > 5000) l).
  { cbn zeta. destruct (Z.gtb_spec d 5000) as [Hgt|Hle]; [|auto].
    apply bounded_push; [exact Hs|exact Has|cbn; lia]. }
  assert (Hfast :
    let l := if d <? 1000
             then let l := (PerformanceMonitor.fastOperations (PerformanceMonitor.stats m)
                            ++ [{| PerformanceMonitor.op_name := name;
                                   PerformanceMonitor.op_duration := d;
                                   PerformanceMonitor.op_timestamp :=
                                     PerformanceMonitor.startTime record;
                                   PerformanceMonitor.op_metadata := None |}])%list in
                  if (50 <? List.length l)%nat then slice_last 50 l else l
             else PerformanceMonitor.fastOperations (PerformanceMonitor.stats m) in
    (List.length l <= 50)%nat /\
    Forall (fun o => PerformanceMonitor.op_duration o < 1000) l).
  { cbn zeta. destruct (Z.ltb_spec d 1000) as [Hlt|Hge]; [|auto].
    apply bounded_push; [exact Hf|exact Haf|cbn; lia]. }
  cbn zeta in Hslow, Hfast. destruct Hslow as [Hs1 Hs2]. destruct Hfast as [Hf1 Hf2].
  split; [exact Hs1|]. split; [exact Hf1|]. split; [exact Hs2|]. split; [exact Hf2|lia].
Qed.

(** X9.  Whatever calls of [start], [end] and [clear] are made on a cleared
    monitor, at whatever times, the list of slow operations holds at most 20
    entries, each longer than 5000 ms, and the list of fast operations at
    most 50, each shorter than 1000 ms. *)
Theorem monitor_lists_stay_bounded (mem : JsVal) (cs : list (Z * MonitorCall)) :
  monitor_lists_ok (PerformanceMonitor.stats (monitor_calls mem cs empty_monitor)).
Proof.
  unfold monitor_calls.
  assert (H0 : monitor_lists_ok (PerformanceMonitor.stats empty_monitor)).
  { cbn. unfold monitor_lists_ok. cbn. repeat split; try constructor; lia. }
  revert H0. generalize empty_monitor as m.
  induction cs as [|[t c] cs IH]; intros m Hm; cbn [List.fold_left]; [exact Hm|].
  apply IH. cbn [fst snd]. destruct c as [name meta|name|]; cbn [monitor_call].
  - exact Hm.
  - apply end_keeps_lists_ok. exact Hm.
  - cbn. unfold monitor_lists_ok. cbn. repeat split; try constructor; lia.
Qed.

Lemma end_matched (t : Z) (mem : JsVal) (name : string)
    (m : PerformanceMonitor.t) (record : PerformanceMonitor.Rec) :
  PerformanceMonitor.records m !! name = Some record ->
  exists record',
    fst (PerformanceMonitor.end_ t mem name m)
    = t - PerformanceMonitor.startTime record /\
    PerformanceMonitor.records (snd (PerformanceMonitor.end_ t mem name m)) !! name
    = Some record' /\
    PerformanceMonitor.startTime record' = PerformanceMonitor.startTime record /\
    PerformanceMonitor.totalOperations
      (PerformanceMonitor.stats (snd (PerformanceMonitor.end_ t mem name m)))
    = PerformanceMonitor.totalOperations (PerformanceMonitor.stats m) + 1.
Proof.
  intros Hrec. unfold PerformanceMonitor.end_. rewrite Hrec.
  cbn [fst snd PerformanceMonitor.records PerformanceMonitor.stats
       PerformanceMonitor.totalOperations PerformanceMonitor.updateStats].
  eexists. split; [reflexivity|]. split; [apply lookup_insert_eq|].
  split; reflexivity.
Qed.

(** X10.  [end] does not close the record: a second [end(name)] without a
    new [start] measures again from the same start and counts one more
    operation; and [end] after two [start]s of a name measures from the
    second one. *)
Theorem end_measures_from_the_latest_start (t1 t2 : Z) (mem : JsVal) (name : string)
    (m : PerformanceMonitor.t) (record : PerformanceMonitor.Rec) :
  PerformanceMonitor.records m !! name = Some record ->
  let r1 := PerformanceMonitor.end_ t1 mem name m in
  let r2 := PerformanceMonitor.end_ t2 mem name (snd r1) in
  fst r2 = t2 - PerformanceMonitor.startTime record /\
  PerformanceMonitor.totalOperations (PerformanceMonitor.stats (snd r2))
  = PerformanceMonitor.totalOperations (PerformanceMonitor.stats m) + 2 /\
  (forall s1 s2 meta1 meta2,
     fst (PerformanceMonitor.end_ t2 mem name
            (PerformanceMonitor.start s2 mem name meta2
               (PerformanceMonitor.start s1 mem name meta1 m))) = t2 - s2).
Proof.
  intros Hrec r1 r2.
  destruct (end_matched t1 mem name m record Hrec) as (rec1 & _ & Hrec1 & Hst1 & Hn1).
  fold r1 in Hrec1, Hn1.
  destruct (end_matched t2 mem name (snd r1) rec1 Hrec1) as (rec2 & Hd2 & _ & _ & Hn2).
  fold r2 in Hd2, Hn2.
  split; [rewrite Hd2, Hst1; reflexivity|]. split; [lia|].
  intros s1 s2 meta1 meta2. unfold PerformanceMonitor.end_, PerformanceMonitor.start.
  cbn [PerformanceMonitor.records]. rewrite lookup_insert_eq. reflexivity.
Qed.

(** * The page diagnosis *)

Lemma gtb_5000_3000 (x : Double.t) :
  Double.gtb x (Double.of_Z 5000) = true -> Double.gtb x (Double.of_Z 3000) = true.
Proof.
  unfold Double.gtb, SFltb.
  change (Double.of_Z 5000) with (S754_finite false 5497558138880000 (-40)).
  change (Double.of_Z 3000) with (S754_finite false 6597069766656000 (-41)).
  destruct x as [sx|sx| |sx mx ex]; cbn [SFcompare]; try discriminate.
  - intros Hx. exact Hx.
  - destruct sx; [discriminate|].
    destruct (Z.compare_spec (-40) ex) as [<-|Hlt|Hgt]; try discriminate.
    + intros _. reflexivity.
    + intros _.
      destruct (Z.compare_spec (-41) ex) as [Heq|Hlt'|Hgt']; first [lia|reflexivity].
Qed.

(** [x || 0] compares with a positive number as [x] does. *)
Lemma gtb_or_zero (x : Double.t) (m : positive) (e : Z) :
  Double.gtb (Double.or_zero x) (S754_finite false m e)
  = Double.gtb x (S754_finite false m e).
Proof. destruct x; reflexivity. Qed.

(** X11.  [diagnosePagePerformance] never reports the status critical nor
    the score 30: an average above 3000 ms is a warning with score 60, so
    the test for an average above 5000 ms is never reached with a value that
    passes it; any other average, NaN included, is good with score 90. *)
Theorem page_diagnosis_is_never_critical (m : PerformanceMonitor.t) :
  let d := SystemPerformanceDiagnostic.diagnosePagePerformance m in
  let avg := PerformanceMonitor.averageTime (PerformanceMonitor.stats m) in
  SystemPerformanceDiagnostic.status d <> SystemPerformanceDiagnostic.critical /\
  SystemPerformanceDiagnostic.score d <> 30 /\
  (Double.gtb avg (Double.of_Z 3000) = true ->
   SystemPerformanceDiagnostic.status d = SystemPerformanceDiagnostic.warning /\
   SystemPerformanceDiagnostic.score d = 60) /\
  (Double.gtb avg (Double.of_Z 3000) = false ->
   SystemPerformanceDiagnostic.status d = SystemPerformanceDiagnostic.good /\
   SystemPerformanceDiagnostic.score d = 90).
Proof.
  cbn zeta. unfold SystemPerformanceDiagnostic.diagnosePagePerformance.
  cbn [PerformanceMonitor.getStats PerformanceMonitor.report_stats].
  set (avg := PerformanceMonitor.averageTime (PerformanceMonitor.stats m)).
  change (Double.of_Z 3000) with (S754_finite false 6597069766656000 (-41)) in *.
  change (Double.of_Z 5000) with (S754_finite false 5497558138880000 (-40)) in *.
  rewrite !gtb_or_zero.
  change (S754_finite false 6597069766656000 (-41)) with (Double.of_Z 3000) in *.
  change (S754_finite false 5497558138880000 (-40)) with (Double.of_Z 5000) in *.
  destruct (Double.gtb avg (Double.of_Z 3000)) eqn:E3.
  - cbn. split; [discriminate|]. split; [discriminate|]. split.
    + intros _. split; reflexivity.
    + discriminate.
  - destruct (Double.gtb avg (Double.of_Z 5000)) eqn:E5.
    + apply gtb_5000_3000 in E5. congruence.
    + cbn. split; [discriminate|]. split; [discriminate|]. split.
      * discriminate.
      * intros _. split; reflexivity.
Qed.

(** * Further properties of the API wrapper *)

Lemma sleep_frame (ms : Z) (w : World) :
  apiMetrics (sleep ms w) = apiMetrics w /\
  monitor (sleep ms w) = monitor w /\
  memInfo (sleep ms w) = memInfo w.
Proof. unfold sleep. destruct (ms <=? 0); repeat split; reflexivity. Qed.

Lemma attempt_from_frame (f : ApiFunction) (t : Z) (remaining i : nat) (w : World) :
  apiMetrics (after (attempt_from f t remaining i w)) = apiMetrics w /\
  monitor (after (attempt_from f t remaining i w)) = monitor w /\
  memInfo (after (attempt_from f t remaining i w)) = memInfo w.
Proof.
  revert i w. induction remaining as [|n IH]; intros i w; cbn [attempt_from];
    destruct (race (f i) t) as [[v|e] ms]; cbn [after];
    try apply sleep_frame.
  destruct (IH (S i) (sleep (backoff i) (sleep ms w))) as (H1 & H2 & H3).
  destruct (sleep_frame (backoff i) (sleep ms w)) as (A1 & A2 & A3).
  destruct (sleep_frame ms w) as (B1 & B2 & B3).
  repeat split; congruence.
Qed.

Lemma race_elapsed_bound (s : Settle) (t : Z) : snd (race s t) <= Z.max 0 t.
Proof.
  destruct s as [v d|msg d|]; cbn; unfold settles_first;
    try (destruct (Z.leb_spec d 0); destruct (Z.ltb_spec d t); cbn; lia).
  lia.
Qed.

Lemma backoff_le (i : nat) : backoff i <= 5000.
Proof. unfold backoff. lia. Qed.

Lemma attempt_from_duration (f : ApiFunction) (t : Z) (remaining i : nat) (w : World) :
  let a := attempt_from f t remaining i w in
  now (after a)
  <= now w + Z.of_nat (calls a) * Z.max 0 t + 5000 * Z.of_nat (calls a - 1).
Proof.
  revert i w. induction remaining as [|n IH]; intros i w; cbn [attempt_from];
    pose proof (race_elapsed_bound (f i) t) as Hb;
    pose proof (race_elapsed (f i) t) as H0;
    destruct (race (f i) t) as [[v|e] ms]; cbn [after calls snd] in *;
    try (rewrite sleep_now; lia).
  specialize (IH (S i) (sleep (backoff i) (sleep ms w))). cbn zeta in IH.
  rewrite !sleep_now in IH. pose proof (backoff_le i). pose proof (backoff_pos i).
  set (rest := attempt_from f t n (S i) (sleep (backoff i) (sleep ms w))) in *.
  pose proof (attempt_from_spec f t n (S i) (sleep (backoff i) (sleep ms w))) as Hs.
  cbn zeta in Hs. destruct Hs as ([Hc _] & _). fold rest in Hc.
  replace (S (calls rest) - 1)%nat with (S (calls rest - 1)) by lia.
  nia.
Qed.

Lemma resetCircuitBreaker_frame (name : string) (w : World) :
  now (resetCircuitBreaker name w) = now w /\
  apiMetrics (resetCircuitBreaker name w) = apiMetrics w /\
  monitor (resetCircuitBreaker name w) = monitor w /\
  (forall n, n <> name ->
     circuitBreaker (resetCircuitBreaker name w) !! n = circuitBreaker w !! n).
Proof.
  unfold resetCircuitBreaker. destruct (circuitBreaker w !! name);
    repeat split; try reflexivity.
  intros n Hn. cbn. apply lookup_insert_ne. congruence.
Qed.

(** The three ways through [optimizeAPICall]: the breaker rejects the call,
    the cache answers it, or the operation is run.  [wb] is the world after
    the monitor record has been opened and the breaker checked. *)
Lemma optimizeAPICall_shape `{Engine} (name : string) (f : ApiFunction) (o : Options)
    (w : World) :
  exists wb,
    now wb = now w /\ cache wb = cache w /\ apiMetrics wb = apiMetrics w /\
    memInfo wb = memInfo w /\ monitor wb = monitor (started name w) /\
    (forall n, n <> name -> circuitBreaker wb !! n = circuitBreaker w !! n) /\
    ((fst (check_breaker name o w) = true /\
      optimizeAPICall name f o w
      = catch_block name o (now w) (CircuitOpenError name) O [] wb) \/
     (fst (check_breaker name o w) = false /\ cacheEnabled o = true /\
      truthy (fst (CacheManager.get (now w) (api_key name) (cache w))) = true /\
      optimizeAPICall name f o w
      = {| outcome := inl (fst (CacheManager.get (now w) (api_key name) (cache w)));
           calls := O; delays := [];
           after := with_cache
                      (snd (CacheManager.get (now w) (api_key name) (cache w))) wb |}) \/
     (fst (check_breaker name o w) = false /\
      exists wc,
        now wc = now w /\ apiMetrics wc = apiMetrics w /\ memInfo wc = memInfo w /\
        monitor wc = monitor (started name w) /\
        circuitBreaker wc = circuitBreaker wb /\
        cache wc
        = (if cacheEnabled o
           then snd (CacheManager.get (now w) (api_key name) (cache w))
           else cache w) /\
        optimizeAPICall name f o w = call_api name f o (now w) wc)).
Proof.
  unfold optimizeAPICall. fold (started name w).
  destruct (check_breaker_started name o w
              (PerformanceMonitor.start (now w) (memInfo w) (api_key name)
                 (JObj "{}") (monitor w))) as (Hf & Hn & Hc & _).
  fold (started name w) in Hf, Hn, Hc.
  assert (Hrest : apiMetrics (snd (check_breaker name o (started name w)))
                  = apiMetrics w /\
                  memInfo (snd (check_breaker name o (started name w))) = memInfo w /\
                  monitor (snd (check_breaker name o (started name w)))
                  = monitor (started name w) /\
                  (forall n, n <> name ->
                     circuitBreaker (snd (check_breaker name o (started name w))) !! n
                     = circuitBreaker w !! n)).
  { unfold check_breaker. destruct (circuitBreakerEnabled o);
      [|repeat split; reflexivity].
    rewrite isCircuitBreakerOpen_snd.
    destruct (circuitBreaker (started name w) !! name);
      repeat split; try reflexivity.
    intros n Hne. cbn. apply lookup_insert_ne. congruence. }
  destruct Hrest as (Ha & Hm & Hmo & Hcb).
  destruct (check_breaker name o (started name w)) as [isOpen wb].
  cbn [fst snd] in *. exists wb.
  split; [exact Hn|]. split; [exact Hc|]. split; [exact Ha|]. split; [exact Hm|].
  split; [exact Hmo|]. split; [exact Hcb|].
  rewrite <- Hf. destruct isOpen.
  - left. split; reflexivity.
  - right. rewrite Hn, Hc. destruct (cacheEnabled o) eqn:Ece.
    + destruct (CacheManager.get (now w) (api_key name) (cache w)) as [v c] eqn:Eg.
      cbn [fst snd]. destruct (truthy v) eqn:Et.
      * left. repeat split; reflexivity.
      * right. split; [reflexivity|]. exists (with_cache c wb).
        repeat split; try assumption; reflexivity.
    + right. split; [reflexivity|]. exists wb.
      repeat split; try assumption; reflexivity.
Qed.

Lemma last_skipn_snoc {A : Type} (l : list A) (m d : A) (k : nat) :
  (k <= List.length l)%nat -> List.last (List.skipn k (l ++ [m])) d = m.
Proof.
  revert k. induction l as [|x l IH]; intros k Hk.
  - destruct k; [reflexivity|cbn in Hk; lia].
  - destruct k as [|k].
    + cbn [List.skipn]. apply (List.last_last (x :: l) m d).
    + cbn [List.skipn app]. apply IH. cbn in Hk. lia.
Qed.

Lemma pushed_metric_spec (old : list Metric) (m : Metric) :
  (List.length (pushed_metric old m) <= 100)%nat /\
  List.last (pushed_metric old m) m = m /\
  (exists dropped, (old ++ [m])%list = (dropped ++ pushed_metric old m)%list).
Proof.
  unfold pushed_metric. cbn zeta.
  destruct (Nat.ltb_spec 100 (List.length (old ++ [m]))) as [Hlt|Hge].
  - split; [apply slice_last_length|]. unfold slice_last.
    rewrite length_app in *. cbn [List.length] in *.
    split.
    + apply last_skipn_snoc. lia.
    + exists (List.firstn (List.length old + 1 - 100) (old ++ [m])).
      symmetry. apply firstn_skipn.
  - split; [exact Hge|]. split; [apply List.last_last|]. exists []. reflexivity.
Qed.

(** What [call_api] leaves behind, next to the breaker and the cache: the
    clock of the retry loop and one more metric for the name. *)
Lemma call_api_after `{Engine} (name : string) (f : ApiFunction) (o : Options)
    (st : Z) (w : World) :
  let r := call_api name f o st w in
  let a := executeWithRetry f (retryCount o) (timeout o) w in
  now (after r) = now (after a) /\
  apiMetrics (after r)
  = <[name := pushed_metric (default [] (apiMetrics w !! name))
                {| responseTime := now (after a) - st;
                   success := match outcome a with inl _ => true | inr _ => false end;
                   error := match outcome a with inl _ => None | inr e => Some e end;
                   metric_timestamp := now (after a) |}]> (apiMetrics w) /\
  (forall n, n <> name -> circuitBreaker (after r) !! n = circuitBreaker w !! n).
Proof.
  unfold call_api, executeWithRetry.
  pose proof (attempt_from_circuitBreaker f (timeout o) (retryCount o) 0 w) as Hcb.
  destruct (attempt_from_frame f (timeout o) (retryCount o) 0 w) as (Ha & _ & _).
  destruct (attempt_from f (timeout o) (retryCount o) 0 w) as [[v|e] n ds w'];
    cbn [outcome calls delays after] in *.
  - destruct (resetCircuitBreaker_frame name
                (if cacheEnabled o && truthy v
                 then with_cache
                        (snd (CacheManager.set
                                (now (recordAPIMetrics name (now w' - st) true None
                                        (with_monitor
                                           (snd (PerformanceMonitor.end_ (now w')
                                                   (memInfo w') (api_key name)
                                                   (monitor w'))) w')))
                                (api_key name) v (5 * 60 * 1000) false "normal"
                                (cache (recordAPIMetrics name (now w' - st) true None
                                          (with_monitor
                                             (snd (PerformanceMonitor.end_ (now w')
                                                     (memInfo w') (api_key name)
                                                     (monitor w'))) w')))))
                        (recordAPIMetrics name (now w' - st) true None
                           (with_monitor
                              (snd (PerformanceMonitor.end_ (now w') (memInfo w')
                                      (api_key name) (monitor w'))) w'))
                 else recordAPIMetrics name (now w' - st) true None
                        (with_monitor
                           (snd (PerformanceMonitor.end_ (now w') (memInfo w')
                                   (api_key name) (monitor w'))) w')))
      as (Hn & Hm & _ & Hother).
    rewrite Hn, Hm. split; [|split].
    + destruct (cacheEnabled o && truthy v); reflexivity.
    + destruct (cacheEnabled o && truthy v); wsimpl; rewrite Ha; reflexivity.
    + intros k Hk. rewrite (Hother k Hk).
      destruct (cacheEnabled o && truthy v); wsimpl; rewrite Hcb; reflexivity.
  - unfold catch_block. cbn [after].
    destruct (circuitBreakerEnabled o); wsimpl; rewrite Ha;
      (split; [reflexivity|]); (split; [reflexivity|]); intros k Hk;
      rewrite ?lookup_insert_ne by congruence; rewrite Hcb; reflexivity.
Qed.

(** A call for one name leaves the breaker and the metrics of the other
    names as they are. *)
Lemma optimizeAPICall_other_names `{Engine} (name other : string)
    (f : ApiFunction) (o : Options) (w : World) :
  other <> name ->
  let r := optimizeAPICall name f o w in
  circuitBreaker (after r) !! other = circuitBreaker w !! other /\
  apiMetrics (after r) !! other = apiMetrics w !! other.
Proof.
  intros Hne r. subst r.
  destruct (optimizeAPICall_shape name f o w)
    as (wb & Hn & Hc & Ha & Hm & Hmo & Hcb &
        [[_ Hr]|[(_ & _ & _ & Hr)|(_ & wc & Hnc & Hac & _ & _ & Hcbc & _ & Hr)]]);
    rewrite Hr.
  - unfold catch_block. cbn [after].
    destruct (circuitBreakerEnabled o); wsimpl;
      rewrite ?lookup_insert_ne by congruence; rewrite Ha; auto.
  - cbn. rewrite Ha. auto.
  - destruct (call_api_after name f o (now w) wc) as (_ & Hmet & Hoth).
    rewrite Hmet, (Hoth other Hne), Hcbc, Hac.
    rewrite lookup_insert_ne by congruence. auto.
Qed.

(** X12.  A call for one name touches neither the breaker nor the metrics
    of any other name. *)
Theorem calls_leave_other_names_alone `{Engine} (name other : string)
    (f : ApiFunction) (o : Options) (w : World) :
  other <> name ->
  let r := optimizeAPICall name f o w in
  circuitBreaker (after r) !! other = circuitBreaker w !! other /\
  apiMetrics (after r) !! other = apiMetrics w !! other.
Proof.
  intros Hne. apply optimizeAPICall_other_names. exact Hne.
Qed.

(** X13.  A call that is answered from the cache records no metric and does
    not end the monitor record it has opened: the statistics of the monitor
    and the metrics of the API do not see it. *)
Theorem cache_hit_leaves_no_trace `{Engine} (name : string) (f : ApiFunction)
    (o : Options) (w : World) :
  let r := optimizeAPICall name f o w in
  cache_hit r = true ->
  apiMetrics (after r) = apiMetrics w /\
  PerformanceMonitor.stats (monitor (after r)) = PerformanceMonitor.stats (monitor w) /\
  PerformanceMonitor.records (monitor (after r)) !! api_key name
  = Some {| PerformanceMonitor.startTime := now w;
            PerformanceMonitor.endTime := None;
            PerformanceMonitor.duration := None;
            PerformanceMonitor.metadata := JObj "{}";
            PerformanceMonitor.memoryUsage := memInfo w;
            PerformanceMonitor.endMemoryUsage := None |} /\
  now (after r) = now w.
Proof.
  intros r Hhit. subst r. unfold cache_hit in Hhit.
  destruct (optimizeAPICall_shape name f o w)
    as (wb & Hn & Hc & Ha & Hm & Hmo & Hcb &
        [[_ Hr]|[(_ & _ & _ & Hr)|(_ & wc & _ & _ & _ & _ & _ & _ & Hr)]]);
    rewrite Hr in *.
  - cbn in Hhit. discriminate.
  - cbn. rewrite Ha, Hmo, Hn. repeat split; try reflexivity.
    unfold started. cbn. apply lookup_insert_eq.
  - pose proof (call_api_breaker name f o (now w) wc) as [Hcalls _].
    destruct (outcome (call_api name f o (now w) wc)); [|discriminate].
    destruct (calls (call_api name f o (now w) wc)); [lia|discriminate].
Qed.

(** X14.  Every call that is not answered from the cache, the rejected call
    included, records exactly one metric for its name: the metric is the
    last of the list, it carries the time the call took and how it ended,
    and the list holds at most a hundred metrics, the oldest being
    dropped. *)
Theorem every_run_records_one_metric `{Engine} (name : string) (f : ApiFunction)
    (o : Options) (w : World) :
  let r := optimizeAPICall name f o w in
  cache_hit r = false ->
  let l := pushed_metric (default [] (apiMetrics w !! name)) (metric_of w r) in
  apiMetrics (after r) !! name = Some l /\
  (List.length l <= 100)%nat /\
  List.last l (metric_of w r) = metric_of w r /\
  (exists dropped,
     (default [] (apiMetrics w !! name) ++ [metric_of w r])%list = (dropped ++ l)%list).
Proof.
  intros r Hmiss l.
  destruct (pushed_metric_spec (default [] (apiMetrics w !! name)) (metric_of w r))
    as (Hlen & Hlast & Hdrop).
  split; [|split; [exact Hlen|split; [exact Hlast|exact Hdrop]]].
  subst l. unfold metric_of. subst r. unfold cache_hit in Hmiss.
  destruct (optimizeAPICall_shape name f o w)
    as (wb & Hn & Hc & Ha & Hm & Hmo & Hcb &
        [[_ Hr]|[(_ & _ & _ & Hr)|(_ & wc & Hnc & Hac & _ & _ & Hcbc & _ & Hr)]]);
    rewrite Hr in *.
  - unfold catch_block. cbn [after outcome].
    destruct (circuitBreakerEnabled o); wsimpl; rewrite Ha, Hn;
      apply lookup_insert_eq.
  - cbn in Hmiss. discriminate.
  - destruct (call_api_after name f o (now w) wc) as (Hnow & Hmet & _).
    destruct (call_api_outcome name f o (now w) wc) as (Ho & _).
    rewrite Hmet, Hnow, Ho, Hac. apply lookup_insert_eq.
Qed.

(** The clock over a call: it does not go back, and it advances by at most
    the attempts and the waits. *)
Lemma optimizeAPICall_clock `{Engine} (name : string) (f : ApiFunction)
    (o : Options) (w : World) :
  let r := optimizeAPICall name f o w in
  now w <= now (after r) /\
  now (after r)
  <= now w + Z.of_nat (calls r) * Z.max 0 (timeout o)
     + 5000 * Z.of_nat (calls r - 1) /\
  now (after r)
  <= now w + (Z.of_nat (retryCount o) + 1) * Z.max 0 (timeout o)
     + 5000 * Z.of_nat (retryCount o) /\
  (calls r = O -> now (after r) = now w).
Proof.
  intros r.
  assert (Hmain : now w <= now (after r) /\
                  now (after r)
                  <= now w + Z.of_nat (calls r) * Z.max 0 (timeout o)
                     + 5000 * Z.of_nat (calls r - 1) /\
                  (calls r = O -> now (after r) = now w)).
  { subst r.
    destruct (optimizeAPICall_shape name f o w)
      as (wb & Hn & Hc & Ha & Hm & Hmo & Hcb &
          [[_ Hr]|[(_ & _ & _ & Hr)|(_ & wc & Hnc & _ & _ & _ & _ & _ & Hr)]]);
      rewrite Hr.
    - pose proof (catch_block_spec name o (now w) (CircuitOpenError name) O [] wb) as Hs.
      cbn zeta in Hs. destruct Hs as (_ & Hcalls & _ & Hnow & _).
      rewrite Hcalls, Hnow, Hn. cbn. lia.
    - cbn. rewrite Hn. lia.
    - destruct (call_api_after name f o (now w) wc) as (Hnow & _).
      destruct (call_api_outcome name f o (now w) wc) as (_ & Hcalls & _).
      rewrite Hnow, Hcalls. unfold executeWithRetry.
      pose proof (attempt_from_now f (timeout o) (retryCount o) 0 wc) as Hlo.
      pose proof (attempt_from_duration f (timeout o) (retryCount o) 0 wc) as Hhi.
      pose proof (attempt_from_spec f (timeout o) (retryCount o) 0 wc) as Hs.
      cbn zeta in Hhi, Hs. destruct Hs as ([Hc1 _] & _).
      rewrite Hnc in Hlo, Hhi. split; [exact Hlo|]. split; [exact Hhi|]. lia. }
  destruct Hmain as (Hlo & Hhi & Hzero).
  split; [exact Hlo|]. split; [exact Hhi|]. split; [|exact Hzero].
  pose proof (calls_bounded name f o w) as Hb. fold r in Hb.
  assert (0 <= Z.max 0 (timeout o)) by lia.
  nia.
Qed.

(** X15.  A call never moves the clock back and returns within the time of
    its attempts and waits: at most [timeout] for each attempt and 5000 ms
    for each wait, so at most [(retryCount + 1) * timeout + 5000 * retryCount]
    in all; a call that does not run the operation takes no time. *)
Theorem call_takes_bounded_time `{Engine} (name : string) (f : ApiFunction)
    (o : Options) (w : World) :
  let r := optimizeAPICall name f o w in
  now w <= now (after r) /\
  now (after r)
  <= now w + Z.of_nat (calls r) * Z.max 0 (timeout o)
     + 5000 * Z.of_nat (calls r - 1) /\
  now (after r)
  <= now w + (Z.of_nat (retryCount o) + 1) * Z.max 0 (timeout o)
     + 5000 * Z.of_nat (retryCount o) /\
  (calls r = O -> now (after r) = now w).
Proof.
  apply optimizeAPICall_clock.
Qed.

Lemma breaker_ok_later (t t' : Z) (b : Breaker) :
  t <= t' -> breaker_ok t b -> breaker_ok t' b.
Proof. unfold breaker_ok. intros Hle (H1 & H2 & H3 & H4). repeat split; auto; lia. Qed.

Lemma checked_ok (t t' : Z) (b : Breaker) :
  breaker_ok t' b -> breaker_ok t' (checked t b).
Proof.
  unfold breaker_ok, checked. intros (H1 & H2 & H3 & H4).
  destruct (state b) eqn:Es; try (rewrite Es; auto).
  destruct (cooled_down t b); cbn; [auto|rewrite Es; auto].
Qed.

Lemma bump_ok (t : Z) (b : Breaker) :
  threshold b = 5 -> cooldownTime b = 60000 ->
  match state b with
  | closed => 0 <= failureCount b < 5
  | open | half_open => 5 <= failureCount b
  end ->
  breaker_ok t (bump t b).
Proof.
  intros H1 H2 H4. unfold breaker_ok, bump. cbn. rewrite H1.
  split; [reflexivity|]. split; [exact H2|]. split; [lia|].
  destruct (Z.geb_spec (failureCount b + 1) 5); destruct (state b); lia.
Qed.

Lemma optimizeAPICall_keeps_registry_ok `{Engine} (name : string) (f : ApiFunction)
    (o : Options) (w : World) :
  registry_ok w -> registry_ok (after (optimizeAPICall name f o w)).
Proof.
  intros Hok n b Hb.
  destruct (optimizeAPICall_clock name f o w) as (Hmono & _).
  set (r := optimizeAPICall name f o w) in *.
  destruct (String.eqb_spec n name) as [->|Hne].
  - pose proof (optimizeAPICall_breaker name f o w) as Hbr. cbn zeta in Hbr.
    fold r in Hbr. rewrite Hb in Hbr.
    assert (Hchk : forall b0, breaker_ok (now w) b0 ->
              breaker_ok (now (after r))
                ((if circuitBreakerEnabled o then checked (now w) else id) b0)).
    { intros b0 H0. apply (breaker_ok_later (now w)); [exact Hmono|].
      destruct (circuitBreakerEnabled o); [apply checked_ok|]; exact H0. }
    destruct (outcome r) as [v|e].
    + destruct (calls r =? 0)%nat.
      * destruct (circuitBreaker w !! name) as [b0|] eqn:E0; [|discriminate].
        cbn in Hbr. injection Hbr as ->. apply Hchk. apply (Hok name). exact E0.
      * destruct (circuitBreaker w !! name) as [b0|] eqn:E0; [|discriminate].
        cbn in Hbr. injection Hbr as ->.
        destruct (Hok name b0 E0) as (H1 & H2 & H3 & _).
        unfold breaker_ok, reset. cbn. repeat split; auto; lia.
    + destruct (circuitBreakerEnabled o) eqn:Een.
      * injection Hbr as ->.
        assert (Hcfg : breaker_ok (now w) (checked (now w) (breaker_of w name)) \/
                       checked (now w) (breaker_of w name) = new_breaker).
        { unfold breaker_of. destruct (circuitBreaker w !! name) as [b0|] eqn:E0; cbn.
          - left. apply checked_ok. apply (Hok name). exact E0.
          - right. reflexivity. }
        destruct Hcfg as [(H1 & H2 & _ & H4)|Hnew].
        -- apply bump_ok; assumption.
        -- rewrite Hnew. apply bump_ok; cbn; auto; lia.
      * apply (breaker_ok_later (now w)); [exact Hmono|].
        apply (Hok name). congruence.
  - destruct (optimizeAPICall_other_names name n f o w Hne) as [Hcb _].
    fold r in Hcb. apply (breaker_ok_later (now w)); [exact Hmono|].
    apply (Hok n). congruence.
Qed.

(** X16.  The registry of breakers keeps its invariant over any sequence of
    calls, whatever their options and outcomes: every breaker has the
    threshold 5 and the cool-down 60000, its last failure is not in the
    future, a closed breaker has counted fewer than five failures and an
    open or half-open one at least five. *)
Theorem breaker_registry_invariant `{Engine} (l : list Invocation) (w : World) :
  registry_ok w -> registry_ok (snd (invoke_all l w)).
Proof.
  revert w. induction l as [|c l IH]; intros w Hok; [exact Hok|].
  cbn [invoke_all].
  assert (Hstep : registry_ok (after (invoke c w))).
  { unfold invoke. apply optimizeAPICall_keeps_registry_ok.
    intros n b Hb. rewrite sleep_circuitBreaker in Hb.
    apply (breaker_ok_later (now w)); [rewrite sleep_now; lia|].
    apply (Hok n). exact Hb. }
  specialize (IH (after (invoke c w)) Hstep).
  destruct (invoke_all l (after (invoke c w))) as [rs w']. exact IH.
Qed.

(** X17.  A call made with the breaker disabled neither counts a failure
    nor opens the breaker of its name, and it is never rejected; but a
    result of its operation still resets the breaker to closed. *)
Theorem disabled_breaker_can_close_but_not_open `{Engine} (name : string)
    (f : ApiFunction) (o : Options) (w : World) :
  circuitBreakerEnabled o = false ->
  let r := optimizeAPICall name f o w in
  outcome r <> inr (CircuitOpenError name) /\
  (failed r -> circuitBreaker (after r) !! name = circuitBreaker w !! name) /\
  (cache_hit r = true -> circuitBreaker (after r) !! name = circuitBreaker w !! name) /\
  (forall v, outcome r = inl v -> calls r <> O ->
     circuitBreaker (after r) !! name = reset <$> (circuitBreaker w !! name)).
Proof.
  intros Hen r.
  pose proof (optimizeAPICall_breaker name f o w) as Hbr. cbn zeta in Hbr.
  fold r in Hbr. rewrite Hen in Hbr.
  split; [|split; [|split]].
  - apply let_through_not_circuit_open. rewrite check_breaker_fst, Hen. reflexivity.
  - intros [e He]. rewrite He in Hbr. exact Hbr.
  - unfold cache_hit. intros Hhit. destruct (outcome r); [|discriminate].
    destruct (calls r); [|discriminate]. cbn in Hbr. rewrite Hbr.
    destruct (circuitBreaker w !! name); reflexivity.
  - intros v Hv Hc. rewrite Hv in Hbr. destruct (calls r); [congruence|exact Hbr].
Qed.

(** * A result that is cached serves the next calls *)

Lemma run_deferred_idle (c : CacheManager.t) :
  CacheManager.deferred c = [] -> CacheManager.run_deferred c = c.
Proof.
  intros Hd. unfold CacheManager.run_deferred. rewrite Hd. cbn.
  destruct c; cbn in *. subst. reflexivity.
Qed.

Lemma sleep_cache_idle (ms : Z) (w : World) :
  CacheManager.deferred (cache w) = [] -> cache (sleep ms w) = cache w.
Proof.
  intros Hd. unfold sleep. destruct (ms <=? 0); [reflexivity|].
  cbn. apply run_deferred_idle. exact Hd.
Qed.

Lemma attempt_from_cache_idle (f : ApiFunction) (t : Z) (remaining i : nat) (w : World) :
  CacheManager.deferred (cache w) = [] ->
  cache (after (attempt_from f t remaining i w)) = cache w.
Proof.
  revert i w. induction remaining as [|n IH]; intros i w Hd; cbn [attempt_from];
    destruct (race (f i) t) as [[v|e] ms]; cbn [after];
    try (apply sleep_cache_idle; exact Hd).
  assert (H1 : cache (sleep ms w) = cache w) by (apply sleep_cache_idle; exact Hd).
  assert (H2 : cache (sleep (backoff i) (sleep ms w)) = cache w).
  { rewrite sleep_cache_idle; [exact H1|]. rewrite H1. exact Hd. }
  rewrite IH; [exact H2|]. rewrite H2. exact Hd.
Qed.

Lemma get_absent `{Engine} (now : Z) (key : string) (c : CacheManager.t) :
  faulty (CacheManager.storage c) = false ->
  entry_at key c = None ->
  CacheManager.get now key c = (JNull, CacheManager.add_misses 1 c).
Proof.
  intros Hf He. unfold entry_at in He. unfold CacheManager.get, getStorageSync.
  rewrite Hf, He. reflexivity.
Qed.

(** A truthy result of the operation is written to the cache, with the time
    the call ended and a time to live of five minutes. *)
Lemma call_api_caches `{Engine} (name : string) (f : ApiFunction) (o : Options)
    (st : Z) (w : World) (v : JsVal) :
  let r := call_api name f o st w in
  let a := executeWithRetry f (retryCount o) (timeout o) w in
  outcome a = inl v -> cacheEnabled o = true -> truthy v = true ->
  cache (after r)
  = snd (CacheManager.set (now (after a)) (api_key name) v (5 * 60 * 1000) false
           "normal" (cache (after a))).
Proof.
  unfold call_api. intros Ho Hce Ht. rewrite Ho, Hce, Ht. cbn [andb after].
  rewrite resetCircuitBreaker_cache. reflexivity.
Qed.

(** X18.  When a call with the cache in use has run the operation and got a
    truthy result, the next call for the name that is made within five
    minutes returns that result without calling its operation, whatever the
    operation would do.  The storage must work and hold no pending
    write-back. *)
Theorem truthy_result_is_served_from_cache `{Engine} (name : string)
    (f1 f2 : ApiFunction) (o1 o2 : Options) (w : World) (v : JsVal) (gap : Z) :
  faulty (CacheManager.storage (cache w)) = false ->
  entry_at (api_key name) (cache w) = None ->
  CacheManager.deferred (cache w) = [] ->
  cacheEnabled o1 = true ->
  cacheEnabled o2 = true ->
  let r1 := optimizeAPICall name f1 o1 w in
  outcome r1 = inl v ->
  truthy v = true ->
  gap <= 5 * 60 * 1000 ->
  let r2 := optimizeAPICall name f2 o2 (sleep gap (after r1)) in
  outcome r2 = inl v /\ calls r2 = O /\
  entry_at (api_key name) (cache (after r1))
  = Some (SEntry (written (now (after r1)) v (5 * 60 * 1000) false "normal")).
Proof.
  intros Hf He Hd Hc1 Hc2 r1 Ho Ht Hgap r2.
  assert (Hget : CacheManager.get (now w) (api_key name) (cache w)
                 = (JNull, CacheManager.add_misses 1 (cache w))).
  { apply get_absent; assumption. }
  (* the first call has run the operation *)
  assert (H1 : (calls r1 <> O) /\
               cache (after r1)
               = snd (CacheManager.set (now (after r1)) (api_key name) v
                        (5 * 60 * 1000) false "normal"
                        (CacheManager.add_misses 1 (cache w)))).
  { subst r1.
    destruct (optimizeAPICall_shape name f1 o1 w)
      as (wb & Hn & Hc & Ha & Hm & Hmo & Hcb &
          [[_ Hr]|[(_ & _ & Htr & _)|(_ & wc & Hnc & _ & _ & _ & _ & Hcache & Hr)]]).
    - rewrite Hr in Ho. unfold catch_block in Ho. cbn in Ho. discriminate.
    - rewrite Hget in Htr. cbn in Htr. discriminate.
    - rewrite Hr in *.
      assert (Hcw : cache wc = CacheManager.add_misses 1 (cache w)).
      { rewrite Hcache, Hc1, Hget. reflexivity. }
      pose proof (call_api_breaker name f1 o1 (now w) wc) as [Hcalls _].
      destruct (call_api_outcome name f1 o1 (now w) wc) as (Hout & _).
      destruct (call_api_after name f1 o1 (now w) wc) as (Hnow & _).
      rewrite Hout in Ho.
      rewrite (call_api_caches name f1 o1 (now w) wc v Ho Hc1 Ht).
      unfold executeWithRetry. rewrite attempt_from_cache_idle.
      + rewrite Hnow, Hcw. split; [lia|reflexivity].
      + rewrite Hcw. cbn. exact Hd. }
  destruct H1 as [Hcalls Hcache].
  destruct (set_working (now (after r1)) (api_key name) v (5 * 60 * 1000) false
              "normal" (CacheManager.add_misses 1 (cache w)))
    as (_ & Hentry & Hfaulty & Hdef & _); [exact Hf|].
  rewrite <- Hcache in Hentry, Hfaulty, Hdef. cbn in Hdef. rewrite Hd in Hdef.
  (* the breaker of the name does not reject the second call *)
  pose proof (optimizeAPICall_breaker name f1 o1 w) as Hbr. cbn zeta in Hbr.
  fold r1 in Hbr. rewrite Ho in Hbr.
  destruct (calls r1) as [|n] eqn:En; [congruence|]. cbn [Nat.eqb] in Hbr.
  set (w2 := sleep gap (after r1)) in *.
  assert (Hchk : fst (check_breaker name o2 w2) = false).
  { rewrite check_breaker_fst. subst w2. rewrite sleep_circuitBreaker, Hbr.
    destruct (circuitBreaker w !! name); cbn; apply andb_false_r. }
  assert (Hcache2 : cache w2 = cache (after r1)).
  { subst w2. apply sleep_cache_idle. exact Hdef. }
  assert (Hnow2 : now w2 - now (after r1) <= 5 * 60 * 1000).
  { subst w2. rewrite sleep_now. lia. }
  destruct (get_fresh (now w2) (api_key name)
              (written (now (after r1)) v (5 * 60 * 1000) false "normal") (cache w2))
    as (Hv & _); [rewrite Hcache2; exact Hfaulty|rewrite Hcache2; exact Hentry|
                  exact Hnow2|].
  cbn [payload written compressed data] in Hv.
  destruct (optimizeAPICall_cached name f2 o2 w2 Hchk Hc2) as (Ho2 & Hcalls2 & _).
  { rewrite Hv. exact Ht. }
  fold r2 in Ho2, Hcalls2. rewrite Hv in Ho2.
  split; [exact Ho2|]. split; [exact Hcalls2|exact Hentry].
Qed.

(** * [throttle] and [debounce] *)

Lemma throttle_runs_spaced (delay : Z) (times : list Z) (lastTime : Z) :
  spaced delay lastTime (throttle_runs delay times lastTime) /\
  sublist (throttle_runs delay times lastTime) times.
Proof.
  revert lastTime. induction times as [|t times IH]; intros lastTime; cbn.
  - split; [exact I|constructor].
  - unfold throttle. destruct (t - lastTime >=? delay) eqn:E.
    + destruct (IH t) as [Hs Hl]. split.
      * cbn. split; [lia|exact Hs].
      * apply sublist_skip. exact Hl.
    + destruct (IH lastTime) as [Hs Hl]. split; [exact Hs|].
      apply sublist_cons. exact Hl.
Qed.

Lemma last_nonempty {A : Type} (z : A) (l : list A) (d d' : A) :
  List.last (z :: l) d = List.last (z :: l) d'.
Proof.
  revert z. induction l as [|y l IH]; intros z; [reflexivity|].
  change (List.last (y :: l) d = List.last (y :: l) d'). apply IH.
Qed.

Lemma last_cons_default {A : Type} (x : A) (l : list A) (d : A) :
  List.last (x :: l) d = List.last l x.
Proof.
  destruct l as [|z l]; [reflexivity|].
  change (List.last (z :: l) d = List.last (z :: l) x). apply last_nonempty.
Qed.

Lemma throttle_runs_snoc (delay : Z) (times : list Z) (lastTime t : Z) :
  t - List.last (throttle_runs delay times lastTime) lastTime >= delay ->
  throttle_runs delay (times ++ [t]) lastTime
  = (throttle_runs delay times lastTime ++ [t])%list.
Proof.
  revert lastTime. induction times as [|t' times IH]; intros lastTime Ht.
  - cbn in *. unfold throttle.
    destruct (Z.geb_spec (t - lastTime) delay) as [_|Hlt]; [reflexivity|lia].
  - cbn [throttle_runs app] in *. unfold throttle in *.
    destruct (t' - lastTime >=? delay).
    + cbn [app]. f_equal. apply IH.
      destruct (throttle_runs delay times t') as [|z l]; [exact Ht|].
      rewrite (last_nonempty z l t' lastTime). exact Ht.
    + apply IH. exact Ht.
Qed.

(** X19.  A throttled function runs only at times of its calls, in their
    order, and two runs are never less than [delay] apart, whatever the times
    of the calls; a call that comes [delay] or more after the latest run
    does run. *)
Theorem throttle_keeps_runs_apart (delay : Z) (times : list Z) :
  let runs := throttle_runs delay times 0 in
  sublist runs times /\ spaced delay 0 runs /\
  (forall t, t - List.last runs 0 >= delay ->
             throttle_runs delay (times ++ [t]) 0 = (runs ++ [t])%list).
Proof.
  cbn zeta. destruct (throttle_runs_spaced delay times 0) as [Hs Hl].
  split; [exact Hl|]. split; [exact Hs|].
  intros t Ht. apply throttle_runs_snoc. exact Ht.
Qed.

Lemma debounce_runs_burst {Args : Type} (delay : Z) (calls : list (Z * Args))
    (horizon t : Z) (args : Args) :
  burst delay t calls ->
  List.last (List.map fst calls) t + Z.max 0 delay <= horizon ->
  debounce_runs delay calls horizon (Some (t + Z.max 0 delay, args))
  = [(List.last (List.map fst calls) t + Z.max 0 delay,
      List.last (List.map snd calls) args)].
Proof.
  revert t args. induction calls as [|[t' a'] calls IH]; intros t args Hb Hh.
  - cbn in *. destruct (t + Z.max 0 delay <=? horizon) eqn:E; [reflexivity|lia].
  - cbn [burst] in Hb. destruct Hb as [Hlt Hb].
    cbn [debounce_runs timer_fires].
    destruct (t' <=? t + Z.max 0 delay) eqn:E.
    + assert (Hle : (t + Z.max 0 delay <=? t') = false) by lia.
      rewrite Hle. cbn [app]. unfold debounce.
      assert (Hl1 : List.last (List.map fst ((t', a') :: calls)) t
                    = List.last (List.map fst calls) t').
      { cbn [List.map fst]. apply last_cons_default. }
      assert (Hl2 : List.last (List.map snd ((t', a') :: calls)) args
                    = List.last (List.map snd calls) a').
      { cbn [List.map snd]. apply last_cons_default. }
      rewrite Hl1, Hl2 in *. apply IH; assumption.
    + lia.
Qed.

(** X20.  A debounced function that is called in a burst, each call before
    the timer of the call before it is due, runs its function once: with the
    arguments of the last call, [delay] milliseconds after it (at once for a
    delay that is not positive). *)
Theorem debounce_runs_once_after_a_burst {Args : Type} (delay : Z) (t : Z)
    (args : Args) (calls : list (Z * Args)) (horizon : Z) :
  burst delay t calls ->
  List.last (List.map fst calls) t + Z.max 0 delay <= horizon ->
  debounce_runs delay ((t, args) :: calls) horizon None
  = [(List.last (List.map fst calls) t + Z.max 0 delay,
      List.last (List.map snd calls) args)].
Proof.
  intros Hb Hh. cbn [debounce_runs timer_fires app]. unfold debounce.
  apply debounce_runs_burst; assumption.
Qed.

(** * The further properties at concrete states *)


Lemma storage_failures_are_silent_witness :
  faulty (CacheManager.storage broken_cache) = true /\
  @CacheManager.get json_stub 5 "k" broken_cache
  = (JNull, CacheManager.add_misses 1 broken_cache) /\
  CacheManager.clear broken_cache = (false, broken_cache).
Proof.
  split; [reflexivity|].
  destruct (@storage_failures_are_silent json_stub 5 "k" (JStr "w") 1000 false
              "normal" broken_cache eq_refl) as (_ & Hget & _ & Hclear & _).
  split; [exact Hget|exact Hclear].
Defined.

Lemma small_cache_is_not_evicted_witness :
  faulty (CacheManager.storage boundary_cache) = false /\
  @CacheManager.cleanupByPriority json_stub boundary_cache = boundary_cache.
Proof.
  split; [reflexivity|].
  apply (@small_cache_is_not_evicted json_stub boundary_cache); [reflexivity|].
  vm_compute. lia.
Defined.

Lemma write_back_resurrects_removed_entry_witness :
  entry_at "k" boundary_cache = Some (SEntry (entry (JStr "v") 0 1000 "normal" 0)) /\
  entry_at "k"
    (snd (CacheManager.remove "k" (snd (@CacheManager.get json_stub 10 "k" boundary_cache))))
  = None /\
  entry_at "k"
    (CacheManager.run_deferred
       (snd (CacheManager.remove "k"
               (snd (@CacheManager.get json_stub 10 "k" boundary_cache)))))
  = Some (SEntry (touched 10 (entry (JStr "v") 0 1000 "normal" 0))).
Proof.
  split; [vm_compute; reflexivity|].
  destruct (@write_back_resurrects_removed_entry json_stub 10 "k"
              (entry (JStr "v") 0 1000 "normal" 0) boundary_cache)
    as (_ & Hgone & Hback);
    [reflexivity|vm_compute; reflexivity|vm_compute; discriminate|].
  split; [exact Hgone|exact Hback].
Defined.

Lemma write_back_overwrites_newer_set_witness :
  entry_at "k" boundary_cache = Some (SEntry (entry (JStr "v") 0 1000 "normal" 0)) /\
  fst (@CacheManager.get json_stub 30 "k"
         (CacheManager.run_deferred
            (snd (@CacheManager.set json_stub 20 "k" (JStr "new") 1000 false "normal"
                    (snd (@CacheManager.get json_stub 10 "k" boundary_cache))))))
  = JStr "v".
Proof.
  split; [vm_compute; reflexivity|].
  destruct (@write_back_overwrites_newer_set json_stub 10 20 30 "k"
              (entry (JStr "v") 0 1000 "normal" 0) (JStr "new") 1000 false "normal"
              boundary_cache)
    as (_ & _ & Hold);
    [reflexivity|vm_compute; reflexivity|vm_compute; discriminate|
     vm_compute; discriminate|].
  exact Hold.
Defined.

Lemma two_reads_count_once_witness :
  entry_at "k" boundary_cache = Some (SEntry (entry (JStr "v") 0 1000 "normal" 0)) /\
  entry_at "k"
    (CacheManager.run_deferred
       (snd (@CacheManager.get json_stub 20 "k"
               (snd (@CacheManager.get json_stub 10 "k" boundary_cache)))))
  = Some (SEntry (touched 20 (entry (JStr "v") 0 1000 "normal" 0))) /\
  accessCount (touched 20 (entry (JStr "v") 0 1000 "normal" 0)) = 1.
Proof.
  split; [vm_compute; reflexivity|].
  destruct (@two_reads_count_once json_stub 10 20 "k"
              (entry (JStr "v") 0 1000 "normal" 0) boundary_cache)
    as (_ & Hentry & Hcount);
    [reflexivity|vm_compute; reflexivity|vm_compute; discriminate|
     vm_compute; discriminate|].
  split; [exact Hentry|exact Hcount].
Defined.

Lemma cleanupExpiredCache_removes_the_expired_witness :
  faulty aged_storage = false /\
  alist_get (CacheManager.PREFIX +:+ "old")
    (items (fst (PagePerformanceOptimizer.cleanupExpiredCache 5500 aged_storage)))
  = None /\
  0 <= snd (PagePerformanceOptimizer.cleanupExpiredCache 5500 aged_storage) <= 2.
Proof.
  split; [reflexivity|].
  destruct (cleanupExpiredCache_removes_the_expired 5500 aged_storage eq_refl)
    as (_ & Hcount & _ & Hgone).
  split; [|exact Hcount].
  apply (Hgone "old" (entry (JNum 1) 1 1000 "normal" 0));
    [vm_compute; reflexivity|vm_compute; discriminate|vm_compute; reflexivity].
Defined.

Lemma end_measures_from_the_latest_start_witness :
  PerformanceMonitor.records started_a !! "a" = Some record_a /\
  fst (PerformanceMonitor.end_ 250 JUndefined "a"
         (snd (PerformanceMonitor.end_ 100 JUndefined "a" started_a)))
  = 250.
Proof.
  assert (Hrec : PerformanceMonitor.records started_a !! "a" = Some record_a).
  { vm_compute. reflexivity. }
  split; [exact Hrec|].
  destruct (end_measures_from_the_latest_start 100 250 JUndefined "a" started_a
              record_a Hrec) as (Hd & _).
  exact Hd.
Defined.

Lemma breaker_registry_invariant_witness :
  registry_ok world_Y /\
  registry_ok (snd (@invoke_all json_stub five_failures world_Y)).
Proof.
  assert (Hok : registry_ok world_Y).
  { intros name b Hb. unfold world_Y, world_of in Hb. cbn in Hb.
    apply lookup_singleton_Some in Hb as [_ <-].
    unfold breaker_ok. cbn. repeat split; lia. }
  split; [exact Hok|].
  apply (@breaker_registry_invariant json_stub five_failures world_Y Hok).
Defined.

Lemma calls_leave_other_names_alone_witness :
  "Y" <> "X" /\
  circuitBreaker
    (after (@optimizeAPICall json_stub "X" (always (Rejects "down" 10))
              default_options world_Y)) !! "Y"
  = circuitBreaker world_Y !! "Y".
Proof.
  split; [discriminate|].
  destruct (@calls_leave_other_names_alone json_stub "X" "Y"
              (always (Rejects "down" 10)) default_options world_Y)
    as [Hcb _]; [discriminate|].
  exact Hcb.
Defined.

Lemma truthy_result_is_served_from_cache_witness :
  outcome (@optimizeAPICall json_stub "R" fails_twice default_options fresh_world)
  = inl (JObj "recipe") /\
  outcome (@optimizeAPICall json_stub "R" (always Never) default_options
             (sleep 300000
                (after (@optimizeAPICall json_stub "R" fails_twice default_options
                          fresh_world))))
  = inl (JObj "recipe").
Proof.
  assert (Ho : outcome (@optimizeAPICall json_stub "R" fails_twice default_options
                          fresh_world) = inl (JObj "recipe")).
  { vm_compute. reflexivity. }
  split; [exact Ho|].
  destruct (@truthy_result_is_served_from_cache json_stub "R" fails_twice
              (always Never) default_options default_options fresh_world
              (JObj "recipe") 300000)
    as (Hserved & _);
    [reflexivity|vm_compute; reflexivity|reflexivity|reflexivity|reflexivity|
     exact Ho|reflexivity|lia|].
  exact Hserved.
Defined.

Lemma cache_hit_leaves_no_trace_witness :
  cache_hit (@optimizeAPICall json_stub "Y" (always Never) without_breaker world_Y)
  = true /\
  apiMetrics (after (@optimizeAPICall json_stub "Y" (always Never) without_breaker
                       world_Y))
  = apiMetrics world_Y.
Proof.
  assert (Hhit : cache_hit (@optimizeAPICall json_stub "Y" (always Never)
                              without_breaker world_Y) = true).
  { vm_compute. reflexivity. }
  split; [exact Hhit|].
  destruct (@cache_hit_leaves_no_trace json_stub "Y" (always Never) without_breaker
              world_Y Hhit) as (Hm & _).
  exact Hm.
Defined.

Lemma every_run_records_one_metric_witness :
  cache_hit (@optimizeAPICall json_stub "R" fails_twice default_options fresh_world)
  = false /\
  apiMetrics (after (@optimizeAPICall json_stub "R" fails_twice default_options
                       fresh_world)) !! "R"
  = Some (pushed_metric (default [] (apiMetrics fresh_world !! "R"))
            (metric_of fresh_world
               (@optimizeAPICall json_stub "R" fails_twice default_options
                  fresh_world))).
Proof.
  assert (Hmiss : cache_hit (@optimizeAPICall json_stub "R" fails_twice
                               default_options fresh_world) = false).
  { vm_compute. reflexivity. }
  split; [exact Hmiss|].
  destruct (@every_run_records_one_metric json_stub "R" fails_twice default_options
              fresh_world Hmiss) as (Hm & _).
  exact Hm.
Defined.

Lemma disabled_breaker_can_close_but_not_open_witness :
  circuitBreakerEnabled without_breaker = false /\
  outcome (@optimizeAPICall json_stub "Z" (always (Rejects "down" 10))
             without_breaker world_Z)
  <> inr (CircuitOpenError "Z").
Proof.
  split; [reflexivity|].
  destruct (@disabled_breaker_can_close_but_not_open json_stub "Z"
              (always (Rejects "down" 10)) without_breaker world_Z eq_refl)
    as (Hno & _).
  exact Hno.
Defined.

Lemma debounce_runs_once_after_a_burst_witness :
  burst 300 0 keystrokes /\
  debounce_runs 300 ((0, "f") :: keystrokes) 1000 None = [(650, "foo")].
Proof.
  assert (Hb : burst 300 0 keystrokes).
  { cbn. repeat split; lia. }
  split; [exact Hb|].
  apply (debounce_runs_once_after_a_burst 300 0 "f" keystrokes 1000 Hb).
  vm_compute. discriminate.
Defined.

Lemma rejections_keep_breaker_open_witness :
  circuitBreaker (with_circuitBreaker {["Y" := tripped 1000]} world_Y) !! "Y"
  = Some (tripped 1000) /\
  Forall (fun r => outcome r = inr (CircuitOpenError "Y") /\ calls r = O)
    (fst (@invoke_all json_stub
            [call 500 "Y" (always (Resolves (JStr "fresh") 10));
             call 60000 "Y" (always (Resolves (JStr "fresh") 10))]
            (with_circuitBreaker {["Y" := tripped 1000]} world_Y))).
Proof.
  split; [vm_compute; reflexivity|].
  destruct (@rejections_keep_breaker_open json_stub "Y"
              [call 500 "Y" (always (Resolves (JStr "fresh") 10));
               call 60000 "Y" (always (Resolves (JStr "fresh") 10))]
              (with_circuitBreaker {["Y" := tripped 1000]} world_Y) (tripped 1000))
    as (Hall & _);
    [vm_compute; reflexivity|reflexivity|reflexivity|vm_compute; discriminate| |
     exact Hall].
  repeat constructor; vm_compute; discriminate.
Defined.
